(** * Trade manager: offer construction, acceptance, cancellation and
      chain-event reconciliation

    A shallow embedding of [chia/wallet/trade_manager.py].  The manager is a
    sequential program over three pieces of mutable state (the trade store,
    the wallet state manager's transaction store, and the wallets it calls),
    so every method is a function in a state-and-exception monad [M].  The
    collaborators that live in other modules (the [Offer] and [SpendBundle]
    classes, the wallets, the wallet node) are taken as an interface [Env];
    the two stores are modelled as lists.  The definitions come first, then a
    small concrete instance, then the properties of the manager, and last
    the properties run on the instance. *)

From Stdlib Require Import ZArith NArith List Bool String Lia Permutation.
Import ListNotations.
Open Scope Z_scope.

(** ** Plain data *)

Definition bytes32 := N.
Bind Scope N_scope with bytes32.
Definition bytes := list Byte.byte.

(** [bytes32([1] * 32)] *)
Definition bytes32_ones : bytes32 :=
  fold_left (fun acc _ => (acc * 256 + 1)%N) (repeat tt 32) 0%N.

(** Concatenation [a + b] of two 32-byte strings, as a 64-byte number. *)
Definition concat32 (a b : bytes32) : N := (a * 2 ^ 256 + b)%N.

Record Coin := {
  parent_coin_info : bytes32;
  puzzle_hash : bytes32;
  amount : Z
}.

Definition Coin_eqb (a b : Coin) : bool :=
  N.eqb (parent_coin_info a) (parent_coin_info b)
  && N.eqb (puzzle_hash a) (puzzle_hash b)
  && Z.eqb (amount a) (amount b).

Record CoinState := {
  cs_coin : Coin;
  spent_height : option Z;
  created_height : option Z
}.

Record WalletCoinRecord := {
  wcr_coin : Coin;
  wcr_wallet_id : Z
}.

Inductive TradeStatus :=
| PENDING_ACCEPT | PENDING_CONFIRM | PENDING_CANCEL
| CANCELLED | CONFIRMED | FAILED.

Definition TradeStatus_eqb (a b : TradeStatus) : bool :=
  match a, b with
  | PENDING_ACCEPT, PENDING_ACCEPT | PENDING_CONFIRM, PENDING_CONFIRM
  | PENDING_CANCEL, PENDING_CANCEL | CANCELLED, CANCELLED
  | CONFIRMED, CONFIRMED | FAILED, FAILED => true
  | _, _ => false
  end.

Inductive WalletType := STANDARD_WALLET | OTHER_WALLET (code : Z).

Definition is_standard (t : WalletType) : bool :=
  match t with STANDARD_WALLET => true | OTHER_WALLET _ => false end.

Inductive TransactionType :=
| INCOMING_TX | OUTGOING_TX | COINBASE_REWARD | FEE_REWARD
| INCOMING_TRADE | OUTGOING_TRADE.

(** [status] holds the member of [TradeStatus] whose value the record
    stores, so [TradeStatus(trade.status)] is [status trade]. *)
Record TradeRecord := {
  confirmed_at_index : Z;
  accepted_at_time : option Z;
  created_at_time : Z;
  is_my_offer : bool;
  sent : Z;
  offer : bytes;
  taken_offer : option bytes;
  coins_of_interest : list Coin;
  trade_id : bytes32;
  status : TradeStatus;
  sent_to : list string
}.

Record Payment := {
  pay_puzzle_hash : bytes32;
  pay_amount : Z;
  pay_memos : list bytes32
}.

Definition option_eqb {A} (eqb : A -> A -> bool) (a b : option A) : bool :=
  match a, b with
  | Some x, Some y => eqb x y
  | None, None => true
  | _, _ => false
  end.

Definition inb {A} (eqb : A -> A -> bool) (x : A) (l : list A) : bool :=
  existsb (eqb x) l.

Definition sum_amounts (l : list Coin) : Z :=
  fold_left (fun acc c => acc + amount c) l 0.

(** A Python [set] of coins, kept as a duplicate-free list. *)
Definition set_add (c : Coin) (s : list Coin) : list Coin :=
  if inb Coin_eqb c s then s else s ++ [c].

(** ** Insertion-ordered dictionaries

    Python dictionaries iterate in insertion order and assigning to a key
    that is present keeps its position. *)

Section Dict.
Context {K V : Type} (eqb : K -> K -> bool).

Fixpoint dict_get (d : list (K * V)) (k : K) : option V :=
  match d with
  | [] => None
  | (k', v) :: d' => if eqb k k' then Some v else dict_get d' k
  end.

Fixpoint dict_set (d : list (K * V)) (k : K) (v : V) : list (K * V) :=
  match d with
  | [] => [(k, v)]
  | (k', v') :: d' =>
      if eqb k k' then (k', v) :: d' else (k', v') :: dict_set d' k v
  end.

Definition dict_values (d : list (K * V)) : list V := map snd d.

End Dict.

(** [d.setdefault(k, []); d[k].append(x)] *)
Definition dict_append {K A} (eqb : K -> K -> bool)
  (d : list (K * list A)) (k : K) (x : A) : list (K * list A) :=
  match dict_get eqb d k with
  | Some l => dict_set eqb d k (l ++ [x])
  | None => dict_set eqb d k [x]
  end.

(** Keys of an offer dictionary: [Union[int, bytes32]]. *)
Inductive AssetKey := WalletKey (id : Z) | AssetIdKey (asset_id : bytes32).

Definition AssetKey_eqb (a b : AssetKey) : bool :=
  match a, b with
  | WalletKey x, WalletKey y => Z.eqb x y
  | AssetIdKey x, AssetIdKey y => N.eqb x y
  | _, _ => false
  end.

(** ** Exceptions

    An exception is identified with the message [str(e)] it carries; the
    values interpolated into the f-strings are kept as arguments. *)

Inductive error :=
| CannotRequestAssets (wallet : Z)
| CannotOfferAssets (wallet : Z)
| ZeroAmount
| CannotOfferCoins (wallet : Z)
| DriverConflict (asset_id : bytes32)
| NotIntegrated (asset_id : bytes32)
| NoWalletForAsset (asset_id : bytes32)
| OfferNoLongerValid
| NoMessage
| ErrorCreatingOffer (cause : error)
| KeyError (key : AssetKey)
| TypeError
| AttributeError
| IndexError
| AssertionError
| OutOfRange (value : Z)
| External (code : N).

Inductive Outcome (A : Type) :=
| Ret (a : A)
| Raise (e : error).
Arguments Ret {A} a.
Arguments Raise {A} e.

(** [uint32(z)] and [uint64(z)] raise on a value out of range. *)
Definition uint32 (z : Z) : Outcome Z :=
  if (0 <=? z) && (z <? 2 ^ 32) then Ret z else Raise (OutOfRange z).

Definition uint64 (z : Z) : Outcome Z :=
  if (0 <=? z) && (z <? 2 ^ 64) then Ret z else Raise (OutOfRange z).

(** ** The state-and-exception monad

    [M W A] is a computation over a state [W] that returns an [A] or raises.
    A raised exception keeps the state reached so far: nothing is rolled
    back. *)

Definition M (W A : Type) : Type := W -> Outcome A * W.

Definition ret {W A} (a : A) : M W A := fun w => (Ret a, w).

Definition raise {W A} (e : error) : M W A := fun w => (Raise e, w).

Definition bind {W A B} (m : M W A) (k : A -> M W B) : M W B :=
  fun w =>
    match m w with
    | (Ret a, w') => k a w'
    | (Raise e, w') => (Raise e, w')
    end.

(** [try: m  except Exception as e: h e] *)
Definition try_except {W A} (m : M W A) (h : error -> M W A) : M W A :=
  fun w =>
    match m w with
    | (Ret a, w') => (Ret a, w')
    | (Raise e, w') => h e w'
    end.

(** An outcome computed without touching the state. *)
Definition lift {W A} (o : Outcome A) : M W A := fun w => (o, w).

Definition gets {W A} (f : W -> A) : M W A := fun w => (Ret (f w), w).

Definition modify {W} (f : W -> W) : M W unit := fun w => (Ret tt, f w).

Declare Scope tm_scope.
Delimit Scope tm_scope with tm.
Notation "x <- c ;; k" := (bind c (fun x => k))
  (at level 61, c at next level, right associativity) : tm_scope.
Notation "c ;;; k" := (bind c (fun _ => k))
  (at level 61, right associativity) : tm_scope.
Open Scope tm_scope.

(** [for x in l: body x] *)
Fixpoint for_each {W A} (l : list A) (body : A -> M W unit) : M W unit :=
  match l with
  | [] => ret tt
  | x :: l' => body x ;;; for_each l' body
  end.

(** A loop that threads the local variables [S] it assigns. *)
Fixpoint for_fold {W A S} (l : list A) (body : S -> A -> M W S) (s : S)
  : M W S :=
  match l with
  | [] => ret s
  | x :: l' => s' <- body s x ;; for_fold l' body s'
  end.

(** ** Records and collaborators that depend on opaque data

    [SpendBundle], [PuzzleInfo], [Solver], [NotarizedPayment] and
    [Announcement] are defined in modules the manager only calls; they are
    kept abstract. *)

Section Model.
Context {SpendBundle PuzzleInfo Solver NotarizedPayment Announcement : Type}.

Record TransactionRecord := {
  tx_confirmed_at_height : option Z;
  tx_created_at_time : Z;
  tx_to_puzzle_hash : bytes32;
  tx_amount : Z;
  tx_fee_amount : Z;
  tx_confirmed : bool;
  tx_sent : Z;
  tx_spend_bundle : option SpendBundle;
  tx_additions : list Coin;
  tx_removals : list Coin;
  tx_wallet_id : Z;
  tx_sent_to : list string;
  tx_trade_id : option bytes32;
  tx_type : TransactionType;
  tx_name : bytes32;
  tx_memos : list bytes32
}.

(** [dataclasses.replace(tx, confirmed_at_height=height, confirmed=True)] *)
Definition replace_confirmed (tx : TransactionRecord) (height : option Z)
  : TransactionRecord :=
  {| tx_confirmed_at_height := height;
     tx_created_at_time := tx_created_at_time tx;
     tx_to_puzzle_hash := tx_to_puzzle_hash tx;
     tx_amount := tx_amount tx;
     tx_fee_amount := tx_fee_amount tx;
     tx_confirmed := true;
     tx_sent := tx_sent tx;
     tx_spend_bundle := tx_spend_bundle tx;
     tx_additions := tx_additions tx;
     tx_removals := tx_removals tx;
     tx_wallet_id := tx_wallet_id tx;
     tx_sent_to := tx_sent_to tx;
     tx_trade_id := tx_trade_id tx;
     tx_type := tx_type tx;
     tx_name := tx_name tx;
     tx_memos := tx_memos tx |}.

(** [dataclasses.replace(tx, fee_amount=fee)] *)
Definition replace_fee_amount (tx : TransactionRecord) (fee : Z)
  : TransactionRecord :=
  {| tx_confirmed_at_height := tx_confirmed_at_height tx;
     tx_created_at_time := tx_created_at_time tx;
     tx_to_puzzle_hash := tx_to_puzzle_hash tx;
     tx_amount := tx_amount tx;
     tx_fee_amount := fee;
     tx_confirmed := tx_confirmed tx;
     tx_sent := tx_sent tx;
     tx_spend_bundle := tx_spend_bundle tx;
     tx_additions := tx_additions tx;
     tx_removals := tx_removals tx;
     tx_wallet_id := tx_wallet_id tx;
     tx_sent_to := tx_sent_to tx;
     tx_trade_id := tx_trade_id tx;
     tx_type := tx_type tx;
     tx_name := tx_name tx;
     tx_memos := tx_memos tx |}.

(** A value of an offer dictionary: [Union[Solver, int]]. *)
Inductive SolverOrInt :=
| IntVal (z : Z)
| SolverVal (s : Solver).

(** The [Offer] dataclass. *)
Record Offer := {
  requested_payments : list (option bytes32 * list NotarizedPayment);
  bundle : SpendBundle;
  driver_dict : list (bytes32 * PuzzleInfo)
}.

(** An offer whose [driver_dict] has been written to.  The dictionary is a
    shared object: whoever was handed [offer.driver_dict] and assigns to it
    changes what the offer carries. *)
Definition with_driver_dict (o : Offer) (d : list (bytes32 * PuzzleInfo))
  : Offer :=
  {| requested_payments := requested_payments o;
     bundle := bundle o;
     driver_dict := d |}.

(** A wallet object.  The capabilities the manager probes with
    [callable(getattr(wallet, ..., None))] are optional fields.  The standard
    wallet's [generate_signed_transaction] takes one amount and one puzzle
    hash and returns one record; the other wallets' takes lists and returns a
    list.  [new_puzzlehash n] is what [get_new_puzzlehash()] answers when [n]
    puzzle hashes have been derived before. *)
Record Wallet := {
  wallet_id : Z;
  wallet_type : WalletType;
  new_puzzlehash : nat -> Outcome bytes32;
  get_asset_id : option bytes32;
  get_puzzle_info : option (bytes32 -> PuzzleInfo);
  get_coins_to_offer :
    option (option bytes32 -> SolverOrInt -> Z -> Outcome (list Coin));
  create_offer_transactions :
    SolverOrInt -> list Coin -> list Announcement -> Z ->
    Outcome (list TransactionRecord);
  select_coins : Z -> list Coin -> Outcome (list Coin);
  generate_signed_transaction_standard :
    Z -> bytes32 -> Z -> list Coin -> Outcome TransactionRecord;
  generate_signed_transaction :
    list Z -> list bytes32 -> Z -> list Coin ->
    Outcome (list TransactionRecord);
  (* awaited at line 470; it may raise, and as a conversion that reads the
     wallet it is not recorded among the calls *)
  convert_puzzle_hash : bytes32 -> Outcome bytes32
}.

(** Calls that reach a wallet or the wallet state manager and are not
    reads, in the order they are made. *)
Inductive Call :=
| GetNewPuzzlehash (wallet : Z)
| GetCoinsToOffer (wallet : Z) (asset_id : option bytes32)
    (amount : SolverOrInt) (fee : Z)
| CreateOfferTransactions (wallet : Z) (amount : SolverOrInt)
    (coins : list Coin) (announcements : list Announcement) (fee : Z)
| SelectCoins (wallet : Z) (amount : Z) (exclude : list Coin)
| GenerateSignedTransaction (wallet : Z) (amounts : list Z)
    (puzzle_hashes : list bytes32) (fee : Z) (coins : list Coin)
| CreateWalletForPuzzleInfo (info : PuzzleInfo)
| PushTransaction (name : bytes32)
| StateChanged (what : string).

(** The mutable state the manager works on. *)
Record World := {
  trades : list TradeRecord;
  transactions : list TransactionRecord;
  calls : list Call;
  derived : nat;
  now : Z
}.

(** The collaborators, as the manager sees them. *)
Record Env := {
  (* hashing *)
  coin_name : Coin -> bytes32;
  std_hash : N -> bytes32;
  removal_tree_hash : list Coin -> bytes32;
  (* chia.wallet.trading.offer.Offer *)
  Offer_from_bytes : bytes -> Offer;
  Offer_to_bytes : Offer -> bytes;
  Offer_name : Offer -> bytes32;
  get_primary_coins : Offer -> list Coin;
  get_offered_coins : Offer -> list (option bytes32 * list Coin);
  get_root_removal : Offer -> Coin -> Coin;
  get_involved_coins : Offer -> list Coin;
  arbitrage : Offer -> list (option bytes32 * Z);
  to_valid_spend : Offer -> Outcome SpendBundle;
  is_valid : Offer -> bool;
  Offer_aggregate : list Offer -> Outcome Offer;
  notarize_payments :
    list (option bytes32 * list Payment) -> list Coin ->
    Outcome (list (option bytes32 * list NotarizedPayment));
  calculate_announcements :
    list (option bytes32 * list NotarizedPayment) ->
    list (bytes32 * PuzzleInfo) -> Outcome (list Announcement);
  (* chia.types.spend_bundle.SpendBundle *)
  removals : SpendBundle -> list Coin;
  not_ephemeral_additions : SpendBundle -> list Coin;
  fees : SpendBundle -> Z;
  SpendBundle_name : SpendBundle -> bytes32;
  SpendBundle_aggregate : list SpendBundle -> SpendBundle;
  (* chia.wallet.puzzle_drivers *)
  PuzzleInfo_eqb : PuzzleInfo -> PuzzleInfo -> bool;
  solver_gt_zero : Solver -> Outcome bool;
  (* wallet_state_manager *)
  wallets : Z -> option Wallet;
  main_wallet : Wallet;
  get_wallet_for_asset_id : bytes32 -> option Wallet;
  get_wallet_for_coin : bytes32 -> option Wallet;
  get_wallet_id_for_puzzle_hash : bytes32 -> option (Z * WalletType);
  get_wallet_for_puzzle_info : PuzzleInfo -> option Wallet;
  coin_records : list WalletCoinRecord;
  (* wallet_node *)
  coin_table : option Z -> list CoinState;
  (* trade_store: where a record that is written is listed among the
     records held, which the spec leaves open *)
  store_position : TradeRecord -> list TradeRecord -> nat
}.


Abbreviation T := (M World).

Definition set_trades (f : list TradeRecord -> list TradeRecord) (w : World)
  : World :=
  {| trades := f (trades w); transactions := transactions w;
     calls := calls w; derived := derived w; now := now w |}.

Definition set_transactions
  (f : list TransactionRecord -> list TransactionRecord) (w : World) : World :=
  {| trades := trades w; transactions := f (transactions w);
     calls := calls w; derived := derived w; now := now w |}.

(** The state once a call has been made. *)
Definition logged (w : World) (c : Call) : World :=
  {| trades := trades w; transactions := transactions w;
     calls := calls w ++ [c]; derived := derived w; now := now w |}.

Definition log_call (c : Call) : T unit := modify (fun w => logged w c).

(** [uint64(int(time.time()))] *)
Definition time_time : T Z := gets now.

(** ** The trade store *)

Variable env : Env.

(** Modelled from the spec: the record a status update leaves in the trade
    store (chia/wallet/trading/trade_store.py is not among the sources); only
    the status and, when a height is given, the confirmation index change. *)
Definition with_status (t : TradeRecord) (s : TradeStatus) (index : option Z)
  : TradeRecord :=
  {| confirmed_at_index :=
       match index with Some h => h | None => confirmed_at_index t end;
     accepted_at_time := accepted_at_time t;
     created_at_time := created_at_time t;
     is_my_offer := is_my_offer t;
     sent := sent t;
     offer := offer t;
     taken_offer := taken_offer t;
     coins_of_interest := coins_of_interest t;
     trade_id := trade_id t;
     status := s;
     sent_to := sent_to t |}.

(** Modelled from the spec: the trade store keeps trade records indexed by
    trade id, one record per id.  A record written under an id replaces what
    the store held under that id and leaves the other records as they are.
    The spec fixes no listing order: where the written record stands among
    the others is the store's choice, [store_position], which is handed the
    record and the records held before. *)
Definition put_trade (t : TradeRecord) (l : list TradeRecord)
  : list TradeRecord :=
  let others :=
    filter (fun t' => negb (N.eqb (trade_id t') (trade_id t))) l in
  let position := store_position env t l in
  firstn position others ++ t :: skipn position others.

(** Modelled from the spec: the records of the store once the status of the
    trade [id] has been set.  The record held under [id] is written back with
    the new status; an id the store does not hold changes nothing. *)
Definition trades_with_status (id : bytes32) (s : TradeStatus)
  (index : option Z) (l : list TradeRecord) : list TradeRecord :=
  match find (fun t => N.eqb (trade_id t) id) l with
  | Some current => put_trade (with_status current s index) l
  | None => l
  end.

(** Modelled from the spec: [TradeStore.set_status], whose module
    (chia/wallet/trading/trade_store.py) is not among the sources.  The
    height is optional.  A caller that hands over a height which is [None]
    (line 156 does, when the first coin state is unspent) is modelled like
    one that hands over none, and only the status is written: the spec does
    not say what the store does with such a height. *)
Definition TradeStore_set_status (id : bytes32) (s : TradeStatus)
  (in_transaction : bool) (index : option Z) : T unit :=
  modify (set_trades (trades_with_status id s index)).

(** Modelled from the spec: [TradeStore.get_all_trades]. *)
Definition TradeStore_get_all_trades : T (list TradeRecord) := gets trades.

(** Modelled from the spec: [TradeStore.get_trade_record], lookup by id. *)
Definition TradeStore_get_trade_record (id : bytes32)
  : T (option TradeRecord) :=
  gets (fun w => find (fun t => N.eqb (trade_id t) id) (trades w)).

(** Modelled from the spec: [TradeStore.add_trade_record], which stores the
    record under its trade id. *)
Definition TradeStore_add_trade_record (t : TradeRecord)
  (in_transaction : bool) : T unit :=
  modify (set_trades (put_trade t)).

(** ** The wallet state manager and the wallet node *)

(** Modelled from the spec: the wallet node's coin-state query by id,
    optionally as of a fork height.  [coin_table env fork_height] is what the
    node knows; the query returns the states of the coins asked for. *)
Definition get_coin_state (coin_names : list bytes32) (fork_height : option Z)
  : list CoinState :=
  filter (fun cs => inb N.eqb (coin_name env (cs_coin cs)) coin_names)
    (coin_table env fork_height).

(** Modelled from the spec: the coin store's coin-record lookup by id. *)
Definition get_multiple_coin_records (coin_names : list bytes32)
  : list WalletCoinRecord :=
  filter (fun cr => inb N.eqb (coin_name env (wcr_coin cr)) coin_names)
    (coin_records env).

(** Modelled from the spec: transaction persistence of the wallet state
    manager; a record is appended to the transaction store. *)
Definition add_transaction (tx : TransactionRecord) (in_transaction : bool)
  : T unit :=
  modify (set_transactions (fun l => l ++ [tx])).

(** Modelled from the spec: pending-transaction submission; the record is
    stored and queued for broadcast. *)
Definition add_pending_transaction (tx : TransactionRecord) : T unit :=
  modify (set_transactions (fun l => l ++ [tx])) ;;;
  log_call (PushTransaction (tx_name tx)).

(** Modelled from the spec: deletion of the transactions queued for a
    trade. *)
Definition delete_trade_transactions (id : bytes32) : T unit :=
  modify (set_transactions (filter (fun tx =>
    negb (option_eqb N.eqb (tx_trade_id tx) (Some id))))).

Definition state_changed (what : string) : T unit :=
  log_call (StateChanged what).

(** [self.wallet_state_manager.wallets[wallet_id]] *)
Definition wallets_lookup (id : Z) : T Wallet :=
  match wallets env id with
  | Some wl => ret wl
  | None => raise (KeyError (WalletKey id))
  end.

(** ** Calls on a wallet

    The wallets are not among the sources.  A call is recorded in [calls] and
    answers what the wallet's field answers. *)

(** Modelled from the spec: [get_new_puzzlehash() -> fresh address]; each
    call moves the derivation counter on. *)
Definition get_new_puzzlehash (wl : Wallet) : T bytes32 :=
  fun w =>
    (new_puzzlehash wl (derived w),
     {| trades := trades w; transactions := transactions w;
        calls := calls w ++ [GetNewPuzzlehash (wallet_id wl)];
        derived := S (derived w); now := now w |}).

Definition call_get_coins_to_offer (wl : Wallet)
  (f : option bytes32 -> SolverOrInt -> Z -> Outcome (list Coin))
  (asset_id : option bytes32) (amount : SolverOrInt) (fee : Z)
  : T (list Coin) :=
  log_call (GetCoinsToOffer (wallet_id wl) asset_id amount fee) ;;;
  lift (f asset_id amount fee).

Definition call_create_offer_transactions (wl : Wallet) (amount : SolverOrInt)
  (coins : list Coin) (announcements : list Announcement) (fee : Z)
  : T (list TransactionRecord) :=
  log_call (CreateOfferTransactions (wallet_id wl) amount coins
              announcements fee) ;;;
  lift (create_offer_transactions wl amount coins announcements fee).

Definition call_select_coins (wl : Wallet) (amount : Z) (exclude : list Coin)
  : T (list Coin) :=
  log_call (SelectCoins (wallet_id wl) amount exclude) ;;;
  lift (select_coins wl amount exclude).

Definition call_generate_signed_transaction_standard (wl : Wallet)
  (amount : Z) (ph : bytes32) (fee : Z) (coins : list Coin)
  : T TransactionRecord :=
  log_call (GenerateSignedTransaction (wallet_id wl) [amount] [ph] fee
              coins) ;;;
  lift (generate_signed_transaction_standard wl amount ph fee coins).

Definition call_generate_signed_transaction (wl : Wallet)
  (amounts : list Z) (phs : list bytes32) (fee : Z) (coins : list Coin)
  : T (list TransactionRecord) :=
  log_call (GenerateSignedTransaction (wallet_id wl) amounts phs fee
              coins) ;;;
  lift (generate_signed_transaction wl amounts phs fee coins).

(** ** The trade manager *)

Definition get_all_trades : T (list TradeRecord) := TradeStore_get_all_trades.

Definition get_trade_by_id (id : bytes32) : T (option TradeRecord) :=
  TradeStore_get_trade_record id.

(** The loop of [get_trade_by_coin]. *)
Fixpoint get_trade_by_coin_loop (all_trades : list TradeRecord) (coin : Coin)
  : option TradeRecord :=
  match all_trades with
  | [] => None
  | trade :: rest =>
      if TradeStatus_eqb (status trade) CANCELLED
      then get_trade_by_coin_loop rest coin
      else if inb Coin_eqb coin (coins_of_interest trade)
      then Some trade
      else get_trade_by_coin_loop rest coin
  end.

Definition get_trade_by_coin (coin : Coin) : T (option TradeRecord) :=
  all_trades <- get_all_trades ;;
  ret (get_trade_by_coin_loop all_trades coin).

(** The fields shared by every record [calculate_tx_records_for_offer]
    and the cancellation build by hand. *)
Definition fresh_record (created : Z) (to_ph : bytes32) (amt fee : Z)
  (adds rems : list Coin) (wid : Z) (tid : option bytes32)
  (ty : TransactionType) (name : bytes32) : TransactionRecord :=
  {| tx_confirmed_at_height := Some 0;
     tx_created_at_time := created;
     tx_to_puzzle_hash := to_ph;
     tx_amount := amt;
     tx_fee_amount := fee;
     tx_confirmed := false;
     tx_sent := 10;
     tx_spend_bundle := None;
     tx_additions := adds;
     tx_removals := rems;
     tx_wallet_id := wid;
     tx_sent_to := [];
     tx_trade_id := tid;
     tx_type := ty;
     tx_name := name;
     tx_memos := [] |}.

Definition calculate_tx_records_for_offer (o : Offer) (validate : bool)
  : T (list TransactionRecord) :=
  final_spend_bundle <-
    (if validate then lift (to_valid_spend env o) else ret (bundle o)) ;;
  let settlement_coins := List.concat (dict_values (get_offered_coins env o)) in
  let settlement_coin_ids := map (coin_name env) settlement_coins in
  let additions := not_ephemeral_additions env final_spend_bundle in
  let removals_ := removals env final_spend_bundle in
  all_fees <- lift (uint64 (fees env final_spend_bundle)) ;;
  st <- for_fold additions
    (fun (st : list TransactionRecord * list (Z * list Coin)) addition =>
       let (txs, addition_dict) := st in
       match get_wallet_id_for_puzzle_hash env (puzzle_hash addition) with
       | Some (wid, _) =>
           if inb N.eqb (parent_coin_info addition) settlement_coin_ids
           then
             wl <- wallets_lookup wid ;;
             to_puzzle_hash <-
               lift (convert_puzzle_hash wl (puzzle_hash addition)) ;;
             created <- time_time ;;
             ret (txs ++
                  [fresh_record created to_puzzle_hash (amount addition) 0
                     [addition] [] wid (Some (Offer_name env o))
                     INCOMING_TRADE
                     (std_hash env
                        (concat32 (SpendBundle_name env final_spend_bundle)
                                  (coin_name env addition)))],
                  addition_dict)
           else ret (txs, dict_append Z.eqb addition_dict wid addition)
       | None => ret st
       end)
    ([], []) ;;
  let (txs, addition_dict) := st in
  let removal_dict :=
    fold_left
      (fun (d : list (Z * list Coin)) removal =>
         match get_wallet_id_for_puzzle_hash env (puzzle_hash removal) with
         | Some (wid, _) => dict_append Z.eqb d wid removal
         | None => d
         end)
      removals_ [] in
  for_fold removal_dict
    (fun (txs : list TransactionRecord) (item : Z * list Coin) =>
       let (wid, grouped_removals) := item in
       wl <- wallets_lookup wid ;;
       let to_puzzle_hash := bytes32_ones in
       let tree_hash := removal_tree_hash env grouped_removals in
       let removed := sum_amounts grouped_removals in
       let change_coins :=
         match dict_get Z.eqb addition_dict wid with
         | Some l => l
         | None => []
         end in
       let change_amount := sum_amounts change_coins in
       let sent_amount := removed - change_amount in
       created <- time_time ;;
       amt <- lift (uint64 sent_amount) ;;
       ret (txs ++
            [fresh_record created to_puzzle_hash amt all_fees
               change_coins grouped_removals (wallet_id wl)
               (Some (Offer_name env o)) OUTGOING_TRADE
               (std_hash env
                  (concat32 (SpendBundle_name env final_spend_bundle)
                            tree_hash))]))
    txs.

(** The ids of the settlement payments that descend from the primary coins
    this wallet holds (lines 136-146 of [coins_of_interest_farmed]). *)
Definition our_settlement_ids (o : Offer) : list bytes32 :=
  let primary_coin_ids := map (coin_name env) (get_primary_coins env o) in
  let our_coin_records := get_multiple_coin_records primary_coin_ids in
  let our_primary_coins :=
    map (fun cr => coin_name env (wcr_coin cr)) our_coin_records in
  let all_settlement_payments :=
    List.concat (dict_values (get_offered_coins env o)) in
  let our_settlement_payments :=
    filter (fun c =>
              inb N.eqb (coin_name env (get_root_removal env o c))
                our_primary_coins)
      all_settlement_payments in
  map (coin_name env) our_settlement_payments.

(** [set(a) & set(b)] is truthy when the two lists share an element. *)
Definition intersects (a b : list bytes32) : bool :=
  existsb (fun x => inb N.eqb x b) a.

Definition coins_of_interest_farmed (coin_state : CoinState)
  (fork_height : option Z) : T unit :=
  trade <- get_trade_by_coin (cs_coin coin_state) ;;
  match trade with
  | None => ret tt
  | Some trade =>
      (* a coin state with no spent_height is only logged *)
      let o := Offer_from_bytes env (offer trade) in
      let our_settlement_ids := our_settlement_ids o in
      let coin_states := get_coin_state our_settlement_ids fork_height in
      let coin_state_names :=
        map (fun cs => coin_name env (cs_coin cs)) coin_states in
      if intersects our_settlement_ids coin_state_names
      then
        height <- lift (match coin_states with
                        | cs :: _ => Ret (spent_height cs)
                        | [] => Raise IndexError
                        end) ;;
        TradeStore_set_status (trade_id trade) CONFIRMED true height ;;;
        tx_records <- calculate_tx_records_for_offer o false ;;
        for_each tx_records (fun tx =>
          if TradeStatus_eqb (status trade) PENDING_ACCEPT
          then add_transaction (replace_confirmed tx height) true
          else ret tt)
      else
        delete_trade_transactions (trade_id trade) ;;;
        if TradeStatus_eqb (status trade) PENDING_CANCEL
        then TradeStore_set_status (trade_id trade) CANCELLED true None
        else if TradeStatus_eqb (status trade) PENDING_CONFIRM
        then TradeStore_set_status (trade_id trade) FAILED true None
        else ret tt
  end.

Definition cancel_pending_offer (id : bytes32) : T unit :=
  TradeStore_set_status id CANCELLED false None ;;;
  state_changed "offer_cancelled".

(** The body of the loop of [cancel_pending_offer_safely]; the loop carries
    [all_txs] and [fee_to_pay]. *)
Definition cancel_coin (fee : Z)
  (st : list TransactionRecord * Z) (coin : Coin)
  : T (list TransactionRecord * Z) :=
  let (all_txs, fee_to_pay) := st in
  match get_wallet_for_coin env (coin_name env coin) with
  | None => ret st
  | Some wl =>
      new_ph <- get_new_puzzlehash wl ;;
      all_txs <-
        (if is_standard (wallet_type wl)
         then
           selected_coins <-
             (if amount coin <? fee_to_pay
              then
                shortfall <- lift (uint64 (fee_to_pay - amount coin)) ;;
                selected <- call_select_coins wl shortfall [coin] ;;
                ret (set_add coin selected)
              else ret [coin]) ;;
           amt <- lift (uint64 (sum_amounts selected_coins - fee_to_pay)) ;;
           tx <- call_generate_signed_transaction_standard wl amt new_ph
                   fee_to_pay selected_coins ;;
           ret (all_txs ++ [tx])
         else
           txs <- call_generate_signed_transaction wl [amount coin] [new_ph]
                    fee_to_pay [coin] ;;
           ret (all_txs ++ txs)) ;;
      let fee_to_pay := 0 in
      let cancellation_addition :=
        {| parent_coin_info := coin_name env coin;
           puzzle_hash := new_ph;
           amount := amount coin |} in
      created <- time_time ;;
      ret (all_txs ++
           [fresh_record created new_ph (amount coin) fee
              [cancellation_addition] [coin] (wallet_id wl) None
              INCOMING_TX (coin_name env cancellation_addition)],
           fee_to_pay)
  end.

Definition cancel_pending_offer_safely (id : bytes32) (fee : Z)
  : T (option (list TransactionRecord)) :=
  trade <- TradeStore_get_trade_record id ;;
  match trade with
  | None => ret None
  | Some trade =>
      st <- for_fold
              (get_primary_coins env (Offer_from_bytes env (offer trade)))
              (cancel_coin fee) ([], fee) ;;
      let all_txs := fst st in
      for_each all_txs (fun tx =>
        add_pending_transaction (replace_fee_amount tx fee)) ;;;
      TradeStore_set_status id PENDING_CANCEL false None ;;;
      ret (Some all_txs)
  end.

Definition save_trade (trade : TradeRecord) : T unit :=
  TradeStore_add_trade_record trade false ;;;
  state_changed "offer_added".

(** The local variables the first loop of [_create_offer_for_ids]
    assigns. *)
Record OfferVars := {
  coins_to_offer : list (AssetKey * list Coin);
  requested : list (option bytes32 * list Payment);
  fee_left_to_pay : Z;
  wallet_paying_fee : option AssetKey;
  drivers : list (bytes32 * PuzzleInfo)
}.

(** [isinstance(solver, int) & (solver > 0)]: [&] evaluates both sides, so
    a [Solver] is compared with 0 before the conjunction is taken. *)
Definition is_positive_int (solver : SolverOrInt) : T bool :=
  match solver with
  | IntVal z => ret (0 <? z)
  | SolverVal s => b <- lift (solver_gt_zero env s) ;; ret (false && b)
  end.

(** Lines 381-391: the driver of the asset is reconciled with
    [driver_dict]. *)
Definition reconcile_driver (asset_id : option bytes32) (wl : option Wallet)
  (driver_dict : list (bytes32 * PuzzleInfo))
  : T (list (bytes32 * PuzzleInfo)) :=
  match asset_id, wl with
  | Some a, Some wl =>
      match get_puzzle_info wl with
      | Some f =>
          let puzzle_driver := f a in
          match dict_get N.eqb driver_dict a with
          | Some d =>
              if negb (PuzzleInfo_eqb env d puzzle_driver)
              then raise (DriverConflict a)
              else ret (dict_set N.eqb driver_dict a puzzle_driver)
          | None => ret (dict_set N.eqb driver_dict a puzzle_driver)
          end
      | None => raise (NotIntegrated a)
      end
  | _, _ => ret driver_dict
  end.

(** One iteration of [for id, solver in offer_dict.items()]. *)
Definition offer_entry (v : OfferVars) (entry : AssetKey * SolverOrInt)
  : T OfferVars :=
  let (id, solver) := entry in
  positive <- is_positive_int solver ;;
  r <-
    (if positive
     then
       r <-
         match id with
         | WalletKey i =>
             wid <- lift (uint32 i) ;;
             wl <- wallets_lookup wid ;;
             p2_ph <- get_new_puzzlehash wl ;;
             if is_standard (wallet_type wl)
             then ret (Some wl, None, p2_ph, [])
             else
               match get_asset_id wl with
               | Some a => ret (Some wl, Some a, p2_ph, [p2_ph])
               | None => raise (CannotRequestAssets (wallet_id wl))
               end
         | AssetIdKey a =>
             p2_ph <- get_new_puzzlehash (main_wallet env) ;;
             ret (get_wallet_for_asset_id env a, Some a, p2_ph, [p2_ph])
         end ;;
       let '(wl, asset_id, p2_ph, memos) := r in
       amt <- lift (match solver with
                    | IntVal z => uint64 z
                    | SolverVal _ => Raise TypeError
                    end) ;;
       ret (wl, asset_id,
            {| coins_to_offer := coins_to_offer v;
               requested :=
                 dict_set (option_eqb N.eqb) (requested v) asset_id
                   [{| pay_puzzle_hash := p2_ph; pay_amount := amt;
                       pay_memos := memos |}];
               fee_left_to_pay := fee_left_to_pay v;
               wallet_paying_fee := wallet_paying_fee v;
               drivers := drivers v |})
     else
       r <-
         match id with
         | WalletKey i =>
             wid <- lift (uint32 i) ;;
             wl <- wallets_lookup wid ;;
             if is_standard (wallet_type wl)
             then ret (Some wl, None)
             else
               match get_asset_id wl with
               | Some a => ret (Some wl, Some a)
               | None => raise (CannotOfferAssets (wallet_id wl))
               end
         | AssetIdKey a => ret (get_wallet_for_asset_id env a, Some a)
         end ;;
       let '(wl, asset_id) := r in
       solver <-
         match solver with
         | IntVal z =>
             if z =? 0 then raise ZeroAmount
             else a <- lift (uint64 (Z.abs z)) ;; ret (IntVal a)
         | SolverVal s => ret (SolverVal s)
         end ;;
       coins <-
         match wl with
         | Some w =>
             match get_coins_to_offer w with
             | Some f =>
                 call_get_coins_to_offer w f asset_id solver
                   (fee_left_to_pay v)
             | None => raise (CannotOfferCoins (wallet_id w))
             end
         | None => raise AttributeError
         end ;;
       ret (wl, asset_id,
            {| coins_to_offer :=
                 dict_set AssetKey_eqb (coins_to_offer v) id coins;
               requested := requested v;
               fee_left_to_pay := 0;
               wallet_paying_fee := Some id;
               drivers := drivers v |})) ;;
  let '(wl, asset_id, v) := r in
  d <- reconcile_driver asset_id wl (drivers v) ;;
  ret {| coins_to_offer := coins_to_offer v;
         requested := requested v;
         fee_left_to_pay := fee_left_to_pay v;
         wallet_paying_fee := wallet_paying_fee v;
         drivers := d |}.

(** One iteration of [for id, selected_coins in coins_to_offer.items()]. *)
Definition offer_transactions
  (offer_dict : list (AssetKey * SolverOrInt)) (fee : Z)
  (paying : option AssetKey) (announcements_to_assert : list Announcement)
  (all_transactions : list TransactionRecord)
  (item : AssetKey * list Coin) : T (list TransactionRecord) :=
  let (id, selected_coins) := item in
  wl <-
    match id with
    | WalletKey i => wl <- wallets_lookup i ;; ret (Some wl)
    | AssetIdKey a => ret (get_wallet_for_asset_id env a)
    end ;;
  solver <-
    match dict_get AssetKey_eqb offer_dict id with
    | Some (IntVal z) => ret (IntVal (Z.abs z))
    | Some (SolverVal s) => ret (SolverVal s)
    | None => raise (KeyError id)
    end ;;
  let this_fee :=
    if option_eqb AssetKey_eqb (Some id) paying then fee else 0 in
  txs <-
    match wl with
    | Some w =>
        call_create_offer_transactions w solver selected_coins
          announcements_to_assert this_fee
    | None => raise AttributeError
    end ;;
  ret (all_transactions ++ txs).

(** The [try] block of [_create_offer_for_ids]. *)
Definition create_offer_body
  (offer_dict : list (AssetKey * SolverOrInt))
  (driver_dict : list (bytes32 * PuzzleInfo)) (fee : Z) : T Offer :=
  v <- for_fold offer_dict offer_entry
         {| coins_to_offer := []; requested := []; fee_left_to_pay := fee;
            wallet_paying_fee := None; drivers := driver_dict |} ;;
  let all_coins := List.concat (dict_values (coins_to_offer v)) in
  notarized_payments <- lift (notarize_payments env (requested v) all_coins) ;;
  announcements_to_assert <-
    lift (calculate_announcements env notarized_payments (drivers v)) ;;
  all_transactions <-
    for_fold (coins_to_offer v)
      (offer_transactions offer_dict fee (wallet_paying_fee v)
         announcements_to_assert) [] ;;
  let transaction_bundles := map tx_spend_bundle all_transactions in
  let total_spend_bundle :=
    SpendBundle_aggregate env
      (flat_map (fun b => match b with Some sb => [sb] | None => [] end)
         transaction_bundles) in
  ret {| requested_payments := notarized_payments;
         bundle := total_spend_bundle;
         driver_dict := drivers v |}.

Definition _create_offer_for_ids
  (offer_dict : list (AssetKey * SolverOrInt))
  (driver_dict : option (list (bytes32 * PuzzleInfo))) (fee : Z)
  : T (bool * option Offer * option error) :=
  let driver_dict :=
    match driver_dict with Some d => d | None => [] end in
  try_except
    (o <- create_offer_body offer_dict driver_dict fee ;;
     ret (true, Some o, None))
    (fun e => ret (false, None, Some e)).

Definition create_offer_for_ids
  (offer_dict : list (AssetKey * SolverOrInt))
  (driver_dict : option (list (bytes32 * PuzzleInfo))) (fee : Z)
  (validate_only : bool) : T (bool * option TradeRecord * option error) :=
  let driver_dict :=
    match driver_dict with Some d => d | None => [] end in
  r <- _create_offer_for_ids offer_dict (Some driver_dict) fee ;;
  let '(success, created_offer, err) := r in
  match success, created_offer with
  | true, Some created_offer =>
      now <- time_time ;;
      let trade_offer :=
        {| confirmed_at_index := 0;
           accepted_at_time := None;
           created_at_time := now;
           is_my_offer := true;
           sent := 0;
           offer := Offer_to_bytes env created_offer;
           taken_offer := None;
           coins_of_interest := get_involved_coins env created_offer;
           trade_id := Offer_name env created_offer;
           status := PENDING_ACCEPT;
           sent_to := [] |} in
      (if negb validate_only then save_trade trade_offer else ret tt) ;;;
      ret (success, Some trade_offer, err)
  | _, _ =>
      raise (ErrorCreatingOffer
               (match err with Some e => e | None => NoMessage end))
  end.

Definition maybe_create_wallets_for_offer (o : Offer) : T unit :=
  for_each (map fst (arbitrage env o)) (fun key =>
    match key with
    | None => ret tt
    | Some a =>
        match dict_get N.eqb (driver_dict o) a with
        | None => raise (KeyError (AssetIdKey a))
        | Some info =>
            match get_wallet_for_puzzle_info env info with
            | Some _ => ret tt
            | None => log_call (CreateWalletForPuzzleInfo info)
            end
        end
    end).

Definition check_offer_validity (o : Offer) : bool :=
  let all_removals := removals env (bundle o) in
  let all_removal_names := map (coin_name env) all_removals in
  let non_ephemeral_removals :=
    filter (fun c => negb (inb N.eqb (parent_coin_info c) all_removal_names))
      all_removals in
  let coin_states :=
    get_coin_state (map (coin_name env) non_ephemeral_removals) None in
  Nat.eqb (List.length coin_states) (List.length non_ephemeral_removals)
  && forallb (fun cs => match spent_height cs with
                        | None => true
                        | Some _ => false
                        end) coin_states.

(** The first loop of [respond_to_offer]; [inl msg] is the early
    [return False, None, msg]. *)
Fixpoint take_offer_entries (items : list (option bytes32 * Z))
  (take_offer_dict : list (AssetKey * SolverOrInt))
  : error + list (AssetKey * SolverOrInt) :=
  match items with
  | [] => inr take_offer_dict
  | (asset_id, amt) :: rest =>
      match asset_id with
      | None =>
          let key := WalletKey (wallet_id (main_wallet env)) in
          take_offer_entries rest
            (dict_set AssetKey_eqb take_offer_dict key (IntVal amt))
      | Some a =>
          match get_wallet_for_asset_id env a with
          | None =>
              if amt <? 0 then inl (NoWalletForAsset a)
              else
                take_offer_entries rest
                  (dict_set AssetKey_eqb take_offer_dict (AssetIdKey a)
                     (IntVal amt))
          | Some _ =>
              take_offer_entries rest
                (dict_set AssetKey_eqb take_offer_dict (AssetIdKey a)
                   (IntVal amt))
          end
      end
  end.

Definition respond_to_offer (o : Offer) (fee : Z)
  : T (bool * option TradeRecord * option error) :=
  match take_offer_entries (arbitrage env o) [] with
  | inl msg => ret (false, None, Some msg)
  | inr take_offer_dict =>
      let valid := check_offer_validity o in
      if negb valid then ret (false, None, Some OfferNoLongerValid)
      else
        r <- _create_offer_for_ids take_offer_dict (Some (driver_dict o))
               fee ;;
        let '(success, take_offer, err) := r in
        match success, take_offer with
        | true, Some take_offer =>
            (* [offer.driver_dict] is the dictionary [_create_offer_for_ids]
               was handed: it assigned its drivers to it (line 389) and
               built [take_offer] on it (line 419), so from here on [offer]
               carries the drivers of [take_offer] *)
            let o := with_driver_dict o (driver_dict take_offer) in
            complete_offer <- lift (Offer_aggregate env [o; take_offer]) ;;
            (if is_valid env complete_offer then ret tt
             else raise AssertionError) ;;;
            final_spend_bundle <- lift (to_valid_spend env complete_offer) ;;
            maybe_create_wallets_for_offer complete_offer ;;;
            tx_records <-
              calculate_tx_records_for_offer complete_offer true ;;
            accepted <- time_time ;;
            created <- time_time ;;
            let trade_record :=
              {| confirmed_at_index := 0;
                 accepted_at_time := Some accepted;
                 created_at_time := created;
                 is_my_offer := false;
                 sent := 0;
                 offer := Offer_to_bytes env complete_offer;
                 taken_offer := Some (Offer_to_bytes env o);
                 coins_of_interest := get_involved_coins env complete_offer;
                 trade_id := Offer_name env complete_offer;
                 status := PENDING_CONFIRM;
                 sent_to := [] |} in
            save_trade trade_record ;;;
            created <- time_time ;;
            let push_tx :=
              {| tx_confirmed_at_height := Some 0;
                 tx_created_at_time := created;
                 tx_to_puzzle_hash := bytes32_ones;
                 tx_amount := 0;
                 tx_fee_amount := 0;
                 tx_confirmed := false;
                 tx_sent := 0;
                 tx_spend_bundle := Some final_spend_bundle;
                 tx_additions := [];
                 tx_removals := [];
                 tx_wallet_id := 0;
                 tx_sent_to := [];
                 tx_trade_id := Some bytes32_ones;
                 tx_type := OUTGOING_TRADE;
                 tx_name := SpendBundle_name env final_spend_bundle;
                 tx_memos := [] |} in
            add_pending_transaction push_tx ;;;
            for_each tx_records (fun tx => add_transaction tx false) ;;;
            ret (true, Some trade_record, None)
        | _, _ => ret (false, None, err)
        end
  end.

(** ** Queries over the pending trades *)

(** Modelled from the spec: [TradeStore.get_trade_record_with_status], the
    records of the store that carry the status, in store order
    (chia/wallet/trading/trade_store.py is not among the sources). *)
Definition TradeStore_get_trade_record_with_status (s : TradeStatus)
  : T (list TradeRecord) :=
  gets (fun w => filter (fun t => TradeStatus_eqb (status t) s) (trades w)).

Definition get_offers_with_status (s : TradeStatus) : T (list TradeRecord) :=
  records <- TradeStore_get_trade_record_with_status s ;;
  ret records.

(** The list [all_pending] that [get_coins_of_interest] and
    [get_locked_coins] both build (lines 96-102 and 177-183). *)
Definition all_pending : T (list TradeRecord) :=
  pending_accept <- get_offers_with_status PENDING_ACCEPT ;;
  pending_confirm <- get_offers_with_status PENDING_CONFIRM ;;
  pending_cancel <- get_offers_with_status PENDING_CANCEL ;;
  ret (([] ++ pending_accept) ++ pending_confirm ++ pending_cancel).

Definition get_coins_of_interest : T (list (bytes32 * Coin)) :=
  all_pending <- all_pending ;;
  ret (fold_left
         (fun interested_dict trade =>
            fold_left
              (fun d coin => dict_set N.eqb d (coin_name env coin) coin)
              (coins_of_interest trade) interested_dict)
         all_pending []).

(** Modelled from the spec: [WalletCoinRecord.name], the name of the coin
    the record holds (chia/wallet/wallet_coin_record.py is not among the
    sources). *)
Definition WalletCoinRecord_name (record : WalletCoinRecord) : bytes32 :=
  coin_name env (wcr_coin record).

(** [for_wallet] is the argument [wallet_id], [None] by default. *)
Definition get_locked_coins (for_wallet : option Z)
  : T (list (bytes32 * WalletCoinRecord)) :=
  all_pending <- all_pending ;;
  let coins_of_interest :=
    flat_map
      (fun trade_offer =>
         map (coin_name env)
           (get_involved_coins env (Offer_from_bytes env (offer trade_offer))))
      all_pending in
  let coin_records := get_multiple_coin_records coins_of_interest in
  ret (fold_left
         (fun result record =>
            if match for_wallet with
               | None => true
               | Some id => wcr_wallet_id record =? id
               end
            then dict_set N.eqb result (WalletCoinRecord_name record) record
            else result)
         coin_records []).

End Model.

Arguments TransactionRecord : clear implicits.
Arguments Offer : clear implicits.
Arguments Wallet : clear implicits.
Arguments Call : clear implicits.
Arguments World : clear implicits.
Arguments Env : clear implicits.
Arguments SolverOrInt : clear implicits.
Arguments OfferVars : clear implicits.

(** ** Vocabulary of the statements *)

Section Vocabulary.
Context {SpendBundle PuzzleInfo Solver NotarizedPayment Announcement : Type}.
Variable env : Env SpendBundle PuzzleInfo Solver NotarizedPayment Announcement.
Abbreviation W := (World SpendBundle PuzzleInfo Solver Announcement).

(** The status the store holds for a trade id. *)
Definition status_of (w : W) (id : bytes32) : option TradeStatus :=
  option_map status (find (fun t => N.eqb (trade_id t) id) (trades w)).

(** The outcome and the final state of a run. *)
Definition result {A} (m : M W A) (w : W) : Outcome A := fst (m w).
Definition final {A} (m : M W A) (w : W) : W := snd (m w).

(** A computation that leaves the state alone and whose outcome depends on
    the clock only. *)
Definition reads_clock_only {A} (m : M W A) : Prop :=
  forall w,
    final m w = w /\
    forall w2, now w2 = now w -> result m w2 = result m w.

(** A computation that writes neither the trade store nor the transaction
    store. *)
Definition keeps_stores {A} (m : M W A) : Prop :=
  forall w,
    trades (final m w) = trades w /\
    transactions (final m w) = transactions w.

(** A computation that leaves the clock alone. *)
Definition keeps_clock {A} (m : M W A) : Prop :=
  forall w, now (final m w) = now w.

(** The node knows one of this side's settlement payments of the offer:
    it has a coin state for it. *)
Definition settlement_known (fork_height : option Z)
  (o : Offer SpendBundle PuzzleInfo NotarizedPayment) : Prop :=
  exists cs,
    In cs (coin_table env fork_height) /\
    In (coin_name env (cs_coin cs)) (our_settlement_ids env o).

(** One of this side's settlement payments has been spent on chain: the
    node has a coin state for it that carries a spent height. *)
Definition settlement_spent (fork_height : option Z)
  (o : Offer SpendBundle PuzzleInfo NotarizedPayment) : Prop :=
  exists cs,
    In cs (coin_table env fork_height) /\
    In (coin_name env (cs_coin cs)) (our_settlement_ids env o) /\
    spent_height cs <> None.

(** The [generate_signed_transaction] calls of a log, in order: wallet id,
    amounts, puzzle hashes, fee and coins. *)
Definition spend_calls (l : list (Call PuzzleInfo Solver Announcement))
  : list (Z * list Z * list bytes32 * Z * list Coin) :=
  flat_map (fun c =>
    match c with
    | GenerateSignedTransaction wid amounts phs fee coins =>
        [(wid, amounts, phs, fee, coins)]
    | _ => []
    end) l.







(** The wallet the manager resolves for a key of an offer dictionary that
    stands for the asset [a]: a wallet id names a wallet that is not the
    standard one and answers [a] as its asset; an asset id names itself,
    with the wallet held for it. *)
Definition entry_wallet (id : AssetKey) (a : bytes32)
  (wl : Wallet SpendBundle PuzzleInfo Solver Announcement) : Prop :=
  match id with
  | WalletKey i =>
      wallets env i = Some wl /\
      is_standard (wallet_type wl) = false /\
      get_asset_id wl = Some a
  | AssetIdKey a' =>
      a' = a /\ get_wallet_for_asset_id env a = Some wl
  end.

(** The [get_coins_to_offer] calls of a log. *)
Definition coin_queries (l : list (Call PuzzleInfo Solver Announcement))
  : list (Call PuzzleInfo Solver Announcement) :=
  filter (fun c =>
            match c with
            | GetCoinsToOffer _ _ _ _ => true
            | _ => false
            end) l.

(** A computation that queries no wallet for coins to offer. *)
Definition queries_no_coin {A} (m : M W A) : Prop :=
  forall w, coin_queries (calls (final m w)) = coin_queries (calls w).

(** An entry of an offer dictionary that asks for an asset. *)
Definition is_request (entry : AssetKey * SolverOrInt Solver) : Prop :=
  exists z, snd entry = IntVal z /\ 0 < z.

(** A trade the manager still watches: it waits to be accepted, confirmed
    or cancelled. *)
Definition is_pending (t : TradeRecord) : bool :=
  match status t with
  | PENDING_ACCEPT | PENDING_CONFIRM | PENDING_CANCEL => true
  | _ => false
  end.

(** A property of the trade store that a status update and the storing of a
    record both keep. *)
Definition store_stable (Q : list TradeRecord -> Prop) : Prop :=
  (forall id s index l, Q l -> Q (trades_with_status env id s index l)) /\
  (forall t l, Q l -> Q (put_trade env t l)).

(** A computation that keeps the property [Q] of the trade store. *)
Definition keeps_invariant (Q : list TradeRecord -> Prop) {A} (m : M W A)
  : Prop :=
  forall w, Q (trades w) -> Q (trades (final m w)).

(** The ids of the settlement payments of an offer, as
    [calculate_tx_records_for_offer] computes them. *)
Definition settlement_coin_ids
  (o : Offer SpendBundle PuzzleInfo NotarizedPayment) : list bytes32 :=
  map (coin_name env) (List.concat (dict_values (get_offered_coins env o))).

(** What every record built for the offer [o] carries. *)
Definition trade_record_of
  (o : Offer SpendBundle PuzzleInfo NotarizedPayment)
  (tx : TransactionRecord SpendBundle) : Prop :=
  tx_trade_id tx = Some (Offer_name env o) /\
  tx_confirmed tx = false /\
  tx_confirmed_at_height tx = Some 0 /\
  tx_sent tx = 10 /\
  tx_spend_bundle tx = None.

(** A record of a payment received: one addition of the spend bundle [sb]
    that a wallet holds and that is paid out of a settlement payment. *)
Definition incoming_trade_record
  (o : Offer SpendBundle PuzzleInfo NotarizedPayment) (sb : SpendBundle)
  (tx : TransactionRecord SpendBundle) : Prop :=
  tx_type tx = INCOMING_TRADE /\
  tx_fee_amount tx = 0 /\
  tx_removals tx = [] /\
  exists addition kind,
    In addition (not_ephemeral_additions env sb) /\
    get_wallet_id_for_puzzle_hash env (puzzle_hash addition)
      = Some (tx_wallet_id tx, kind) /\
    In (parent_coin_info addition) (settlement_coin_ids o) /\
    tx_additions tx = [addition] /\
    tx_amount tx = amount addition.

(** A record of what one wallet spends: removals of the spend bundle [sb]
    that the wallet [wid] holds, with the change that comes back to it. *)
Definition outgoing_trade_record
  (o : Offer SpendBundle PuzzleInfo NotarizedPayment) (sb : SpendBundle)
  (tx : TransactionRecord SpendBundle) : Prop :=
  tx_type tx = OUTGOING_TRADE /\
  tx_to_puzzle_hash tx = bytes32_ones /\
  tx_fee_amount tx = fees env sb /\
  tx_removals tx <> [] /\
  tx_amount tx = sum_amounts (tx_removals tx) - sum_amounts (tx_additions tx) /\
  0 <= tx_amount tx /\
  exists wid,
    (forall r, In r (tx_removals tx) ->
       In r (removals env sb) /\
       exists kind,
         get_wallet_id_for_puzzle_hash env (puzzle_hash r) = Some (wid, kind)) /\
    (forall c, In c (tx_additions tx) ->
       In c (not_ephemeral_additions env sb) /\
       ~ In (parent_coin_info c) (settlement_coin_ids o) /\
       exists kind,
         get_wallet_id_for_puzzle_hash env (puzzle_hash c) = Some (wid, kind)).

(** The wallet id that holds a coin, by its puzzle hash. *)
Definition owner_of (c : Coin) : option Z :=
  option_map fst (get_wallet_id_for_puzzle_hash env (puzzle_hash c)).

Definition is_outgoing (tx : TransactionRecord SpendBundle) : bool :=
  match tx_type tx with OUTGOING_TRADE => true | _ => false end.

(** The fees passed to [get_coins_to_offer] and to
    [create_offer_transactions] in a log, in the order of the calls. *)
Definition query_fees (l : list (Call PuzzleInfo Solver Announcement))
  : list Z :=
  flat_map (fun c =>
    match c with
    | GetCoinsToOffer _ _ _ fee => [fee]
    | _ => []
    end) l.

Definition offer_fees (l : list (Call PuzzleInfo Solver Announcement))
  : list Z :=
  flat_map (fun c =>
    match c with
    | CreateOfferTransactions _ _ _ _ fee => [fee]
    | _ => []
    end) l.

(** The test [isinstance(solver, int) & (solver > 0)] on an entry. *)
Definition asks (entry : AssetKey * SolverOrInt Solver) : bool :=
  match snd entry with
  | IntVal z => 0 <? z
  | SolverVal _ => false
  end.

(** The fees of [n] calls of which the first, or the last, carries [fee]
    and the others none. *)
Definition fee_first (fee : Z) (n : nat) : list Z :=
  match n with
  | O => []
  | S k => fee :: repeat 0 k
  end.

Definition fee_last (fee : Z) (n : nat) : list Z :=
  match n with
  | O => []
  | S k => repeat 0 k ++ [fee]
  end.

End Vocabulary.

(** ** A small concrete instance

    Two wallets (a standard one and a token wallet), one offer and a node
    whose coin table is a parameter.  The statements below are run on it. *)

Module Demo.

Record Bundle := {
  b_name : bytes32;
  b_removals : list Coin;
  b_additions : list Coin;
  b_fees : Z
}.

Definition DOffer := Offer Bundle N Payment.
Definition DWallet := Wallet Bundle N unit N.
Definition DRecord := TransactionRecord Bundle.
Definition DWorld := World Bundle N unit N.
Definition DEnv := Env Bundle N unit Payment N.

Definition name_of (c : Coin) : bytes32 :=
  (parent_coin_info c * 1000000 + puzzle_hash c * 1000
   + Z.to_N (amount c))%N.

(** The puzzle hash of the settlement payments. *)
Definition OFFER_PH : bytes32 := 77%N.

Definition coin (parent ph : N) (amt : Z) : Coin :=
  {| parent_coin_info := parent; puzzle_hash := ph; amount := amt |}.

(** Coins of the standard wallet, of the token wallet and of the other
    side. *)
Definition c1 := coin 1 11 100.
Definition c2 := coin 2 12 50.
Definition c3 := coin 4 13 60.
Definition k1 := coin 3 21 10.
Definition m1 := coin 9 31 40.

(** Settlement payments: ours descends from [c1], theirs from [m1]; [r1] is
    what we receive from theirs. *)
Definition s1 := coin (name_of c1) OFFER_PH 100.
Definition sm := coin (name_of m1) OFFER_PH 40.
Definition r1 := coin (name_of sm) 41 40.

Definition record (wid : Z) (amt fee : Z) (coins : list Coin)
  (sb : option Bundle) : DRecord :=
  {| tx_confirmed_at_height := Some 0;
     tx_created_at_time := 0;
     tx_to_puzzle_hash := OFFER_PH;
     tx_amount := amt;
     tx_fee_amount := fee;
     tx_confirmed := false;
     tx_sent := 0;
     tx_spend_bundle := sb;
     tx_additions := [];
     tx_removals := coins;
     tx_wallet_id := wid;
     tx_sent_to := [];
     tx_trade_id := None;
     tx_type := OUTGOING_TX;
     tx_name := Z.to_N wid;
     tx_memos := [] |}.

Definition amount_of (a : SolverOrInt unit) : Z :=
  match a with IntVal z => z | SolverVal _ => 0 end.

Definition xch : DWallet :=
  {| wallet_id := 1;
     wallet_type := STANDARD_WALLET;
     new_puzzlehash := fun n => Ret (1000 + N.of_nat n)%N;
     get_asset_id := None;
     get_puzzle_info := None;
     get_coins_to_offer := Some (fun _ _ _ => Ret [c1]);
     create_offer_transactions := fun a coins _ fee =>
       Ret [record 1 (amount_of a) fee coins
              (Some {| b_name := 1; b_removals := coins;
                       b_additions := []; b_fees := fee |})];
     select_coins := fun _ _ => Ret [c3];
     generate_signed_transaction_standard := fun amt _ fee coins =>
       Ret (record 1 amt fee coins None);
     generate_signed_transaction := fun _ _ _ _ => Ret [];
     convert_puzzle_hash := fun ph => Ret ph |}.

Definition cat : DWallet :=
  {| wallet_id := 2;
     wallet_type := OTHER_WALLET 6;
     new_puzzlehash := fun n => Ret (2000 + N.of_nat n)%N;
     get_asset_id := Some 500%N;
     get_puzzle_info := Some (fun a => a);
     get_coins_to_offer := Some (fun _ _ _ => Ret [k1]);
     create_offer_transactions := fun a coins _ fee =>
       Ret [record 2 (amount_of a) fee coins
              (Some {| b_name := 2; b_removals := coins;
                       b_additions := []; b_fees := fee |})];
     select_coins := fun _ _ => Raise (External 1);
     generate_signed_transaction_standard := fun _ _ _ _ =>
       Raise (External 2);
     generate_signed_transaction := fun amounts _ fee coins =>
       Ret [record 2 (fold_left Z.add amounts 0) fee coins None];
     convert_puzzle_hash := fun ph => Ret ph |}.

(** An offer of [c1] against a payment of 40 from [m1], already completed
    by the other side. *)
Definition offer1 : DOffer :=
  {| requested_payments :=
       [(None, [{| pay_puzzle_hash := 41; pay_amount := 40;
                   pay_memos := [] |}])];
     bundle := {| b_name := 5; b_removals := [c1; m1];
                  b_additions := [s1; sm; r1]; b_fees := 0 |};
     driver_dict := [] |}.

(** An offer whose primary coins are the token coin [k1] and then [c1]. *)
Definition offer2 : DOffer :=
  {| requested_payments := [];
     bundle := {| b_name := 6; b_removals := [k1; c1];
                  b_additions := []; b_fees := 0 |};
     driver_dict := [] |}.

(** The offer of the specification's example: primary coins [c1] of 100
    and [c2] of 50, both of the standard wallet. *)
Definition offer3 : DOffer :=
  {| requested_payments := [];
     bundle := {| b_name := 7; b_removals := [c1; c2];
                  b_additions := []; b_fees := 0 |};
     driver_dict := [] |}.

Definition empty_offer : DOffer :=
  {| requested_payments := [];
     bundle := {| b_name := 0; b_removals := []; b_additions := [];
                  b_fees := 0 |};
     driver_dict := [] |}.

Definition bytes1 : bytes := [Byte.x01].
Definition bytes2 : bytes := [Byte.x02].
Definition bytes3 : bytes := [Byte.x03].

Definition from_bytes (b : bytes) : DOffer :=
  match b with
  | [Byte.x01] => offer1
  | [Byte.x02] => offer2
  | [Byte.x03] => offer3
  | _ => empty_offer
  end.

Definition to_bytes (o : DOffer) : bytes :=
  match b_name (bundle o) with
  | 5%N => bytes1
  | 6%N => bytes2
  | 7%N => bytes3
  | _ => []
  end.

Definition non_ephemeral (b : Bundle) : list Coin :=
  filter (fun c =>
            negb (inb N.eqb (parent_coin_info c)
                    (map name_of (b_removals b))))
    (b_removals b).

Definition root_removal (o : DOffer) (c : Coin) : Coin :=
  match find (fun r => N.eqb (name_of r) (parent_coin_info c))
          (b_removals (bundle o)) with
  | Some r => r
  | None => c
  end.

Definition owner_of_puzzle_hash (ph : bytes32) : option (Z * WalletType) :=
  if inb N.eqb ph [11; 12; 13; 41]%N then Some (1, STANDARD_WALLET)
  else if N.eqb ph 21 then Some (2, OTHER_WALLET 6)
  else None.

Definition env (table : list CoinState) : DEnv :=
  {| coin_name := name_of;
     std_hash := fun n => (n mod 1000003)%N;
     removal_tree_hash := fun l => fold_left N.add (map name_of l) 0%N;
     Offer_from_bytes := from_bytes;
     Offer_to_bytes := to_bytes;
     Offer_name := fun o => b_name (bundle o);
     get_primary_coins := fun o => non_ephemeral (bundle o);
     get_offered_coins := fun o =>
       [(None, filter (fun c => N.eqb (puzzle_hash c) OFFER_PH)
                 (b_additions (bundle o)))];
     get_root_removal := root_removal;
     get_involved_coins := fun o => b_removals (bundle o);
     arbitrage := fun o =>
       map (fun p => (fst p, - fold_left Z.add (map pay_amount (snd p)) 0))
         (requested_payments o);
     to_valid_spend := fun o => Ret (bundle o);
     is_valid := fun _ => true;
     Offer_aggregate := fun l =>
       match l with o :: _ => Ret o | [] => Raise (External 3) end;
     notarize_payments := fun payments _ => Ret payments;
     calculate_announcements := fun _ _ => Ret [];
     removals := b_removals;
     not_ephemeral_additions := fun b =>
       filter (fun c => negb (inb Coin_eqb c (b_removals b)))
         (b_additions b);
     fees := b_fees;
     SpendBundle_name := b_name;
     SpendBundle_aggregate := fun l =>
       {| b_name := fold_left N.add (map b_name l) 0%N;
          b_removals := flat_map b_removals l;
          b_additions := flat_map b_additions l;
          b_fees := fold_left Z.add (map b_fees l) 0 |};
     PuzzleInfo_eqb := N.eqb;
     solver_gt_zero := fun _ => Raise TypeError;
     wallets := fun id =>
       if id =? 1 then Some xch else if id =? 2 then Some cat else None;
     main_wallet := xch;
     get_wallet_for_asset_id := fun a =>
       if N.eqb a 500 then Some cat else None;
     get_wallet_for_coin := fun n =>
       if inb N.eqb n [name_of c1; name_of c2; name_of c3] then Some xch
       else if N.eqb n (name_of k1) then Some cat
       else None;
     get_wallet_id_for_puzzle_hash := owner_of_puzzle_hash;
     get_wallet_for_puzzle_info := fun _ => None;
     coin_records :=
       [{| wcr_coin := c1; wcr_wallet_id := 1 |};
        {| wcr_coin := c2; wcr_wallet_id := 1 |};
        {| wcr_coin := k1; wcr_wallet_id := 2 |}];
     coin_table := fun _ => table;
     (* a record that is written is listed last *)
     store_position := fun _ held => List.length held |}.

Definition state (c : Coin) (spent created : option Z) : CoinState :=
  {| cs_coin := c; spent_height := spent; created_height := created |}.

(** Both sides settled at height 7. *)
Definition table_settled : list CoinState :=
  [state s1 (Some 7) (Some 7); state m1 (Some 7) (Some 3);
   state c1 (Some 7) (Some 2)].

(** The other side spent its coin elsewhere; our settlement payment never
    came to exist. *)
Definition table_their_spend : list CoinState :=
  [state m1 (Some 7) (Some 3); state c1 None (Some 2)].

(** Our settlement payment exists on chain and nobody has spent it. *)
Definition table_unspent_settlement : list CoinState :=
  [state s1 None (Some 7); state m1 (Some 7) (Some 3);
   state c1 (Some 7) (Some 2)].

(** Nothing of the offer has been spent. *)
Definition table_fresh : list CoinState :=
  [state c1 None (Some 2); state m1 None (Some 3)].

(** The coin event: the other side's coin was spent at height 7. *)
Definition event : CoinState := state m1 (Some 7) (Some 3).

Definition trade (o : bytes) (id : bytes32) (s : TradeStatus) : TradeRecord :=
  {| confirmed_at_index := 0;
     accepted_at_time := None;
     created_at_time := 1700000000;
     is_my_offer := true;
     sent := 0;
     offer := o;
     taken_offer := None;
     coins_of_interest := [c1; m1];
     trade_id := id;
     status := s;
     sent_to := [] |}.

Definition world (ts : list TradeRecord) (txs : list DRecord) : DWorld :=
  {| trades := ts; transactions := txs; calls := []; derived := 0;
     now := 1700000100 |}.

(** The record a taker stored for the trade when it accepted the offer. *)
Definition pending_record : DRecord :=
  {| tx_confirmed_at_height := Some 0;
     tx_created_at_time := 1700000000;
     tx_to_puzzle_hash := 41;
     tx_amount := 40;
     tx_fee_amount := 0;
     tx_confirmed := false;
     tx_sent := 10;
     tx_spend_bundle := None;
     tx_additions := [r1];
     tx_removals := [];
     tx_wallet_id := 1;
     tx_sent_to := [];
     tx_trade_id := Some 5%N;
     tx_type := INCOMING_TRADE;
     tx_name := 99;
     tx_memos := [] |}.

End Demo.

(** * Properties *)

Section Properties.
Context {SpendBundle PuzzleInfo Solver NotarizedPayment Announcement : Type}.
Variable env : Env SpendBundle PuzzleInfo Solver NotarizedPayment Announcement.
Abbreviation Wd := (World SpendBundle PuzzleInfo Solver Announcement).
Abbreviation Tm := (M Wd).

(** ** Equality tests *)

Lemma Coin_eqb_eq (a b : Coin) : Coin_eqb a b = true <-> a = b.
Proof.
  unfold Coin_eqb. destruct a as [p1 h1 a1], b as [p2 h2 a2]; simpl.
  rewrite !andb_true_iff, !N.eqb_eq, Z.eqb_eq.
  split.
  - intros [[-> ->] ->]. reflexivity.
  - intros H. injection H as -> -> ->. auto.
Qed.

Lemma inb_In {A} (eqb : A -> A -> bool)
  (Heqb : forall x y, eqb x y = true <-> x = y) (x : A) (l : list A) :
  inb eqb x l = true <-> In x l.
Proof.
  unfold inb. rewrite existsb_exists. split.
  - intros [y [Hy E]]. apply Heqb in E. subst. exact Hy.
  - intros H. exists x. split; [exact H | apply Heqb; reflexivity].
Qed.

Lemma inb_coin_In (c : Coin) (l : list Coin) :
  inb Coin_eqb c l = true <-> In c l.
Proof. apply inb_In, Coin_eqb_eq. Qed.

Lemma inb_N_In (x : N) (l : list N) : inb N.eqb x l = true <-> In x l.
Proof. apply inb_In, N.eqb_eq. Qed.

Lemma TradeStatus_eqb_eq (a b : TradeStatus) :
  TradeStatus_eqb a b = true <-> a = b.
Proof. destruct a, b; simpl; split; intros H; congruence. Qed.

Lemma TradeStatus_eqb_neq (a b : TradeStatus) :
  TradeStatus_eqb a b = false <-> a <> b.
Proof. destruct a, b; simpl; split; intros H; congruence. Qed.

Lemma intersects_spec (a b : list bytes32) :
  intersects a b = true <-> exists x, In x a /\ In x b.
Proof.
  unfold intersects. rewrite existsb_exists.
  split; intros [x [Ha Hb]]; exists x; split; auto; apply inb_N_In; auto.
Qed.

(** ** The monad *)

Lemma bind_ret_run {A B} (m : Tm A) (k : A -> Tm B) w a w' :
  m w = (Ret a, w') -> bind m k w = k a w'.
Proof. intros H. unfold bind. rewrite H. reflexivity. Qed.

Lemma bind_raise_run {A B} (m : Tm A) (k : A -> Tm B) w e w' :
  m w = (Raise e, w') -> bind m k w = (Raise e, w').
Proof. intros H. unfold bind. rewrite H. reflexivity. Qed.

Lemma try_except_returns {A} (m : Tm A) (h : error -> Tm A) w :
  (forall e w0, exists a, result (h e) w0 = Ret a) ->
  exists a, result (try_except m h) w = Ret a.
Proof.
  intros Hh. unfold result, try_except.
  destruct (m w) as [[a | e] w'] eqn:E; simpl.
  - exists a. reflexivity.
  - apply Hh.
Qed.

(** ** Computations that only read the clock *)

Lemma rco_ret {A} (a : A) : reads_clock_only (ret a : Tm A).
Proof. intros w. split; [reflexivity | intros; reflexivity]. Qed.

Lemma rco_raise {A} (e : error) : reads_clock_only (raise e : Tm A).
Proof. intros w. split; [reflexivity | intros; reflexivity]. Qed.

Lemma rco_lift {A} (o : Outcome A) : reads_clock_only (lift o : Tm A).
Proof. intros w. split; [reflexivity | intros; reflexivity]. Qed.

Lemma rco_time_time : reads_clock_only (time_time : Tm Z).
Proof.
  intros w. split; [reflexivity |].
  intros w2 H. unfold result, time_time, gets. simpl. rewrite H. reflexivity.
Qed.

Lemma rco_bind {A B} (m : Tm A) (k : A -> Tm B) :
  reads_clock_only m -> (forall a, reads_clock_only (k a)) ->
  reads_clock_only (bind m k).
Proof.
  intros Hm Hk w. destruct (Hm w) as [Hf Hr].
  unfold final, result in *.
  assert (Hw : forall w2, now w2 = now w ->
            bind m k w2 = (fst (bind m k w), w2)).
  { intros w2 E. unfold bind.
    destruct (Hm w2) as [Hf2 _]. unfold final in Hf2.
    specialize (Hr w2 E).
    destruct (m w2) as [r2 w2'] eqn:E2. destruct (m w) as [r1 w1'] eqn:E1.
    simpl in *. subst w2' w1' r2.
    destruct r1 as [a | e]; [| reflexivity].
    destruct (Hk a w) as [Hkf Hkr]. destruct (Hk a w2) as [Hkf2 _].
    unfold final, result in *. specialize (Hkr w2 E).
    destruct (k a w2) as [x y]. simpl in *. subst. reflexivity. }
  split.
  - rewrite (Hw w eq_refl). reflexivity.
  - intros w2 E. rewrite (Hw w2 E). reflexivity.
Qed.

Lemma rco_for_fold {A S} (l : list A) (body : S -> A -> Tm S) :
  (forall s x, reads_clock_only (body s x)) ->
  forall s, reads_clock_only (for_fold l body s).
Proof.
  intros Hb. induction l as [| x l IH]; intros s; simpl.
  - apply rco_ret.
  - apply rco_bind; [apply Hb | exact IH].
Qed.

Lemma rco_wallets_lookup (id : Z) : reads_clock_only (wallets_lookup env id).
Proof.
  unfold wallets_lookup. destruct (wallets env id);
    [apply rco_ret | apply rco_raise].
Qed.

Lemma calculate_tx_records_reads_clock_only o validate :
  reads_clock_only (calculate_tx_records_for_offer env o validate).
Proof.
  unfold calculate_tx_records_for_offer.
  apply rco_bind.
  { destruct validate; [apply rco_lift | apply rco_ret]. }
  intros fsb. apply rco_bind; [apply rco_lift |].
  intros all_fees. apply rco_bind.
  - apply rco_for_fold. intros [txs d] addition.
    destruct (get_wallet_id_for_puzzle_hash env (puzzle_hash addition))
      as [[wid ty] |]; [| apply rco_ret].
    destruct (inb N.eqb (parent_coin_info addition) _); [| apply rco_ret].
    apply rco_bind; [apply rco_wallets_lookup |].
    intros wl. apply rco_bind; [apply rco_lift |].
    intros to_ph. apply rco_bind; [apply rco_time_time |].
    intros created. apply rco_ret.
  - intros [txs d]. apply rco_for_fold. intros txs' [wid grouped].
    apply rco_bind; [apply rco_wallets_lookup |].
    intros wl. apply rco_bind; [apply rco_time_time |].
    intros created. apply rco_bind; [apply rco_lift |].
    intros amt. apply rco_ret.
Qed.

(** ** [get_trade_by_coin] *)

Lemma get_trade_by_coin_run (coin : Coin) (w : Wd) :
  get_trade_by_coin coin w = (Ret (get_trade_by_coin_loop (trades w) coin), w).
Proof. reflexivity. Qed.

Lemma get_trade_by_coin_loop_sound (l : list TradeRecord) coin t :
  get_trade_by_coin_loop l coin = Some t ->
  In t l /\ In coin (coins_of_interest t) /\ status t <> CANCELLED.
Proof.
  induction l as [| t' l IH]; simpl; [discriminate |].
  destruct (TradeStatus_eqb (status t') CANCELLED) eqn:Ec.
  - intros H. destruct (IH H) as (? & ? & ?). auto.
  - destruct (inb Coin_eqb coin (coins_of_interest t')) eqn:Ei.
    + intros H. injection H as <-.
      split; [auto |]. split.
      * apply inb_coin_In. exact Ei.
      * apply TradeStatus_eqb_neq. exact Ec.
    + intros H. destruct (IH H) as (? & ? & ?). auto.
Qed.

Lemma get_trade_by_coin_loop_none (l : list TradeRecord) coin :
  get_trade_by_coin_loop l coin = None <->
  forall t, In t l -> status t <> CANCELLED ->
            ~ In coin (coins_of_interest t).
Proof.
  induction l as [| t' l IH]; simpl.
  - split; [intros _ t [] | reflexivity].
  - destruct (TradeStatus_eqb (status t') CANCELLED) eqn:Ec.
    + rewrite IH. apply TradeStatus_eqb_eq in Ec. split.
      * intros H t [<- | Ht]; [congruence | auto].
      * intros H t Ht. apply H. auto.
    + destruct (inb Coin_eqb coin (coins_of_interest t')) eqn:Ei.
      * split; [discriminate |].
        intros H. exfalso. apply (H t'); [auto | |].
        -- apply TradeStatus_eqb_neq. exact Ec.
        -- apply inb_coin_In. exact Ei.
      * rewrite IH. split.
        -- intros H t [<- | Ht]; [| auto].
           intros _ Hin. apply inb_coin_In in Hin. congruence.
        -- intros H t Ht. apply H. auto.
Qed.

Lemma get_trade_by_coin_loop_first (pre post : list TradeRecord) coin t :
  (forall p, In p pre ->
     status p = CANCELLED \/ ~ In coin (coins_of_interest p)) ->
  status t <> CANCELLED ->
  In coin (coins_of_interest t) ->
  get_trade_by_coin_loop (pre ++ t :: post) coin = Some t.
Proof.
  intros Hpre Hs Hc. induction pre as [| p pre IH]; simpl.
  - apply TradeStatus_eqb_neq in Hs. rewrite Hs.
    apply inb_coin_In in Hc. rewrite Hc. reflexivity.
  - destruct (TradeStatus_eqb (status p) CANCELLED) eqn:Ec.
    + apply IH. intros q Hq. apply Hpre. right. exact Hq.
    + destruct (inb Coin_eqb coin (coins_of_interest p)) eqn:Ei.
      * exfalso. destruct (Hpre p (or_introl eq_refl)) as [H | H].
        -- apply TradeStatus_eqb_neq in Ec. congruence.
        -- apply H. apply inb_coin_In. exact Ei.
      * apply IH. intros q Hq. apply Hpre. right. exact Hq.
Qed.

Lemma rco_run {A} (m : Tm A) (w w2 : Wd) :
  reads_clock_only m -> now w2 = now w -> m w2 = (result m w, w2).
Proof.
  intros H E. destruct (H w2) as [Hf _]. destruct (H w) as [_ Hr].
  specialize (Hr w2 E). unfold final, result in *.
  destruct (m w2) as [r x]. simpl in *. subst. reflexivity.
Qed.

(** ** [coins_of_interest_farmed] *)

Lemma intersects_settlement_known fork_height o :
  intersects (our_settlement_ids env o)
    (map (fun cs => coin_name env (cs_coin cs))
       (get_coin_state env (our_settlement_ids env o) fork_height)) = true
  <-> settlement_known env fork_height o.
Proof.
  rewrite intersects_spec. unfold settlement_known, get_coin_state.
  split.
  - intros [x [Hx Hin]]. apply in_map_iff in Hin.
    destruct Hin as [cs [<- Hcs]]. apply filter_In in Hcs.
    destruct Hcs as [Ht _]. exists cs. auto.
  - intros [cs [Ht Hid]]. exists (coin_name env (cs_coin cs)).
    split; [exact Hid |]. apply in_map_iff. exists cs.
    split; [reflexivity |]. apply filter_In. split; [exact Ht |].
    apply inb_N_In. exact Hid.
Qed.

Lemma settlement_spent_known fork_height o :
  settlement_spent env fork_height o -> settlement_known env fork_height o.
Proof. intros [cs (H1 & H2 & _)]. exists cs. auto. Qed.

Lemma settlement_known_first fork_height o :
  settlement_known env fork_height o ->
  exists first rest,
    get_coin_state env (our_settlement_ids env o) fork_height = first :: rest.
Proof.
  intros [cs [Ht Hid]].
  destruct (get_coin_state env (our_settlement_ids env o) fork_height)
    as [| first rest] eqn:E.
  - exfalso. assert (Hin : In cs []).
    { rewrite <- E. unfold get_coin_state. apply filter_In.
      split; [exact Ht | apply inb_N_In; exact Hid]. }
    destruct Hin.
  - eauto.
Qed.

Lemma add_confirmed_run (b : bool) (height : option Z)
  (txs : list (TransactionRecord SpendBundle)) (w : Wd) :
  for_each txs (fun tx =>
    if b then add_transaction (replace_confirmed tx height) true
    else ret tt) w
  = (Ret tt,
     {| trades := trades w;
        transactions :=
          transactions w ++
          (if b then map (fun tx => replace_confirmed tx height) txs
           else []);
        calls := calls w; derived := derived w; now := now w |}).
Proof.
  revert w. induction txs as [| tx txs IH]; intros [tr ts cl dv nw]; simpl.
  - unfold ret. destruct b; rewrite app_nil_r; reflexivity.
  - unfold bind at 1. destruct b; simpl.
    + rewrite IH. simpl. rewrite <- app_assoc. reflexivity.
    + rewrite IH. simpl. reflexivity.
Qed.

Lemma farmed_not_in_trade coin_state fork_height (w : Wd) :
  get_trade_by_coin_loop (trades w) (cs_coin coin_state) = None ->
  coins_of_interest_farmed env coin_state fork_height w = (Ret tt, w).
Proof.
  intros H. unfold coins_of_interest_farmed.
  rewrite (bind_ret_run _ _ _ _ _ (get_trade_by_coin_run _ _)).
  rewrite H. reflexivity.
Qed.

Lemma farmed_confirm_run coin_state fork_height (w : Wd) trade first rest :
  get_trade_by_coin_loop (trades w) (cs_coin coin_state) = Some trade ->
  let o := Offer_from_bytes env (offer trade) in
  get_coin_state env (our_settlement_ids env o) fork_height = first :: rest ->
  settlement_known env fork_height o ->
  coins_of_interest_farmed env coin_state fork_height w
  = match result (calculate_tx_records_for_offer env o false) w with
    | Ret txs =>
        (Ret tt,
         {| trades :=
              trades_with_status env (trade_id trade) CONFIRMED
                (spent_height first) (trades w);
            transactions :=
              transactions w ++
              (if TradeStatus_eqb (status trade) PENDING_ACCEPT
               then map (fun tx => replace_confirmed tx (spent_height first))
                      txs
               else []);
            calls := calls w; derived := derived w; now := now w |})
    | Raise e =>
        (Raise e,
         {| trades :=
              trades_with_status env (trade_id trade) CONFIRMED
                (spent_height first) (trades w);
            transactions := transactions w;
            calls := calls w; derived := derived w; now := now w |})
    end.
Proof.
  intros Hloop o Hcs Hknown. unfold coins_of_interest_farmed.
  rewrite (bind_ret_run _ _ _ _ _ (get_trade_by_coin_run _ _)).
  rewrite Hloop. fold o.
  apply intersects_settlement_known in Hknown. rewrite Hknown.
  rewrite Hcs.
  unfold bind at 1. unfold lift.
  unfold bind at 1. unfold TradeStore_set_status, modify.
  unfold bind at 1.
  rewrite (rco_run _ w (set_trades _ w)
             (calculate_tx_records_reads_clock_only o false) eq_refl).
  destruct (result (calculate_tx_records_for_offer env o false) w)
    as [txs | e].
  - rewrite add_confirmed_run. reflexivity.
  - reflexivity.
Qed.

Lemma farmed_fail_run coin_state fork_height (w : Wd) trade :
  get_trade_by_coin_loop (trades w) (cs_coin coin_state) = Some trade ->
  let o := Offer_from_bytes env (offer trade) in
  ~ settlement_known env fork_height o ->
  coins_of_interest_farmed env coin_state fork_height w
  = (Ret tt,
     {| trades :=
          match status trade with
          | PENDING_CANCEL =>
              trades_with_status env (trade_id trade) CANCELLED None (trades w)
          | PENDING_CONFIRM =>
              trades_with_status env (trade_id trade) FAILED None (trades w)
          | _ => trades w
          end;
        transactions :=
          filter (fun tx =>
                    negb (option_eqb N.eqb (tx_trade_id tx)
                            (Some (trade_id trade))))
            (transactions w);
        calls := calls w; derived := derived w; now := now w |}).
Proof.
  intros Hloop o Hunknown. unfold coins_of_interest_farmed.
  rewrite (bind_ret_run _ _ _ _ _ (get_trade_by_coin_run _ _)).
  rewrite Hloop. fold o.
  destruct (intersects _ _) eqn:Ei.
  - exfalso. apply Hunknown. apply intersects_settlement_known. exact Ei.
  - unfold bind, delete_trade_transactions, modify. simpl.
    destruct (status trade); reflexivity.
Qed.

(** ** The status a store holds after an update *)


Lemma find_app_first (f : TradeRecord -> bool) l1 l2 :
  find f (l1 ++ l2)
  = match find f l1 with Some x => Some x | None => find f l2 end.
Proof.
  induction l1 as [| x l1 IH]; simpl; [reflexivity |].
  destruct (f x); [reflexivity | exact IH].
Qed.

Lemma find_others id id' (l : list TradeRecord) :
  id' <> id ->
  find (fun x => N.eqb (trade_id x) id')
    (filter (fun x => negb (N.eqb (trade_id x) id)) l)
  = find (fun x => N.eqb (trade_id x) id') l.
Proof.
  intros Hne. induction l as [| x l IH]; simpl; [reflexivity |].
  destruct (N.eqb (trade_id x) id) eqn:E; simpl.
  - apply N.eqb_eq in E.
    destruct (N.eqb_spec (trade_id x) id'); [congruence | exact IH].
  - destruct (N.eqb (trade_id x) id'); [reflexivity | exact IH].
Qed.

Lemma find_others_same id (l : list TradeRecord) :
  find (fun x => N.eqb (trade_id x) id)
    (filter (fun x => negb (N.eqb (trade_id x) id)) l) = None.
Proof.
  induction l as [| x l IH]; simpl; [reflexivity |].
  destruct (N.eqb (trade_id x) id) eqn:E; simpl; [exact IH |].
  rewrite E. exact IH.
Qed.

(** Whatever position the store chooses, the written record stands among
    the records that were held under another id, which keep their order. *)
Lemma put_trade_shape t l :
  exists pre post,
    put_trade env t l = pre ++ t :: post /\
    pre ++ post
    = filter (fun t' => negb (N.eqb (trade_id t') (trade_id t))) l.
Proof.
  unfold put_trade. eexists _, _. split; [reflexivity |].
  apply firstn_skipn.
Qed.

Lemma in_put_trade t l t' :
  In t' (put_trade env t l) <->
  t' = t \/ (In t' l /\ trade_id t' <> trade_id t).
Proof.
  destruct (put_trade_shape t l) as (pre & post & -> & E).
  assert (Hothers : In t' (pre ++ post) <->
                    In t' l /\ trade_id t' <> trade_id t).
  { rewrite E, filter_In. rewrite Bool.negb_true_iff, N.eqb_neq. tauto. }
  rewrite in_app_iff in Hothers. rewrite in_app_iff. simpl.
  intuition congruence.
Qed.

Lemma find_put_trade t l :
  find (fun x => N.eqb (trade_id x) (trade_id t)) (put_trade env t l) = Some t.
Proof.
  destruct (put_trade_shape t l) as (pre & post & -> & E).
  pose proof (find_others_same (trade_id t) l) as H.
  rewrite <- E, find_app_first in H. rewrite find_app_first.
  destruct (find _ pre); [discriminate |].
  simpl. rewrite N.eqb_refl. reflexivity.
Qed.

Lemma find_put_other t l id :
  id <> trade_id t ->
  find (fun x => N.eqb (trade_id x) id) (put_trade env t l)
  = find (fun x => N.eqb (trade_id x) id) l.
Proof.
  intros Hne.
  destruct (put_trade_shape t l) as (pre & post & -> & E).
  rewrite <- (find_others (trade_id t) id l Hne), <- E.
  rewrite !find_app_first. simpl.
  destruct (N.eqb_spec (trade_id t) id); [congruence | reflexivity].
Qed.

Lemma find_unique (l : list TradeRecord) t :
  NoDup (map trade_id l) -> In t l ->
  find (fun x => N.eqb (trade_id x) (trade_id t)) l = Some t.
Proof.
  induction l as [| x l IH]; simpl; intros Hnd Hin; [destruct Hin |].
  inversion Hnd as [| ? ? Hnotin Hnd']; subst.
  destruct Hin as [-> | Hin]; [rewrite N.eqb_refl; reflexivity |].
  destruct (N.eqb_spec (trade_id x) (trade_id t)) as [E | _]; [| auto].
  exfalso. apply Hnotin. rewrite E. apply in_map. exact Hin.
Qed.

(** The store after a status update: the updated record among the records
    held under another id. *)
Lemma trades_with_status_shape id s index l current :
  find (fun t => N.eqb (trade_id t) id) l = Some current ->
  exists pre post,
    trades_with_status env id s index l
    = pre ++ with_status current s index :: post /\
    pre ++ post = filter (fun t' => negb (N.eqb (trade_id t') id)) l.
Proof.
  intros E. unfold trades_with_status. rewrite E.
  apply find_some in E. destruct E as [_ E]. apply N.eqb_eq in E.
  destruct (put_trade_shape (with_status current s index) l)
    as (pre & post & H1 & H2).
  simpl in H2. rewrite E in H2. eauto.
Qed.

Lemma find_trades_with_status id s index l :
  find (fun t => N.eqb (trade_id t) id) (trades_with_status env id s index l)
  = option_map (fun t => with_status t s index)
      (find (fun t => N.eqb (trade_id t) id) l).
Proof.
  unfold trades_with_status.
  destruct (find (fun t => N.eqb (trade_id t) id) l) as [current |] eqn:E;
    [| rewrite E; reflexivity].
  pose proof (find_some _ _ E) as [_ Eid]. apply N.eqb_eq in Eid.
  pose proof (find_put_trade (with_status current s index) l) as H.
  simpl in H. rewrite Eid in H. exact H.
Qed.

Lemma find_by_id_of_member (t : TradeRecord) l :
  In t l -> exists t', find (fun x => N.eqb (trade_id x) (trade_id t)) l = Some t'.
Proof.
  intros H. destruct (find _ l) as [t' |] eqn:E; [eauto |].
  exfalso. pose proof (find_none _ _ E t H) as Hn. simpl in Hn.
  rewrite N.eqb_refl in Hn. discriminate.
Qed.

Lemma status_of_updated (w w' : Wd) (t : TradeRecord) s index :
  In t (trades w) ->
  trades w' = trades_with_status env (trade_id t) s index (trades w) ->
  status_of w' (trade_id t) = Some s.
Proof.
  intros Hin Ht. unfold status_of. rewrite Ht, find_trades_with_status.
  destruct (find_by_id_of_member t _ Hin) as [t' ->]. reflexivity.
Qed.

Lemma confirmed_index_of_updated (w w' : Wd) (t : TradeRecord) s h :
  In t (trades w) ->
  trades w' = trades_with_status env (trade_id t) s (Some h) (trades w) ->
  option_map confirmed_at_index
    (find (fun x => N.eqb (trade_id x) (trade_id t)) (trades w')) = Some h.
Proof.
  intros Hin Ht. rewrite Ht, find_trades_with_status.
  destruct (find_by_id_of_member t _ Hin) as [t' ->]. reflexivity.
Qed.

Lemma find_other_id id id' s index l :
  id' <> id ->
  find (fun t => N.eqb (trade_id t) id') (trades_with_status env id s index l)
  = find (fun t => N.eqb (trade_id t) id') l.
Proof.
  intros Hne. unfold trades_with_status.
  destruct (find (fun t => N.eqb (trade_id t) id) l) as [current |] eqn:E;
    [| reflexivity].
  apply find_some in E. destruct E as [_ E]. apply N.eqb_eq in E.
  apply find_put_other. simpl. congruence.
Qed.

(** The first coin state the node returns for this side's settlement
    payments is the state of one of them; when it carries a spent height,
    one of them has been spent. *)
Lemma first_state_spent fork_height o first rest h :
  get_coin_state env (our_settlement_ids env o) fork_height = first :: rest ->
  spent_height first = Some h ->
  settlement_spent env fork_height o.
Proof.
  intros Hcs Hh. exists first.
  assert (Hin : In first
                  (get_coin_state env (our_settlement_ids env o) fork_height))
    by (rewrite Hcs; left; reflexivity).
  unfold get_coin_state in Hin. apply filter_In in Hin.
  destruct Hin as [Ht Hid]. apply inb_N_In in Hid.
  split; [exact Ht |]. split; [exact Hid |]. congruence.
Qed.

(** C1, as the code has it.  When the coin of the event belongs to a trade
    and one of this side's settlement payments has been spent, the spent one
    being the first coin state the node returns for them and [h] its spent
    height, the trade's status is set to CONFIRMED and persisted, with [h]
    as the confirmation height, and no other trade is touched; the
    transaction records of the offer are stored as confirmed at that height
    exactly when the trade was PENDING_ACCEPT -- for a trade in any other
    status no record is stored. *)
Theorem coins_of_interest_farmed_confirms
  coin_state fork_height (w : Wd) trade first rest h :
  get_trade_by_coin_loop (trades w) (cs_coin coin_state) = Some trade ->
  let o := Offer_from_bytes env (offer trade) in
  let run := coins_of_interest_farmed env coin_state fork_height in
  get_coin_state env (our_settlement_ids env o) fork_height = first :: rest ->
  spent_height first = Some h ->
  settlement_spent env fork_height o /\
  status_of (final run w) (trade_id trade) = Some CONFIRMED /\
  (0 < h ->
   option_map confirmed_at_index
     (find (fun x => N.eqb (trade_id x) (trade_id trade))
        (trades (final run w))) = Some h) /\
  (forall id, id <> trade_id trade ->
     find (fun x => N.eqb (trade_id x) id) (trades (final run w))
     = find (fun x => N.eqb (trade_id x) id) (trades w)) /\
  (forall txs,
     result (calculate_tx_records_for_offer env o false) w = Ret txs ->
     result run w = Ret tt /\
     transactions (final run w)
       = transactions w ++
         (if TradeStatus_eqb (status trade) PENDING_ACCEPT
          then map (fun tx => replace_confirmed tx (Some h)) txs
          else [])).
Proof.
  intros Hloop o run Hcs Hh.
  pose proof (first_state_spent _ _ _ _ _ Hcs Hh) as Hspent.
  split; [exact Hspent |].
  pose proof (farmed_confirm_run coin_state fork_height w trade first rest
                Hloop Hcs (settlement_spent_known _ _ Hspent)) as Hrun.
  fold o in Hrun. fold run in Hrun. rewrite Hh in Hrun.
  destruct (get_trade_by_coin_loop_sound _ _ _ Hloop) as (Hin & _ & _).
  assert (Ht : trades (final run w)
               = trades_with_status env (trade_id trade) CONFIRMED (Some h)
                   (trades w)).
  { unfold final. rewrite Hrun.
    destruct (result (calculate_tx_records_for_offer env o false) w);
      reflexivity. }
  split; [eapply status_of_updated; eauto |].
  split; [intros _; eapply confirmed_index_of_updated; eauto |].
  split.
  - intros id Hid. rewrite Ht. apply find_other_id. exact Hid.
  - intros txs Htxs. unfold result, final in *. rewrite Hrun.
    unfold result in Htxs. rewrite Htxs. split; reflexivity.
Qed.

(** The failure branch.  When the coin of the event belongs to a trade
    and the node knows none of this side's settlement payments, the
    transactions queued for the trade are deleted and the status moves
    PENDING_CANCEL to CANCELLED and PENDING_CONFIRM to FAILED; a trade in
    any other status, PENDING_ACCEPT among them, keeps it. *)
Lemma coins_of_interest_farmed_fails
  coin_state fork_height (w : Wd) trade :
  get_trade_by_coin_loop (trades w) (cs_coin coin_state) = Some trade ->
  ~ settlement_known env fork_height (Offer_from_bytes env (offer trade)) ->
  let run := coins_of_interest_farmed env coin_state fork_height in
  result run w = Ret tt /\
  transactions (final run w)
    = filter (fun tx =>
                negb (option_eqb N.eqb (tx_trade_id tx)
                        (Some (trade_id trade))))
        (transactions w) /\
  (status trade = PENDING_CANCEL ->
     status_of (final run w) (trade_id trade) = Some CANCELLED) /\
  (status trade = PENDING_CONFIRM ->
     status_of (final run w) (trade_id trade) = Some FAILED) /\
  (status trade <> PENDING_CANCEL -> status trade <> PENDING_CONFIRM ->
     trades (final run w) = trades w) /\
  (status trade = PENDING_ACCEPT ->
     status_of (final run w) (trade_id trade) = status_of w (trade_id trade)).
Proof.
  intros Hloop Hunknown run.
  pose proof (farmed_fail_run coin_state fork_height w trade Hloop Hunknown)
    as Hrun.
  fold run in Hrun.
  destruct (get_trade_by_coin_loop_sound _ _ _ Hloop) as (Hin & _ & _).
  unfold result, final. rewrite Hrun. simpl.
  split; [reflexivity |]. split; [reflexivity |].
  split; [| split; [| split]].
  - intros E. apply (status_of_updated w _ trade CANCELLED None Hin).
    simpl. rewrite E. reflexivity.
  - intros E. apply (status_of_updated w _ trade FAILED None Hin).
    simpl. rewrite E. reflexivity.
  - intros H1 H2. destruct (status trade); try reflexivity; congruence.
  - intros E. unfold status_of. simpl. rewrite E. reflexivity.
Qed.

(** C2: where the code leaves the rule.  The claim, the spec's decision rule
    and the comment at line 153 all speak of settlement payments that were
    spent; the test at line 154 asks only whether the node returned a coin
    state for one of them.  So when the node knows one of this side's
    settlement payments and none of them has been spent, the event takes the
    success branch: every transaction queued before is still in the store
    -- nothing is deleted -- and the trade does not become FAILED. *)
Theorem unspent_settlement_is_not_a_failure
  coin_state fork_height (w : Wd) trade :
  get_trade_by_coin_loop (trades w) (cs_coin coin_state) = Some trade ->
  let o := Offer_from_bytes env (offer trade) in
  let run := coins_of_interest_farmed env coin_state fork_height in
  settlement_known env fork_height o ->
  ~ settlement_spent env fork_height o ->
  status trade = PENDING_CONFIRM ->
  status_of (final run w) (trade_id trade) <> Some FAILED /\
  transactions (final run w) = transactions w.
Proof.
  intros Hloop o run Hknown _ Hst.
  destruct (settlement_known_first _ _ Hknown) as (first & rest & Hcs).
  pose proof (farmed_confirm_run coin_state fork_height w trade first rest
                Hloop Hcs Hknown) as Hrun.
  fold o in Hrun. fold run in Hrun.
  destruct (get_trade_by_coin_loop_sound _ _ _ Hloop) as (Hin & _ & _).
  assert (Hs : status_of (final run w) (trade_id trade) = Some CONFIRMED).
  { apply (status_of_updated w _ trade CONFIRMED (spent_height first) Hin).
    unfold final. rewrite Hrun.
    destruct (result (calculate_tx_records_for_offer env o false) w);
      reflexivity. }
  assert (Htx : transactions (final run w) = transactions w).
  { unfold final. rewrite Hrun. rewrite Hst.
    destruct (result (calculate_tx_records_for_offer env o false) w);
      simpl; [apply app_nil_r | reflexivity]. }
  split; [rewrite Hs; discriminate | exact Htx].
Qed.

(** ** Delivering an event again *)

Lemma loop_after_update (l : list TradeRecord) coin trade s index :
  NoDup (map trade_id l) ->
  (forall t, In t l -> trade_id t <> trade_id trade ->
     status t = CANCELLED \/ ~ In coin (coins_of_interest t)) ->
  s <> CANCELLED ->
  get_trade_by_coin_loop l coin = Some trade ->
  get_trade_by_coin_loop (trades_with_status env (trade_id trade) s index l) coin
  = Some (with_status trade s index).
Proof.
  intros Hnd Hothers Hs Hloop.
  destruct (get_trade_by_coin_loop_sound _ _ _ Hloop) as (Hin & Hcoin & _).
  destruct (trades_with_status_shape (trade_id trade) s index l trade
              (find_unique l trade Hnd Hin)) as (pre & post & -> & E).
  apply get_trade_by_coin_loop_first; [| exact Hs | exact Hcoin].
  intros p Hp.
  assert (Hp' : In p (pre ++ post)) by (apply in_app_iff; auto).
  rewrite E in Hp'. apply filter_In in Hp'. destruct Hp' as [Hpl Hid].
  apply Bool.negb_true_iff, N.eqb_neq in Hid. auto.
Qed.



(** ** [check_offer_validity] *)

Lemma NoDup_map_filter {Row Key} (key : Row -> Key) (keep : Row -> bool) :
  forall rows, NoDup (map key rows) -> NoDup (map key (filter keep rows)).
Proof.
  intros rows. induction rows as [| x rows IH]; simpl; intros H;
    [constructor |].
  inversion H as [| ? ? Hnotin Hnd]; subst.
  destruct (keep x); simpl; [| auto].
  constructor; [| auto].
  intros Hin. apply Hnotin. apply in_map_iff in Hin.
  destruct Hin as [y [E Hy]]. apply filter_In in Hy.
  apply in_map_iff. exists y. tauto.
Qed.

Lemma NoDup_map_injective {A B} (f : A -> B) (l : list A) x y :
  NoDup (map f l) -> In x l -> In y l -> f x = f y -> x = y.
Proof.
  induction l as [| z l IH]; simpl; intros H Hx Hy E; [contradiction |].
  inversion H as [| ? ? Hnotin Hnd]; subst.
  destruct Hx as [-> | Hx], Hy as [-> | Hy]; auto.
  - exfalso. apply Hnotin. rewrite E. apply in_map. exact Hy.
  - exfalso. apply Hnotin. rewrite <- E. apply in_map. exact Hx.
Qed.

(** The states returned for a duplicate-free list of names are as many as
    the names exactly when the node knows every name. *)
Lemma get_coin_state_complete (names : list bytes32) fork_height :
  NoDup names ->
  NoDup (map (fun cs => coin_name env (cs_coin cs))
           (coin_table env fork_height)) ->
  (List.length (get_coin_state env names fork_height) = List.length names
   <->
   forall n, In n names ->
     exists cs, In cs (coin_table env fork_height) /\
                coin_name env (cs_coin cs) = n).
Proof.
  intros Hnames Htable.
  set (name := fun cs => coin_name env (cs_coin cs)) in *.
  set (S := get_coin_state env names fork_height).
  assert (HS : NoDup (map name S))
    by (apply NoDup_map_filter; exact Htable).
  assert (Hincl : incl (map name S) names).
  { intros n Hn. apply in_map_iff in Hn. destruct Hn as [cs [<- Hcs]].
    apply filter_In in Hcs. apply inb_N_In. apply Hcs. }
  split.
  - intros Hlen n Hn.
    assert (Hback : incl names (map name S)).
    { apply NoDup_length_incl; [exact HS | | exact Hincl].
      rewrite length_map. rewrite Hlen. apply le_n. }
    apply Hback in Hn. apply in_map_iff in Hn.
    destruct Hn as [cs [E Hcs]]. apply filter_In in Hcs.
    exists cs. split; [apply Hcs | exact E].
  - intros Hall.
    assert (Hback : incl names (map name S)).
    { intros n Hn. destruct (Hall n Hn) as [cs [Ht E]].
      apply in_map_iff. exists cs. split; [exact E |].
      apply filter_In. split; [exact Ht |].
      apply inb_N_In. unfold name in E. rewrite E. exact Hn. }
    pose proof (NoDup_incl_length Hnames Hback) as H1.
    pose proof (NoDup_incl_length HS Hincl) as H2.
    rewrite length_map in H1, H2. lia.
Qed.

(** The states returned for a list of names are as many as the names
    exactly when no name is listed twice and the node knows every name. *)
Lemma get_coin_state_full (names : list bytes32) fork_height :
  NoDup (map (fun cs => coin_name env (cs_coin cs))
           (coin_table env fork_height)) ->
  (List.length (get_coin_state env names fork_height) = List.length names
   <->
   NoDup names /\
   forall n, In n names ->
     exists cs, In cs (coin_table env fork_height) /\
                coin_name env (cs_coin cs) = n).
Proof.
  intros Htable.
  set (name := fun cs => coin_name env (cs_coin cs)) in *.
  set (S := get_coin_state env names fork_height).
  assert (HS : NoDup (map name S))
    by (apply NoDup_map_filter; exact Htable).
  assert (Hincl : incl (map name S) names).
  { intros n Hn. apply in_map_iff in Hn. destruct Hn as [cs [<- Hcs]].
    apply filter_In in Hcs. apply inb_N_In. apply Hcs. }
  split.
  - intros Hlen.
    assert (Hnames : NoDup names).
    { apply (NoDup_incl_NoDup HS); [| exact Hincl].
      rewrite length_map. fold S in Hlen. rewrite Hlen. apply le_n. }
    split; [exact Hnames |].
    apply (get_coin_state_complete names fork_height Hnames Htable).
    exact Hlen.
  - intros [Hnames Hall].
    apply (get_coin_state_complete names fork_height Hnames Htable).
    exact Hall.
Qed.

(** C4, as the code has it.  For a node that holds one state per coin,
    [check_offer_validity] answers true exactly when the bundle lists no
    non-ephemeral removal twice and every removal whose parent is not itself
    removed in the bundle has a coin state on the node and that state is
    unspent; so it answers false as soon as one of them is unknown or spent,
    and also when one of them is listed twice. *)
Theorem check_offer_validity_spec o :
  NoDup (map (fun cs => coin_name env (cs_coin cs)) (coin_table env None)) ->
  let removed := removals env (bundle o) in
  let listed :=
    filter (fun c => negb (inb N.eqb (parent_coin_info c)
                             (map (coin_name env) removed)))
      removed in
  let non_ephemeral c :=
    In c removed /\
    ~ In (parent_coin_info c) (map (coin_name env) removed) in
  let known_unspent c :=
    exists cs, In cs (coin_table env None) /\
               coin_name env (cs_coin cs) = coin_name env c /\
               spent_height cs = None in
  let unknown c :=
    forall cs, In cs (coin_table env None) ->
               coin_name env (cs_coin cs) <> coin_name env c in
  let spent c :=
    exists cs h, In cs (coin_table env None) /\
                 coin_name env (cs_coin cs) = coin_name env c /\
                 spent_height cs = Some h in
  (forall c, In c listed <-> non_ephemeral c) /\
  (check_offer_validity env o = true <->
   NoDup (map (coin_name env) listed) /\
   forall c, non_ephemeral c -> known_unspent c) /\
  (forall c, non_ephemeral c -> unknown c \/ spent c ->
     check_offer_validity env o = false) /\
  (~ NoDup (map (coin_name env) listed) ->
   check_offer_validity env o = false).
Proof.
  intros Htable removed listed non_ephemeral known_unspent unknown spent.
  set (name := fun cs => coin_name env (cs_coin cs)) in *.
  assert (HR : forall c, In c listed <-> non_ephemeral c).
  { intros c. unfold listed, non_ephemeral. rewrite filter_In, negb_true_iff.
    split; intros [H1 H2]; split; auto.
    - intros Hin. apply inb_N_In in Hin. congruence.
    - destruct (inb N.eqb _ _) eqn:E; [| reflexivity].
      exfalso. apply H2. apply inb_N_In. exact E. }
  pose proof (get_coin_state_full (map (coin_name env) listed) None Htable)
    as Hfull.
  assert (Hiff : check_offer_validity env o = true <->
                 NoDup (map (coin_name env) listed) /\
                 forall c, non_ephemeral c -> known_unspent c).
  { unfold check_offer_validity. fold removed. fold listed.
    rewrite andb_true_iff, Nat.eqb_eq, forallb_forall.
    rewrite <- (length_map (coin_name env) listed). rewrite Hfull.
    split.
    - intros [[Hnd Hall] Hunspent]. split; [exact Hnd |].
      intros c Hc. apply HR in Hc.
      destruct (Hall (coin_name env c) (in_map _ _ _ Hc)) as [cs [Ht E]].
      exists cs. split; [exact Ht |]. split; [exact E |].
      assert (Hin : In cs
                      (get_coin_state env (map (coin_name env) listed) None)).
      { apply filter_In. split; [exact Ht |]. apply inb_N_In.
        rewrite E. apply in_map. exact Hc. }
      specialize (Hunspent cs Hin).
      destruct (spent_height cs); [discriminate | reflexivity].
    - intros [Hnd Hall]. split; [split; [exact Hnd |] |].
      + intros n Hn. apply in_map_iff in Hn. destruct Hn as [c [<- Hc]].
        apply HR in Hc. destruct (Hall c Hc) as [cs (Ht & E & _)].
        exists cs. auto.
      + intros cs Hcs. apply filter_In in Hcs. destruct Hcs as [Ht Hn].
        apply inb_N_In in Hn. apply in_map_iff in Hn.
        destruct Hn as [c [E Hc]]. apply HR in Hc.
        destruct (Hall c Hc) as [cs' (Ht' & E' & Hu)].
        assert (cs' = cs).
        { apply (NoDup_map_injective name (coin_table env None));
            auto. unfold name. congruence. }
        subst cs'. rewrite Hu. reflexivity. }
  split; [exact HR |]. split; [exact Hiff |]. split.
  - intros c Hc Hbad.
    destruct (check_offer_validity env o) eqn:E; [| reflexivity].
    exfalso.
    destruct (proj2 (proj1 Hiff eq_refl) c Hc) as [cs (Ht & En & Hu)].
    destruct Hbad as [Hunk | [cs' [h (Ht' & En' & Hs)]]].
    + exact (Hunk cs Ht En).
    + assert (cs' = cs).
      { apply (NoDup_map_injective name (coin_table env None)); auto.
        unfold name. congruence. }
      subst cs'. congruence.
  - intros Hdup.
    destruct (check_offer_validity env o) eqn:E; [| reflexivity].
    exfalso. apply Hdup. apply (proj1 Hiff eq_refl).
Qed.

(** ** Computations that leave the two stores alone *)

Lemma ks_ret {A} (a : A) : keeps_stores (ret a : Tm A).
Proof. intros w. split; reflexivity. Qed.

Lemma ks_raise {A} (e : error) : keeps_stores (raise e : Tm A).
Proof. intros w. split; reflexivity. Qed.

Lemma ks_lift {A} (o : Outcome A) : keeps_stores (lift o : Tm A).
Proof. intros w. split; reflexivity. Qed.

Lemma ks_gets {A} (f : Wd -> A) : keeps_stores (gets f).
Proof. intros w. split; reflexivity. Qed.

Lemma ks_log_call (c : Call PuzzleInfo Solver Announcement) :
  keeps_stores (log_call c : Tm unit).
Proof. intros w. split; reflexivity. Qed.

Lemma ks_get_new_puzzlehash
  (wl : Wallet SpendBundle PuzzleInfo Solver Announcement) :
  keeps_stores (get_new_puzzlehash wl).
Proof. intros w. split; reflexivity. Qed.

Lemma ks_bind {A B} (m : Tm A) (k : A -> Tm B) :
  keeps_stores m -> (forall a, keeps_stores (k a)) ->
  keeps_stores (bind m k).
Proof.
  intros Hm Hk w. specialize (Hm w). unfold final, bind in *.
  destruct (m w) as [[a | e] w1]; simpl in *.
  - specialize (Hk a w1). unfold final in Hk.
    destruct Hk as [H1 H2]. destruct Hm as [H3 H4].
    split; congruence.
  - exact Hm.
Qed.

Lemma ks_try_except {A} (m : Tm A) (h : error -> Tm A) :
  keeps_stores m -> (forall e, keeps_stores (h e)) ->
  keeps_stores (try_except m h).
Proof.
  intros Hm Hh w. specialize (Hm w). unfold final, try_except in *.
  destruct (m w) as [[a | e] w1]; simpl in *.
  - exact Hm.
  - specialize (Hh e w1). unfold final in Hh.
    destruct Hh as [H1 H2]. destruct Hm as [H3 H4].
    split; congruence.
Qed.

Lemma ks_for_fold {A S} (l : list A) (body : S -> A -> Tm S) :
  (forall s x, keeps_stores (body s x)) ->
  forall s, keeps_stores (for_fold l body s).
Proof.
  intros Hb. induction l as [| x l IH]; intros s; simpl.
  - apply ks_ret.
  - apply ks_bind; [apply Hb | exact IH].
Qed.

Lemma ks_for_each {A} (l : list A) (body : A -> Tm unit) :
  (forall x, keeps_stores (body x)) -> keeps_stores (for_each l body).
Proof.
  intros Hb. induction l as [| x l IH]; simpl.
  - apply ks_ret.
  - apply ks_bind; [apply Hb | intros _; exact IH].
Qed.

Ltac ks_step :=
  match goal with
  | |- keeps_stores (bind _ _) => apply ks_bind; [| intros ?]
  | |- keeps_stores (ret _) => apply ks_ret
  | |- keeps_stores (raise _) => apply ks_raise
  | |- keeps_stores (lift _) => apply ks_lift
  | |- keeps_stores (gets _) => apply ks_gets
  | |- keeps_stores time_time => apply ks_gets
  | |- keeps_stores (log_call _) => apply ks_log_call
  | |- keeps_stores (get_new_puzzlehash _) => apply ks_get_new_puzzlehash
  | |- keeps_stores (for_fold _ _ _) => apply ks_for_fold; intros ? ?
  | |- keeps_stores (for_each _ _) => apply ks_for_each; intros ?
  | |- keeps_stores (try_except _ _) => apply ks_try_except; [| intros ?]
  | |- keeps_stores (match ?x with _ => _ end) => destruct x
  end.

Ltac ks := repeat ks_step.

Lemma ks_wallets_lookup (id : Z) : keeps_stores (wallets_lookup env id).
Proof. unfold wallets_lookup. ks. Qed.

Lemma ks_offer_entry v entry : keeps_stores (offer_entry env v entry).
Proof.
  unfold offer_entry, is_positive_int, reconcile_driver,
    call_get_coins_to_offer, wallets_lookup.
  ks.
Qed.

Lemma ks_offer_transactions offer_dict fee paying ann txs item :
  keeps_stores (offer_transactions env offer_dict fee paying ann txs item).
Proof.
  unfold offer_transactions, call_create_offer_transactions, wallets_lookup.
  ks.
Qed.

Lemma ks_create_offer_body offer_dict driver_dict fee :
  keeps_stores (create_offer_body env offer_dict driver_dict fee).
Proof.
  unfold create_offer_body.
  apply ks_bind; [apply ks_for_fold; intros; apply ks_offer_entry |].
  intros v. apply ks_bind; [apply ks_lift |].
  intros np. apply ks_bind; [apply ks_lift |].
  intros ann. apply ks_bind.
  - apply ks_for_fold. intros. apply ks_offer_transactions.
  - intros. apply ks_ret.
Qed.

Lemma ks_create_offer offer_dict driver_dict fee :
  keeps_stores (_create_offer_for_ids env offer_dict driver_dict fee).
Proof.
  unfold _create_offer_for_ids.
  apply ks_try_except.
  - apply ks_bind; [apply ks_create_offer_body | intros; apply ks_ret].
  - intros. apply ks_ret.
Qed.

Lemma ks_cancel_coin fee st coin : keeps_stores (cancel_coin env fee st coin).
Proof.
  unfold cancel_coin, call_select_coins,
    call_generate_signed_transaction_standard,
    call_generate_signed_transaction.
  ks.
Qed.

(** [_create_offer_for_ids] never raises: it answers a success triple or a
    failure triple. *)
Lemma create_offer_returns offer_dict driver_dict fee (w : Wd) :
  (exists o, result (_create_offer_for_ids env offer_dict driver_dict fee) w
             = Ret (true, Some o, None)) \/
  (exists e, result (_create_offer_for_ids env offer_dict driver_dict fee) w
             = Ret (false, None, Some e)).
Proof.
  unfold result, _create_offer_for_ids, try_except, bind.
  destruct (create_offer_body env offer_dict _ fee w) as [[o | e] w1]; simpl.
  - left. exists o. reflexivity.
  - right. exists e. reflexivity.
Qed.

Lemma create_offer_default_dict offer_dict driver_dict fee :
  _create_offer_for_ids env offer_dict
    (Some match driver_dict with Some d => d | None => [] end) fee
  = _create_offer_for_ids env offer_dict driver_dict fee.
Proof. destruct driver_dict; reflexivity. Qed.

(** ** [respond_to_offer] on a stale offer *)

(** C5.  When the validity check answers false, [respond_to_offer] returns
    a failure triple and leaves the whole state as it was: no complementary
    offer is built, no trade is stored, nothing is submitted.  The check is
    reached once every asset this side has to supply has a wallet, and the
    message is then the stale-offer one. *)
Theorem respond_to_offer_stale o fee (w : Wd) :
  check_offer_validity env o = false ->
  (exists msg,
     respond_to_offer env o fee w = (Ret (false, None, Some msg), w)) /\
  (forall take_offer_dict,
     take_offer_entries env (arbitrage env o) [] = inr take_offer_dict ->
     respond_to_offer env o fee w
     = (Ret (false, None, Some OfferNoLongerValid), w)).
Proof.
  intros Hstale. unfold respond_to_offer. rewrite Hstale. simpl.
  destruct (take_offer_entries env (arbitrage env o) []) as [msg | d].
  - split; [exists msg; reflexivity | discriminate].
  - split; [exists OfferNoLongerValid; reflexivity | reflexivity].
Qed.

(** ** Construction errors *)

(** C6, as the code has it.  [_create_offer_for_ids] never raises: every
    construction error comes back as the failure triple
    [(False, None, message)], and neither store is written.
    [respond_to_offer] hands that triple on, and reports a request it cannot
    fulfil the same way.  [create_offer_for_ids] does not: when
    [_create_offer_for_ids] fails it raises
    [Exception("Error creating offer: ...")]; no trade is stored in either
    case. *)
Theorem construction_errors
  offer_dict given_drivers fee validate_only (w : Wd) :
  let build := _create_offer_for_ids env offer_dict given_drivers fee in
  let create :=
    create_offer_for_ids env offer_dict given_drivers fee validate_only in
  ((exists o, result build w = Ret (true, Some o, None)) \/
   (exists e, result build w = Ret (false, None, Some e))) /\
  trades (final build w) = trades w /\
  transactions (final build w) = transactions w /\
  (forall e,
     result build w = Ret (false, None, Some e) ->
     result create w = Raise (ErrorCreatingOffer e) /\
     trades (final create w) = trades w /\
     transactions (final create w) = transactions w) /\
  (forall o e,
     take_offer_entries env (arbitrage env o) [] = inr offer_dict ->
     given_drivers = Some (driver_dict o) ->
     check_offer_validity env o = true ->
     result build w = Ret (false, None, Some e) ->
     result (respond_to_offer env o fee) w = Ret (false, None, Some e) /\
     trades (final (respond_to_offer env o fee) w) = trades w /\
     transactions (final (respond_to_offer env o fee) w) = transactions w) /\
  (forall o msg,
     take_offer_entries env (arbitrage env o) [] = inl msg ->
     respond_to_offer env o fee w = (Ret (false, None, Some msg), w)).
Proof.
  intros build create.
  pose proof (ks_create_offer offer_dict given_drivers fee w) as [Ht Hx].
  fold build in Ht, Hx.
  split; [apply create_offer_returns |].
  split; [exact Ht |]. split; [exact Hx |]. split; [| split].
  3: { intros o msg Hd. unfold respond_to_offer. rewrite Hd. reflexivity. }
  - intros e He. unfold create, create_offer_for_ids, result, final, bind.
    rewrite create_offer_default_dict. fold build.
    unfold result in He. unfold final in Ht, Hx.
    destruct (build w) as [r w1]. simpl in *. subst r. simpl.
    auto.
  - intros o e Hd -> Hvalid He.
    unfold respond_to_offer, result, final. rewrite Hd, Hvalid. simpl.
    unfold bind. fold build.
    unfold result in He. unfold final in Ht, Hx.
    destruct (build w) as [r w1]. simpl in *. subst r. simpl.
    auto.
Qed.

(** ** Computations that query no coin *)

Lemma qnc_ret {A} (a : A) : queries_no_coin (ret a : Tm A).
Proof. intros w. reflexivity. Qed.

Lemma qnc_raise {A} (e : error) : queries_no_coin (raise e : Tm A).
Proof. intros w. reflexivity. Qed.

Lemma qnc_lift {A} (o : Outcome A) : queries_no_coin (lift o : Tm A).
Proof. intros w. reflexivity. Qed.

Lemma qnc_get_new_puzzlehash
  (wl : Wallet SpendBundle PuzzleInfo Solver Announcement) :
  queries_no_coin (get_new_puzzlehash wl).
Proof.
  intros w. unfold final, get_new_puzzlehash, coin_queries. simpl.
  rewrite filter_app. simpl. apply app_nil_r.
Qed.

Lemma qnc_bind {A B} (m : Tm A) (k : A -> Tm B) :
  queries_no_coin m -> (forall a, queries_no_coin (k a)) ->
  queries_no_coin (bind m k).
Proof.
  intros Hm Hk w. specialize (Hm w). unfold final, bind in *.
  destruct (m w) as [[a | e] w1]; simpl in *.
  - specialize (Hk a w1). unfold final in Hk. congruence.
  - exact Hm.
Qed.

Lemma qnc_for_fold {A S} (l : list A) (body : S -> A -> Tm S) :
  (forall s x, In x l -> queries_no_coin (body s x)) ->
  forall s, queries_no_coin (for_fold l body s).
Proof.
  induction l as [| x l IH]; intros Hb s; simpl.
  - apply qnc_ret.
  - apply qnc_bind.
    + apply Hb. left. reflexivity.
    + intros s'. apply IH. intros s0 y Hy. apply Hb. right. exact Hy.
Qed.

Ltac qnc_step :=
  match goal with
  | |- queries_no_coin (bind _ _) => apply qnc_bind; [| intros ?]
  | |- queries_no_coin (ret _) => apply qnc_ret
  | |- queries_no_coin (raise _) => apply qnc_raise
  | |- queries_no_coin (lift _) => apply qnc_lift
  | |- queries_no_coin (get_new_puzzlehash _) =>
      apply qnc_get_new_puzzlehash
  | |- queries_no_coin (match ?x with _ => _ end) => destruct x
  end.

Lemma qnc_request_entry v entry :
  is_request entry -> queries_no_coin (offer_entry env v entry).
Proof.
  destruct entry as [id solver]. intros [z [E Hz]]. simpl in E. subst solver.
  apply Z.ltb_lt in Hz.
  intros w. unfold final, offer_entry, is_positive_int.
  rewrite (bind_ret_run _ _ w (0 <? z) w) by reflexivity.
  rewrite Hz. revert w.
  unfold reconcile_driver, wallets_lookup.
  apply qnc_bind; [| intros r]; repeat qnc_step.
Qed.

(** ** A zero amount *)

Lemma for_fold_app {A S} (l1 l2 : list A) (body : S -> A -> Tm S) s w :
  for_fold (l1 ++ l2) body s w
  = bind (for_fold l1 body s) (for_fold l2 body) w.
Proof.
  revert s w. induction l1 as [| x l1 IH]; intros s w; simpl.
  - reflexivity.
  - unfold bind.
    destruct (body s x w) as [[s' | e] w1]; [| reflexivity].
    rewrite IH. reflexivity.
Qed.

Lemma offer_entry_zero v key (w : Wd) :
  exists e, offer_entry env v (key, IntVal 0) w = (Raise e, w).
Proof.
  unfold offer_entry. simpl. unfold bind at 1. simpl.
  destruct key as [i | a]; simpl.
  - unfold bind, lift, wallets_lookup.
    destruct (uint32 i) as [wid | e]; [| eauto].
    destruct (wallets env wid) as [wl |]; simpl; [| eauto].
    destruct (is_standard (wallet_type wl)); simpl; [eauto |].
    destruct (get_asset_id wl); simpl; eauto.
  - unfold bind. simpl. eauto.
Qed.

(** C8, as the code has it.  An offer dictionary with a zero amount makes
    construction fail: [_create_offer_for_ids] answers a failure triple and
    [create_offer_for_ids] raises.  The entries are processed in order, so
    the calls made are those of the entries that precede the zero amount: no
    [get_coins_to_offer] call is made for the zero entry or for any entry
    after it, and none at all when only requests precede it. *)
Theorem zero_amount_fails
  pre key post driver_dict fee validate_only (w : Wd) :
  let offer_dict := pre ++ (key, IntVal 0) :: post in
  let build := _create_offer_for_ids env offer_dict driver_dict fee in
  let before :=
    for_fold pre (offer_entry env)
      {| coins_to_offer := []; requested := []; fee_left_to_pay := fee;
         wallet_paying_fee := None;
         drivers := match driver_dict with Some d => d | None => [] end |} in
  (exists e,
     result build w = Ret (false, None, Some e) /\
     result (create_offer_for_ids env offer_dict driver_dict fee
               validate_only) w
     = Raise (ErrorCreatingOffer e)) /\
  final build w = final before w /\
  calls (final build w) = calls (final before w) /\
  ((forall entry, In entry pre -> is_request entry) ->
   coin_queries (calls (final build w)) = coin_queries (calls w)).
Proof.
  intros offer_dict build before.
  assert (H : exists e, build w = (Ret (false, None, Some e), final before w)).
  { unfold build, _create_offer_for_ids, create_offer_body, offer_dict.
    unfold try_except, final.
    unfold bind at 1. unfold bind at 1. rewrite for_fold_app. fold before.
    unfold bind at 1.
    destruct (before w) as [[v | e] w1].
    - change (for_fold ((key, IntVal 0) :: post) (offer_entry env) v w1)
        with (bind (offer_entry env v (key, IntVal 0))
                (fun s' => for_fold post (offer_entry env) s') w1).
      unfold bind at 1.
      destruct (offer_entry_zero v key w1) as [e ->].
      exists e. reflexivity.
    - exists e. reflexivity. }
  destruct H as [e He].
  assert (Hfinal : final build w = final before w)
    by (unfold final at 1; rewrite He; reflexivity).
  split; [| split; [| split]].
  - exists e. split; [unfold result; rewrite He; reflexivity |].
    unfold create_offer_for_ids, result, bind.
    rewrite create_offer_default_dict. fold build. rewrite He. reflexivity.
  - exact Hfinal.
  - rewrite Hfinal. reflexivity.
  - intros Hpre. rewrite Hfinal. unfold before.
    apply qnc_for_fold. intros s x Hx. apply qnc_request_entry, Hpre, Hx.
Qed.

(** ** Inverting a run that returned *)

Lemma bind_inv {A B} (m : Tm A) (k : A -> Tm B) w r w' :
  bind m k w = (Ret r, w') ->
  exists a w1, m w = (Ret a, w1) /\ k a w1 = (Ret r, w').
Proof.
  unfold bind. destruct (m w) as [[a | e] w1]; [eauto | discriminate].
Qed.

Lemma ret_inv {A} (a b : A) (w w' : Wd) :
  ret a w = (Ret b, w') -> b = a /\ w' = w.
Proof. unfold ret. intros H. inversion H. auto. Qed.

Lemma lift_inv {A} (o : Outcome A) (a : A) (w w' : Wd) :
  lift o w = (Ret a, w') -> o = Ret a /\ w' = w.
Proof. unfold lift. intros H. inversion H. auto. Qed.

Lemma uint64_inv z v : uint64 z = Ret v -> v = z /\ 0 <= z.
Proof.
  unfold uint64. destruct ((0 <=? z) && (z <? 2 ^ 64)) eqn:E;
    intros H; inversion H; subst.
  apply andb_true_iff in E. destruct E as [E _].
  split; [reflexivity | lia].
Qed.

(** ** Who pays the fee

    The first loop of [_create_offer_for_ids] hands [fee_left_to_pay] to the
    first entry that offers and zeroes it, and records every entry that
    offers as [wallet_paying_fee]: after the loop the payer on record is the
    last entry that offers. *)

Lemma is_positive_int_inv sv (w : Wd) positive w1 id :
  is_positive_int env sv w = (Ret positive, w1) ->
  w1 = w /\ (positive = true <-> is_request (id, sv)).
Proof.
  unfold is_positive_int, is_request. destruct sv as [z | s]; simpl.
  - intros H. apply ret_inv in H. destruct H as [-> ->].
    split; [reflexivity |]. rewrite Z.ltb_lt. split.
    + intros Hz. exists z. auto.
    + intros [z' [E Hz]]. injection E as ->. exact Hz.
  - intros H. apply bind_inv in H. destruct H as (b & w2 & Hb & H).
    apply lift_inv in Hb. destruct Hb as [_ ->].
    apply ret_inv in H. destruct H as [-> ->].
    split; [reflexivity |]. simpl. split; [discriminate |].
    intros [z [E _]]. discriminate.
Qed.

Lemma offer_entry_payer v id sv (w : Wd) v' w' :
  offer_entry env v (id, sv) w = (Ret v', w') ->
  (is_request (id, sv) ->
   wallet_paying_fee v' = wallet_paying_fee v /\
   fee_left_to_pay v' = fee_left_to_pay v) /\
  (~ is_request (id, sv) ->
   wallet_paying_fee v' = Some id /\ fee_left_to_pay v' = 0).
Proof.
  unfold offer_entry. intros H.
  apply bind_inv in H. destruct H as (positive & w1 & Hp & H).
  apply (is_positive_int_inv sv w positive w1 id) in Hp.
  destruct Hp as [-> Hpos].
  apply bind_inv in H. destruct H as ([[wl asset] v2] & w2 & Hr & H).
  apply bind_inv in H. destruct H as (d & w3 & _ & H).
  apply ret_inv in H. destruct H as [-> _]. simpl.
  destruct positive.
  - assert (Hreq : is_request (id, sv)) by (apply Hpos; reflexivity).
    split; [intros _ | intros Hn; contradiction].
    apply bind_inv in Hr. destruct Hr as ([[[wl0 a0] ph0] m0] & w4 & _ & Hr).
    apply bind_inv in Hr. destruct Hr as (amt & w5 & _ & Hr).
    apply ret_inv in Hr. destruct Hr as [Hr _].
    inversion Hr; subst. split; reflexivity.
  - assert (Hoff : ~ is_request (id, sv)).
    { intros Hreq. apply Hpos in Hreq. discriminate. }
    split; [intros Hreq; contradiction | intros _].
    apply bind_inv in Hr. destruct Hr as ([wl0 a0] & w4 & _ & Hr).
    apply bind_inv in Hr. destruct Hr as (solver' & w5 & _ & Hr).
    apply bind_inv in Hr. destruct Hr as (coins & w6 & _ & Hr).
    apply ret_inv in Hr. destruct Hr as [Hr _].
    inversion Hr; subst. split; reflexivity.
Qed.

Lemma requests_keep_payer entries :
  (forall entry, In entry entries -> is_request entry) ->
  forall v (w : Wd) v' w',
    for_fold entries (offer_entry env) v w = (Ret v', w') ->
    wallet_paying_fee v' = wallet_paying_fee v /\
    fee_left_to_pay v' = fee_left_to_pay v.
Proof.
  induction entries as [| [id sv] entries IH]; intros Hreq v w v' w' H.
  - apply ret_inv in H. destruct H as [-> _]. split; reflexivity.
  - simpl in H. apply bind_inv in H. destruct H as (v1 & w1 & H1 & H).
    apply offer_entry_payer in H1. destruct H1 as [H1 _].
    destruct (H1 (Hreq _ (or_introl eq_refl))) as [E1 E2].
    apply IH in H; [| intros e He; apply Hreq; right; exact He].
    destruct H as [E3 E4]. split; congruence.
Qed.

(** The payer on record after the first loop is the last entry that
    offers, and nothing is left to pay. *)
Lemma fee_payer_is_last_offered pre id sv post v (w : Wd) v' w' :
  ~ is_request (id, sv) ->
  (forall entry, In entry post -> is_request entry) ->
  for_fold (pre ++ (id, sv) :: post) (offer_entry env) v w = (Ret v', w') ->
  wallet_paying_fee v' = Some id /\ fee_left_to_pay v' = 0.
Proof.
  intros Hoff Hpost H. rewrite for_fold_app in H.
  apply bind_inv in H. destruct H as (v1 & w1 & _ & H).
  simpl in H. apply bind_inv in H. destruct H as (v2 & w2 & H2 & H).
  apply offer_entry_payer in H2. destruct H2 as [_ H2].
  destruct (H2 Hoff) as [E1 E2].
  apply (requests_keep_payer post Hpost) in H. destruct H as [E3 E4].
  split; congruence.
Qed.

(** ** Safe cancellation *)










Lemma uint64_ok z : 0 <= z < 2 ^ 64 -> uint64 z = Ret z.
Proof.
  intros [H1 H2]. unfold uint64.
  apply Z.leb_le in H1. apply Z.ltb_lt in H2. rewrite H1, H2. reflexivity.
Qed.




Lemma add_pending_run fee (txs : list (TransactionRecord SpendBundle))
  (w : Wd) :
  exists w1,
    for_each txs (fun tx =>
      add_pending_transaction (replace_fee_amount tx fee)) w = (Ret tt, w1) /\
    trades w1 = trades w /\
    transactions w1
      = transactions w ++ map (fun tx => replace_fee_amount tx fee) txs /\
    exists new, calls w1 = calls w ++ new /\ spend_calls new = [].
Proof.
  revert w. induction txs as [| tx txs IH]; intros w; simpl.
  - exists w. split; [reflexivity |]. split; [reflexivity |].
    split; [rewrite app_nil_r; reflexivity |].
    exists []. split; [rewrite app_nil_r; reflexivity | reflexivity].
  - unfold bind at 1.
    set (w0 := logged (set_transactions
                         (fun l => l ++ [replace_fee_amount tx fee]) w)
                 (PushTransaction (tx_name (replace_fee_amount tx fee)))).
    change (add_pending_transaction (replace_fee_amount tx fee) w)
      with (Ret tt, w0).
    destruct (IH w0) as (w1 & Hrun & Ht & Hx & new & Hc & Hs).
    exists w1. split; [exact Hrun |]. split; [rewrite Ht; reflexivity |].
    split; [rewrite Hx; simpl; rewrite <- app_assoc; reflexivity |].
    exists (PushTransaction (tx_name (replace_fee_amount tx fee)) :: new).
    split; [rewrite Hc; simpl; rewrite <- app_assoc; reflexivity |].
    simpl. exact Hs.
Qed.


(** ** Dictionaries keyed by a coin name *)

Lemma dict_get_set {V} (d : list (bytes32 * V)) k v k' :
  dict_get N.eqb (dict_set N.eqb d k v) k'
  = if N.eqb k' k then Some v else dict_get N.eqb d k'.
Proof.
  induction d as [| [k0 v0] d IH]; simpl; [reflexivity |].
  destruct (N.eqb k k0) eqn:E; simpl.
  - apply N.eqb_eq in E. subst k0.
    destruct (N.eqb k' k); reflexivity.
  - rewrite IH. destruct (N.eqb k' k) eqn:E'; [| reflexivity].
    apply N.eqb_eq in E'. subst k'. rewrite E. reflexivity.
Qed.

Lemma dict_set_keys {V} (d : list (bytes32 * V)) k v :
  NoDup (map fst d) ->
  NoDup (map fst (dict_set N.eqb d k v)) /\
  forall k', In k' (map fst (dict_set N.eqb d k v))
             <-> k' = k \/ In k' (map fst d).
Proof.
  induction d as [| [k0 v0] d IH]; simpl; intros Hnd.
  - split; [repeat constructor; simpl; tauto | intros k'; intuition].
  - inversion Hnd as [| ? ? Hnotin Hnd']; subst.
    destruct (IH Hnd') as [IH1 IH2].
    destruct (N.eqb k k0) eqn:E; simpl.
    + apply N.eqb_eq in E. subst k0.
      split; [constructor; assumption | intros k'; intuition].
    + split.
      * constructor; [| exact IH1]. rewrite IH2. intros [-> | Hin].
        -- rewrite N.eqb_refl in E. discriminate.
        -- contradiction.
      * intros k'. rewrite IH2. tauto.
Qed.

Lemma dict_get_None_keys {V} (d : list (bytes32 * V)) k :
  dict_get N.eqb d k = None <-> ~ In k (map fst d).
Proof.
  induction d as [| [k0 v0] d IH]; simpl; [tauto |].
  destruct (N.eqb k k0) eqn:E.
  - apply N.eqb_eq in E. subst. split; [discriminate | tauto].
  - apply N.eqb_neq in E. rewrite IH. split.
    + intros H [H1 | H1]; [congruence | contradiction].
    + tauto.
Qed.

Lemma is_some {V} (o : option V) : o <> None -> exists v, o = Some v.
Proof. destruct o as [v |]; [eauto | congruence]. Qed.

(** ** The pending trades *)

Lemma all_pending_run (w : Wd) :
  exists l,
    all_pending w = (Ret l, w) /\
    forall t, In t l <-> In t (trades w) /\ is_pending t = true.
Proof.
  eexists. split; [reflexivity |].
  intros t. simpl. rewrite !in_app_iff, !filter_In.
  unfold is_pending. destruct (status t); simpl; intuition discriminate.
Qed.

(** The inner loop of [get_coins_of_interest]. *)
Lemma coins_loop_spec coins :
  forall (d : list (bytes32 * Coin)),
    let d' :=
      fold_left (fun d coin => dict_set N.eqb d (coin_name env coin) coin)
        coins d in
    (NoDup (map fst d) -> NoDup (map fst d')) /\
    (forall n c, dict_get N.eqb d' n = Some c ->
       (In c coins /\ coin_name env c = n) \/ dict_get N.eqb d n = Some c) /\
    (forall n, dict_get N.eqb d n <> None -> dict_get N.eqb d' n <> None) /\
    (forall c, In c coins -> dict_get N.eqb d' (coin_name env c) <> None).
Proof.
  induction coins as [| c0 coins IH]; intros d; simpl.
  - repeat split; auto; try tauto.
  - destruct (IH (dict_set N.eqb d (coin_name env c0) c0))
      as (I1 & I2 & I3 & I4).
    split; [| split; [| split]].
    + intros Hnd. apply I1. apply dict_set_keys. exact Hnd.
    + intros n c H. apply I2 in H. destruct H as [[Hin En] | H]; [auto |].
      rewrite dict_get_set in H.
      destruct (N.eqb n (coin_name env c0)) eqn:E; [| auto].
      apply N.eqb_eq in E. inversion H; subst. auto.
    + intros n H. apply I3. rewrite dict_get_set.
      destruct (N.eqb n (coin_name env c0)); [discriminate | exact H].
    + intros c [-> | Hin]; [| auto].
      apply I3. rewrite dict_get_set, N.eqb_refl. discriminate.
Qed.

(** The outer loop of [get_coins_of_interest]. *)
Lemma coins_of_interest_loop_spec pending :
  forall (d : list (bytes32 * Coin)),
    let d' :=
      fold_left
        (fun interested_dict trade =>
           fold_left (fun d coin => dict_set N.eqb d (coin_name env coin) coin)
             (coins_of_interest trade) interested_dict)
        pending d in
    (NoDup (map fst d) -> NoDup (map fst d')) /\
    (forall n c, dict_get N.eqb d' n = Some c ->
       (coin_name env c = n /\
        exists t, In t pending /\ In c (coins_of_interest t))
       \/ dict_get N.eqb d n = Some c) /\
    (forall n, dict_get N.eqb d n <> None -> dict_get N.eqb d' n <> None) /\
    (forall t c, In t pending -> In c (coins_of_interest t) ->
       dict_get N.eqb d' (coin_name env c) <> None).
Proof.
  induction pending as [| t0 pending IH]; intros d; simpl.
  - repeat split; auto; try tauto.
  - destruct (coins_loop_spec (coins_of_interest t0) d) as (J1 & J2 & J3 & J4).
    match goal with
    | |- context [fold_left _ pending ?d0] =>
        destruct (IH d0) as (I1 & I2 & I3 & I4)
    end.
    split; [| split; [| split]].
    + intros Hnd. apply I1, J1, Hnd.
    + intros n c H. apply I2 in H.
      destruct H as [(En & t & Hin & Hc) | H].
      * left. split; [exact En |]. exists t. auto.
      * apply J2 in H. destruct H as [[Hc En] | H]; [| auto].
        left. split; [exact En |]. exists t0. auto.
    + intros n H. apply I3, J3, H.
    + intros t c [-> | Hin] Hc.
      * apply I3, J4, Hc.
      * apply (I4 t c Hin Hc).
Qed.

(** [get_coins_of_interest] reads the store and leaves it alone.  The
    dictionary it returns has one entry per coin name; every entry maps the
    name of a coin to a coin of interest of a trade that is pending
    (PENDING_ACCEPT, PENDING_CONFIRM or PENDING_CANCEL), and every coin of
    interest of a pending trade has an entry under its name.  The coins of a
    trade that is CONFIRMED, CANCELLED or FAILED are not watched unless a
    pending trade holds them too. *)
Theorem get_coins_of_interest_spec (w : Wd) :
  exists d,
    get_coins_of_interest env w = (Ret d, w) /\
    NoDup (map fst d) /\
    (forall n c, dict_get N.eqb d n = Some c ->
       coin_name env c = n /\
       exists t, In t (trades w) /\ is_pending t = true /\
                 In c (coins_of_interest t)) /\
    (forall t c, In t (trades w) -> is_pending t = true ->
       In c (coins_of_interest t) ->
       exists c', dict_get N.eqb d (coin_name env c) = Some c' /\
                  coin_name env c' = coin_name env c).
Proof.
  destruct (all_pending_run w) as (l & Hrun & Hl).
  unfold get_coins_of_interest. rewrite (bind_ret_run _ _ _ _ _ Hrun).
  eexists. split; [reflexivity |].
  destruct (coins_of_interest_loop_spec l []) as (I1 & I2 & _ & I4).
  split; [apply I1; constructor |]. split.
  - intros n c H. apply I2 in H.
    destruct H as [(En & t & Hin & Hc) | H]; [| discriminate].
    split; [exact En |]. exists t. apply Hl in Hin. tauto.
  - intros t c Hin Hp Hc.
    assert (Hl' : In t l) by (apply Hl; auto).
    destruct (is_some _ (I4 t c Hl' Hc)) as [c' E].
    exists c'. split; [exact E |].
    apply I2 in E. destruct E as [[En _] | E]; [exact En | discriminate].
Qed.

(** The loop of [get_locked_coins] over the coin records. *)
Lemma locked_loop_spec (for_wallet : option Z) records :
  forall (d : list (bytes32 * WalletCoinRecord)),
    let wanted record :=
      match for_wallet with
      | None => true
      | Some id => wcr_wallet_id record =? id
      end in
    let d' :=
      fold_left
        (fun result record =>
           if wanted record
           then dict_set N.eqb result (WalletCoinRecord_name env record) record
           else result)
        records d in
    (NoDup (map fst d) -> NoDup (map fst d')) /\
    (forall n r, dict_get N.eqb d' n = Some r ->
       (In r records /\ wanted r = true /\ WalletCoinRecord_name env r = n)
       \/ dict_get N.eqb d n = Some r) /\
    (forall n, dict_get N.eqb d n <> None -> dict_get N.eqb d' n <> None) /\
    (forall r, In r records -> wanted r = true ->
       dict_get N.eqb d' (WalletCoinRecord_name env r) <> None).
Proof.
  induction records as [| r0 records IH]; intros d wanted; simpl.
  - repeat split; auto; try tauto.
  - destruct (wanted r0) eqn:Ew.
    + destruct (IH (dict_set N.eqb d (WalletCoinRecord_name env r0) r0))
        as (I1 & I2 & I3 & I4). fold wanted in I1, I2, I3, I4.
      split; [| split; [| split]].
      * intros Hnd. apply I1. apply dict_set_keys. exact Hnd.
      * intros n r H. apply I2 in H.
        destruct H as [(Hin & Hw & En) | H]; [auto |].
        rewrite dict_get_set in H.
        destruct (N.eqb n (WalletCoinRecord_name env r0)) eqn:E; [| auto].
        apply N.eqb_eq in E. inversion H; subst. auto.
      * intros n H. apply I3. rewrite dict_get_set.
        destruct (N.eqb n (WalletCoinRecord_name env r0));
          [discriminate | exact H].
      * intros r [-> | Hin] Hw; [| auto].
        apply I3. rewrite dict_get_set, N.eqb_refl. discriminate.
    + destruct (IH d) as (I1 & I2 & I3 & I4). fold wanted in I1, I2, I3, I4.
      split; [exact I1 |]. split; [| split; [exact I3 |]].
      * intros n r H. apply I2 in H.
        destruct H as [(Hin & Hw & En) | H]; auto.
      * intros r [-> | Hin] Hw; [congruence | auto].
Qed.

(** [get_locked_coins] reads the store and leaves it alone.  Every entry of
    the dictionary it returns is a record of the coin store, filed under the
    name of its coin, for a coin involved in the offer of a pending trade
    (PENDING_ACCEPT, PENDING_CONFIRM or PENDING_CANCEL) and, when a wallet id
    is given, held by that wallet; and every such record of the coin store
    has an entry under its name. *)
Theorem get_locked_coins_spec (for_wallet : option Z) (w : Wd) :
  let involved t :=
    map (coin_name env)
      (get_involved_coins env (Offer_from_bytes env (offer t))) in
  exists d,
    get_locked_coins env for_wallet w = (Ret d, w) /\
    NoDup (map fst d) /\
    (forall n r, dict_get N.eqb d n = Some r ->
       coin_name env (wcr_coin r) = n /\
       In r (coin_records env) /\
       (forall id, for_wallet = Some id -> wcr_wallet_id r = id) /\
       exists t, In t (trades w) /\ is_pending t = true /\ In n (involved t)) /\
    (forall t r,
       In t (trades w) -> is_pending t = true ->
       In r (coin_records env) ->
       In (coin_name env (wcr_coin r)) (involved t) ->
       (forall id, for_wallet = Some id -> wcr_wallet_id r = id) ->
       exists r', dict_get N.eqb d (coin_name env (wcr_coin r)) = Some r').
Proof.
  intros involved.
  destruct (all_pending_run w) as (l & Hrun & Hl).
  unfold get_locked_coins. rewrite (bind_ret_run _ _ _ _ _ Hrun).
  eexists. split; [reflexivity |].
  match goal with
  | |- context [get_multiple_coin_records env ?names] =>
      set (names0 := names);
      destruct (locked_loop_spec for_wallet
                  (get_multiple_coin_records env names0) [])
        as (I1 & I2 & _ & I4)
  end.
  assert (Hnames : forall n, In n names0 <->
                     exists t, In t l /\ In n (involved t)).
  { intros n. unfold names0. rewrite in_flat_map. reflexivity. }
  assert (Hrec : forall r, In r (get_multiple_coin_records env names0) <->
                   In r (coin_records env) /\
                   In (coin_name env (wcr_coin r)) names0).
  { intros r. unfold get_multiple_coin_records.
    rewrite filter_In, inb_N_In. reflexivity. }
  split; [apply I1; constructor |]. split.
  - intros n r H. apply I2 in H.
    destruct H as [(Hin & Hw & En) | H]; [| discriminate].
    apply Hrec in Hin. destruct Hin as [Hin Hname].
    unfold WalletCoinRecord_name in En. rewrite En in Hname.
    apply Hnames in Hname. destruct Hname as (t & Ht & Hn).
    apply Hl in Ht. destruct Ht as [Ht Hp].
    split; [exact En |]. split; [exact Hin |]. split.
    + intros id ->. apply Z.eqb_eq. exact Hw.
    + exists t. auto.
  - intros t r Ht Hp Hr Hn Hw.
    apply is_some. apply (I4 r).
    + apply Hrec. split; [exact Hr |]. apply Hnames. exists t. split; [| exact Hn].
      apply Hl. auto.
    + destruct for_wallet as [id |]; [| reflexivity].
      apply Z.eqb_eq. apply Hw. reflexivity.
Qed.

Lemma coins_of_interest_sound (w w' : Wd) d n c :
  get_coins_of_interest env w = (Ret d, w') ->
  dict_get N.eqb d n = Some c ->
  coin_name env c = n /\
  exists t, In t (trades w) /\ is_pending t = true /\
            In c (coins_of_interest t).
Proof.
  intros Hrun Hget.
  destruct (all_pending_run w) as (l & Hl_run & Hl).
  unfold get_coins_of_interest in Hrun.
  rewrite (bind_ret_run _ _ _ _ _ Hl_run) in Hrun.
  apply ret_inv in Hrun. destruct Hrun as [Hd _]. subst d.
  destruct (coins_of_interest_loop_spec l []) as (_ & I2 & _).
  apply I2 in Hget.
  destruct Hget as [(En & t & Hin & Hc) | Hget]; [| discriminate].
  apply Hl in Hin. destruct Hin as [Hin Hp].
  split; [exact En |]. exists t. auto.
Qed.

Lemma locked_coins_sound for_wallet (w w' : Wd) d n r :
  get_locked_coins env for_wallet w = (Ret d, w') ->
  dict_get N.eqb d n = Some r ->
  exists t,
    In t (trades w) /\ is_pending t = true /\
    In n (map (coin_name env)
            (get_involved_coins env (Offer_from_bytes env (offer t)))).
Proof.
  intros Hrun Hget.
  destruct (all_pending_run w) as (l & Hl_run & Hl).
  unfold get_locked_coins in Hrun.
  rewrite (bind_ret_run _ _ _ _ _ Hl_run) in Hrun.
  apply ret_inv in Hrun. destruct Hrun as [Hd _]. subst d.
  match type of Hget with
  | context [get_multiple_coin_records env ?names] =>
      destruct (locked_loop_spec for_wallet
                  (get_multiple_coin_records env names) [])
        as (_ & I2 & _)
  end.
  apply I2 in Hget.
  destruct Hget as [(Hin & _ & En) | Hget]; [| discriminate].
  unfold get_multiple_coin_records in Hin.
  apply filter_In in Hin. destruct Hin as [_ Hin].
  apply inb_N_In in Hin. unfold WalletCoinRecord_name in En.
  rewrite En in Hin. apply in_flat_map in Hin.
  destruct Hin as (t & Ht & Hn). apply Hl in Ht.
  exists t. tauto.
Qed.

(** A coin that [get_coins_of_interest] returns resolves to a trade:
    [get_trade_by_coin] finds a trade for it that holds the coin and is not
    CANCELLED, so an event for the coin is not dismissed as belonging to no
    trade. *)
Theorem coin_of_interest_has_trade (w : Wd) d n c :
  get_coins_of_interest env w = (Ret d, w) ->
  dict_get N.eqb d n = Some c ->
  exists t,
    get_trade_by_coin c w = (Ret (Some t), w) /\
    In t (trades w) /\ In c (coins_of_interest t) /\ status t <> CANCELLED.
Proof.
  intros Hrun Hget.
  destruct (coins_of_interest_sound w w d n c Hrun Hget)
    as (_ & t & Hin & Hp & Hc).
  rewrite get_trade_by_coin_run.
  destruct (get_trade_by_coin_loop (trades w) c) as [t' |] eqn:E.
  - exists t'. split; [reflexivity |].
    apply get_trade_by_coin_loop_sound in E. exact E.
  - exfalso. rewrite get_trade_by_coin_loop_none in E.
    apply (E t Hin); [| exact Hc].
    unfold is_pending in Hp. intros Hs. rewrite Hs in Hp. discriminate.
Qed.

(** ** Cancelling without a spend *)

Lemma cancel_pending_offer_run id (w : Wd) :
  cancel_pending_offer env id w
  = (Ret tt,
     logged (set_trades (trades_with_status env id CANCELLED None) w)
       (StateChanged "offer_cancelled")).
Proof. reflexivity. Qed.

Lemma in_trades_with_status id s index l t' :
  In t' (trades_with_status env id s index l) ->
  exists t, In t l /\
            ((trade_id t = id /\ t' = with_status t s index) \/
             (trade_id t <> id /\ t' = t)).
Proof.
  unfold trades_with_status.
  destruct (find (fun t => N.eqb (trade_id t) id) l) as [current |] eqn:E.
  - apply find_some in E. destruct E as [Hc E]. apply N.eqb_eq in E.
    intros H. apply in_put_trade in H. destruct H as [-> | [H1 H2]].
    + exists current. auto.
    + exists t'. simpl in H2. rewrite E in H2. auto.
  - intros H. exists t'. split; [exact H |]. right. split; [| reflexivity].
    pose proof (find_none _ _ E t' H) as Hn. apply N.eqb_neq. exact Hn.
Qed.

Lemma trades_with_status_absent id s index l :
  find (fun t => N.eqb (trade_id t) id) l = None ->
  trades_with_status env id s index l = l.
Proof. intros H. unfold trades_with_status. rewrite H. reflexivity. Qed.

(** [cancel_pending_offer] marks the trade CANCELLED at once, whatever its
    status was, and tells the wallet state manager that an offer was
    cancelled.  It spends nothing: it calls no wallet, stores no
    transaction, and leaves every other trade as it was; when the store has
    no trade under the id it changes no record and still sends the
    notification. *)
Theorem cancel_pending_offer_spec id (w : Wd) :
  let run := cancel_pending_offer env id in
  result run w = Ret tt /\
  transactions (final run w) = transactions w /\
  calls (final run w) = calls w ++ [StateChanged "offer_cancelled"] /\
  derived (final run w) = derived w /\
  (forall t, In t (trades w) -> trade_id t = id ->
     status_of (final run w) id = Some CANCELLED) /\
  (status_of w id = None -> trades (final run w) = trades w) /\
  (forall id', id' <> id ->
     find (fun t => N.eqb (trade_id t) id') (trades (final run w))
     = find (fun t => N.eqb (trade_id t) id') (trades w)).
Proof.
  intros run. unfold run, result, final. rewrite cancel_pending_offer_run.
  simpl. repeat split.
  - intros t Hin <-.
    apply (status_of_updated w _ t CANCELLED None Hin). reflexivity.
  - unfold status_of. intros H. apply trades_with_status_absent.
    destruct (find _ (trades w)); [discriminate | reflexivity].
  - intros id' Hne. apply find_other_id. exact Hne.
Qed.

(** Once [cancel_pending_offer] has run, the trade is out of the
    reconciliation: [get_trade_by_coin] never answers a trade with that id,
    and an event for a coin that no other live trade holds changes nothing,
    so the trade cannot become CONFIRMED or FAILED afterwards. *)
Theorem cancelled_trade_is_ignored id (w : Wd) :
  let w1 := final (cancel_pending_offer env id) w in
  (forall coin t,
     result (get_trade_by_coin coin) w1 = Ret (Some t) -> trade_id t <> id) /\
  (forall coin_state fork_height,
     (forall t, In t (trades w) -> trade_id t <> id ->
        status t = CANCELLED \/
        ~ In (cs_coin coin_state) (coins_of_interest t)) ->
     coins_of_interest_farmed env coin_state fork_height w1 = (Ret tt, w1)).
Proof.
  intros w1.
  assert (Ht : trades w1 = trades_with_status env id CANCELLED None (trades w)).
  { unfold w1, final. rewrite cancel_pending_offer_run. reflexivity. }
  clearbody w1.
  split.
  - intros coin t H. unfold result in H. rewrite get_trade_by_coin_run in H.
    simpl in H. inversion H as [E]. clear H.
    apply get_trade_by_coin_loop_sound in E. destruct E as (Hin & _ & Hs).
    rewrite Ht in Hin. apply in_trades_with_status in Hin.
    destruct Hin as (t0 & _ & [[_ ->] | [Hne ->]]).
    + exfalso. apply Hs. reflexivity.
    + exact Hne.
  - intros coin_state fork_height Hothers.
    apply farmed_not_in_trade. apply get_trade_by_coin_loop_none.
    intros t Hin Hs. rewrite Ht in Hin. apply in_trades_with_status in Hin.
    destruct Hin as (t0 & Hin0 & [[_ ->] | [Hne ->]]).
    + exfalso. apply Hs. reflexivity.
    + destruct (Hothers t0 Hin0 Hne) as [H | H]; [contradiction | exact H].
Qed.

(** Once [cancel_pending_offer] has run, the coins of the trade are
    released: every coin [get_coins_of_interest] still returns, and every
    record [get_locked_coins] still returns, is there for a pending trade
    with another id. *)
Theorem cancel_releases_coins id (w : Wd) :
  let w1 := final (cancel_pending_offer env id) w in
  (forall d n c,
     result (get_coins_of_interest env) w1 = Ret d ->
     dict_get N.eqb d n = Some c ->
     exists t, In t (trades w) /\ trade_id t <> id /\
               is_pending t = true /\ In c (coins_of_interest t)) /\
  (forall for_wallet d n r,
     result (get_locked_coins env for_wallet) w1 = Ret d ->
     dict_get N.eqb d n = Some r ->
     exists t, In t (trades w) /\ trade_id t <> id /\
               is_pending t = true /\
               In n (map (coin_name env)
                       (get_involved_coins env
                          (Offer_from_bytes env (offer t))))).
Proof.
  intros w1.
  assert (Ht : trades w1 = trades_with_status env id CANCELLED None (trades w)).
  { unfold w1, final. rewrite cancel_pending_offer_run. reflexivity. }
  clearbody w1.
  assert (Hback : forall t, In t (trades w1) -> is_pending t = true ->
                    In t (trades w) /\ trade_id t <> id).
  { intros t Hin Hp. rewrite Ht in Hin. apply in_trades_with_status in Hin.
    destruct Hin as (t0 & Hin0 & [[_ ->] | [Hne ->]]); [discriminate | auto]. }
  split.
  - intros d n c Hrun Hget. unfold result in Hrun.
    destruct (get_coins_of_interest env w1) as [o w2] eqn:E.
    simpl in Hrun. subst o.
    destruct (coins_of_interest_sound w1 w2 d n c E Hget)
      as (_ & t & Hin & Hp & Hc).
    destruct (Hback t Hin Hp). exists t. auto.
  - intros for_wallet d n r Hrun Hget. unfold result in Hrun.
    destruct (get_locked_coins env for_wallet w1) as [o w2] eqn:E.
    simpl in Hrun. subst o.
    destruct (locked_coins_sound for_wallet w1 w2 d n r E Hget)
      as (t & Hin & Hp & Hn).
    destruct (Hback t Hin Hp). exists t. auto.
Qed.
(** ** Properties of the trade store that every operation keeps *)

Lemma ks_maybe_create_wallets o :
  keeps_stores (maybe_create_wallets_for_offer env o).
Proof. unfold maybe_create_wallets_for_offer. ks. Qed.

(** ** Computations that leave the clock alone *)

Lemma kc_ret {A} (a : A) : keeps_clock (ret a : Tm A).
Proof. intros w. reflexivity. Qed.

Lemma kc_raise {A} (e : error) : keeps_clock (raise e : Tm A).
Proof. intros w. reflexivity. Qed.

Lemma kc_lift {A} (o : Outcome A) : keeps_clock (lift o : Tm A).
Proof. intros w. reflexivity. Qed.

Lemma kc_gets {A} (f : Wd -> A) : keeps_clock (gets f).
Proof. intros w. reflexivity. Qed.

Lemma kc_log_call (c : Call PuzzleInfo Solver Announcement) :
  keeps_clock (log_call c : Tm unit).
Proof. intros w. reflexivity. Qed.

Lemma kc_get_new_puzzlehash
  (wl : Wallet SpendBundle PuzzleInfo Solver Announcement) :
  keeps_clock (get_new_puzzlehash wl).
Proof. intros w. reflexivity. Qed.

Lemma kc_bind {A B} (m : Tm A) (k : A -> Tm B) :
  keeps_clock m -> (forall a, keeps_clock (k a)) -> keeps_clock (bind m k).
Proof.
  intros Hm Hk w. specialize (Hm w). unfold final, bind in *.
  destruct (m w) as [[a | e] w1]; simpl in *; [| exact Hm].
  specialize (Hk a w1). unfold final in Hk. congruence.
Qed.

Lemma kc_try_except {A} (m : Tm A) (h : error -> Tm A) :
  keeps_clock m -> (forall e, keeps_clock (h e)) ->
  keeps_clock (try_except m h).
Proof.
  intros Hm Hh w. specialize (Hm w). unfold final, try_except in *.
  destruct (m w) as [[a | e] w1]; simpl in *; [exact Hm |].
  specialize (Hh e w1). unfold final in Hh. congruence.
Qed.

Lemma kc_for_fold {A S} (l : list A) (body : S -> A -> Tm S) :
  (forall s x, keeps_clock (body s x)) ->
  forall s, keeps_clock (for_fold l body s).
Proof.
  intros Hb. induction l as [| x l IH]; intros s; simpl.
  - apply kc_ret.
  - apply kc_bind; [apply Hb | exact IH].
Qed.

Lemma kc_for_each {A} (l : list A) (body : A -> Tm unit) :
  (forall x, keeps_clock (body x)) -> keeps_clock (for_each l body).
Proof.
  intros Hb. induction l as [| x l IH]; simpl.
  - apply kc_ret.
  - apply kc_bind; [apply Hb | intros _; exact IH].
Qed.

Ltac kc_step :=
  match goal with
  | |- keeps_clock (bind _ _) => apply kc_bind; [| intros ?]
  | |- keeps_clock (ret _) => apply kc_ret
  | |- keeps_clock (raise _) => apply kc_raise
  | |- keeps_clock (lift _) => apply kc_lift
  | |- keeps_clock (gets _) => apply kc_gets
  | |- keeps_clock time_time => apply kc_gets
  | |- keeps_clock (log_call _) => apply kc_log_call
  | |- keeps_clock (get_new_puzzlehash _) => apply kc_get_new_puzzlehash
  | |- keeps_clock (for_fold _ _ _) => apply kc_for_fold; intros ? ?
  | |- keeps_clock (for_each _ _) => apply kc_for_each; intros ?
  | |- keeps_clock (try_except _ _) => apply kc_try_except; [| intros ?]
  | |- keeps_clock (match ?x with _ => _ end) => destruct x
  end.

Ltac kc := repeat kc_step.

(** Building an offer and creating the wallets it needs both leave the
    clock alone. *)
Lemma kc_create_offer offer_dict driver_dict fee :
  keeps_clock (_create_offer_for_ids env offer_dict driver_dict fee).
Proof.
  unfold _create_offer_for_ids.
  apply kc_try_except; [| intros; apply kc_ret].
  apply kc_bind; [| intros; apply kc_ret].
  unfold create_offer_body.
  apply kc_bind.
  { apply kc_for_fold. intros v entry.
    unfold offer_entry, is_positive_int, reconcile_driver,
      call_get_coins_to_offer, wallets_lookup.
    kc. }
  intros v. apply kc_bind; [apply kc_lift |].
  intros np. apply kc_bind; [apply kc_lift |].
  intros ann. apply kc_bind; [| intros; apply kc_ret].
  apply kc_for_fold. intros txs item.
  unfold offer_transactions, call_create_offer_transactions, wallets_lookup.
  kc.
Qed.

Lemma kc_maybe_create_wallets o :
  keeps_clock (maybe_create_wallets_for_offer env o).
Proof. unfold maybe_create_wallets_for_offer. kc. Qed.

Lemma ki_same (Q : list TradeRecord -> Prop) {A} (m : Tm A) :
  (forall w, trades (final m w) = trades w) -> keeps_invariant Q m.
Proof. intros H w HQ. rewrite H. exact HQ. Qed.

Lemma ki_ks (Q : list TradeRecord -> Prop) {A} (m : Tm A) :
  keeps_stores m -> keeps_invariant Q m.
Proof. intros H. apply ki_same. intros w. apply H. Qed.

Lemma ki_rco (Q : list TradeRecord -> Prop) {A} (m : Tm A) :
  reads_clock_only m -> keeps_invariant Q m.
Proof.
  intros H. apply ki_same. intros w. destruct (H w) as [-> _]. reflexivity.
Qed.

Lemma ki_bind (Q : list TradeRecord -> Prop) {A B} (m : Tm A)
  (k : A -> Tm B) :
  keeps_invariant Q m -> (forall a, keeps_invariant Q (k a)) ->
  keeps_invariant Q (bind m k).
Proof.
  intros Hm Hk w HQ. specialize (Hm w HQ). unfold final, bind in *.
  destruct (m w) as [[a | e] w1]; simpl in *; [| exact Hm].
  apply (Hk a w1 Hm).
Qed.

Lemma ki_for_each (Q : list TradeRecord -> Prop) {A} (l : list A)
  (body : A -> Tm unit) :
  (forall x, keeps_invariant Q (body x)) ->
  keeps_invariant Q (for_each l body).
Proof.
  intros Hb. induction l as [| x l IH]; simpl.
  - apply ki_ks, ks_ret.
  - apply ki_bind; [apply Hb | intros _; exact IH].
Qed.

Lemma ki_set_status (Q : list TradeRecord -> Prop) id s b index :
  store_stable env Q ->
  keeps_invariant Q (TradeStore_set_status env id s b index : Tm unit).
Proof. intros [H _] w HQ. apply (H id s index _ HQ). Qed.

Lemma ki_add_trade_record (Q : list TradeRecord -> Prop) t b :
  store_stable env Q ->
  keeps_invariant Q (TradeStore_add_trade_record env t b : Tm unit).
Proof. intros [_ H] w HQ. apply (H t _ HQ). Qed.

Lemma ki_save_trade (Q : list TradeRecord -> Prop) t :
  store_stable env Q -> keeps_invariant Q (save_trade env t : Tm unit).
Proof.
  intros HQ. unfold save_trade. apply ki_bind.
  - apply ki_add_trade_record, HQ.
  - intros _. apply ki_ks, ks_log_call.
Qed.

Lemma ki_add_transaction (Q : list TradeRecord -> Prop)
  (tx : TransactionRecord SpendBundle) b :
  keeps_invariant Q (add_transaction tx b : Tm unit).
Proof. apply ki_same. reflexivity. Qed.

Lemma ki_add_pending_transaction (Q : list TradeRecord -> Prop)
  (tx : TransactionRecord SpendBundle) :
  keeps_invariant Q (add_pending_transaction tx : Tm unit).
Proof. apply ki_same. reflexivity. Qed.

Lemma ki_farmed (Q : list TradeRecord -> Prop) coin_state fork_height :
  store_stable env Q ->
  keeps_invariant Q (coins_of_interest_farmed env coin_state fork_height).
Proof.
  intros HQ. unfold coins_of_interest_farmed.
  apply ki_bind; [apply ki_same; reflexivity |].
  intros [trade |]; [| apply ki_ks, ks_ret].
  match goal with |- keeps_invariant _ (if ?b then _ else _) => destruct b end.
  - apply ki_bind; [apply ki_ks, ks_lift | intros height].
    apply ki_bind; [apply ki_set_status, HQ | intros _].
    apply ki_bind;
      [apply ki_rco, calculate_tx_records_reads_clock_only | intros txs].
    apply ki_for_each. intros tx.
    destruct (TradeStatus_eqb (status trade) PENDING_ACCEPT);
      [apply ki_add_transaction | apply ki_ks, ks_ret].
  - apply ki_bind; [apply ki_same; reflexivity | intros _].
    destruct (TradeStatus_eqb (status trade) PENDING_CANCEL);
      [apply ki_set_status, HQ |].
    destruct (TradeStatus_eqb (status trade) PENDING_CONFIRM);
      [apply ki_set_status, HQ | apply ki_ks, ks_ret].
Qed.

Lemma ki_cancel (Q : list TradeRecord -> Prop) id :
  store_stable env Q -> keeps_invariant Q (cancel_pending_offer env id : Tm unit).
Proof.
  intros HQ. unfold cancel_pending_offer. apply ki_bind.
  - apply ki_set_status, HQ.
  - intros _. apply ki_ks, ks_log_call.
Qed.

Lemma ki_cancel_safely (Q : list TradeRecord -> Prop) id fee :
  store_stable env Q ->
  keeps_invariant Q (cancel_pending_offer_safely env id fee).
Proof.
  intros HQ. unfold cancel_pending_offer_safely.
  apply ki_bind; [apply ki_same; reflexivity |].
  intros [trade |]; [| apply ki_ks, ks_ret].
  apply ki_bind.
  { apply ki_ks, ks_for_fold. intros st coin. apply ks_cancel_coin. }
  intros st. apply ki_bind.
  { apply ki_for_each. intros tx. apply ki_add_pending_transaction. }
  intros _. apply ki_bind; [apply ki_set_status, HQ | intros _].
  apply ki_ks, ks_ret.
Qed.

Lemma ki_create_offer_for_ids (Q : list TradeRecord -> Prop)
  offer_dict given_drivers fee validate_only :
  store_stable env Q ->
  keeps_invariant Q
    (create_offer_for_ids env offer_dict given_drivers fee validate_only).
Proof.
  intros HQ. unfold create_offer_for_ids.
  apply ki_bind; [apply ki_ks, ks_create_offer |].
  intros [[success created] err].
  destruct success; [| apply ki_ks, ks_raise].
  destruct created as [created |]; [| apply ki_ks, ks_raise].
  apply ki_bind; [apply ki_ks, ks_gets | intros t].
  apply ki_bind; [| intros _; apply ki_ks, ks_ret].
  destruct (negb validate_only); [apply ki_save_trade, HQ | apply ki_ks, ks_ret].
Qed.

Lemma ki_respond_to_offer (Q : list TradeRecord -> Prop) o fee :
  store_stable env Q -> keeps_invariant Q (respond_to_offer env o fee).
Proof.
  intros HQ. unfold respond_to_offer.
  destruct (take_offer_entries env (arbitrage env o) []) as [msg | d];
    [apply ki_ks, ks_ret |].
  destruct (negb (check_offer_validity env o)); [apply ki_ks, ks_ret |].
  apply ki_bind; [apply ki_ks, ks_create_offer |].
  intros [[success take] err].
  destruct success; [| apply ki_ks, ks_ret].
  destruct take as [take |]; [| apply ki_ks, ks_ret].
  apply ki_bind; [apply ki_ks, ks_lift | intros complete].
  apply ki_bind.
  { destruct (is_valid env complete); [apply ki_ks, ks_ret
                                      | apply ki_ks, ks_raise]. }
  intros _. apply ki_bind; [apply ki_ks, ks_lift | intros sb].
  apply ki_bind; [apply ki_ks, ks_maybe_create_wallets | intros _].
  apply ki_bind;
    [apply ki_rco, calculate_tx_records_reads_clock_only | intros txs].
  apply ki_bind; [apply ki_ks, ks_gets | intros accepted].
  apply ki_bind; [apply ki_ks, ks_gets | intros created].
  apply ki_bind; [apply ki_save_trade, HQ | intros _].
  apply ki_bind; [apply ki_ks, ks_gets | intros created'].
  apply ki_bind; [apply ki_add_pending_transaction | intros _].
  apply ki_bind; [| intros _; apply ki_ks, ks_ret].
  apply ki_for_each. intros tx. apply ki_add_transaction.
Qed.

(** The ids of the store after a record was stored. *)
Lemma put_trade_unique t l :
  NoDup (map trade_id l) -> NoDup (map trade_id (put_trade env t l)).
Proof.
  intros H. destruct (put_trade_shape t l) as (pre & post & -> & E).
  rewrite map_app. simpl.
  apply (Permutation_NoDup (Permutation_middle _ _ _)).
  rewrite <- map_app, E. constructor.
  - intros Hin. apply in_map_iff in Hin. destruct Hin as (x & Hx & Hf).
    apply filter_In in Hf. destruct Hf as [_ Hf].
    rewrite Hx, N.eqb_refl in Hf. discriminate.
  - apply NoDup_map_filter. exact H.
Qed.

Lemma put_trade_known t l id :
  In id (map trade_id l) -> In id (map trade_id (put_trade env t l)).
Proof.
  intros H. apply in_map_iff in H. destruct H as (x & Hx & Hin).
  apply in_map_iff.
  destruct (N.eq_dec (trade_id x) (trade_id t)) as [E | E].
  - exists t. split; [congruence |]. apply in_put_trade. auto.
  - exists x. split; [exact Hx |]. apply in_put_trade. auto.
Qed.

Lemma unique_ids_stable :
  store_stable env (fun l => NoDup (map trade_id l)).
Proof.
  split.
  - intros id s index l H. unfold trades_with_status.
    destruct (find _ l); [apply put_trade_unique |]; exact H.
  - intros t l H. apply put_trade_unique. exact H.
Qed.

Lemma known_id_stable id :
  store_stable env (fun l => In id (map trade_id l)).
Proof.
  split.
  - intros id' s index l H. unfold trades_with_status.
    destruct (find _ l); [apply put_trade_known |]; exact H.
  - intros t l H. apply put_trade_known. exact H.
Qed.

(** The store holds at most one record per trade id, and every operation
    of the manager keeps it so: reconciling a coin event, both
    cancellations, saving a trade, creating an offer and accepting one. *)
Theorem trade_ids_stay_unique (w : Wd) :
  NoDup (map trade_id (trades w)) ->
  let unique (w' : Wd) := NoDup (map trade_id (trades w')) in
  (forall coin_state fork_height,
     unique (final (coins_of_interest_farmed env coin_state fork_height) w)) /\
  (forall id, unique (final (cancel_pending_offer env id) w)) /\
  (forall id fee, unique (final (cancel_pending_offer_safely env id fee) w)) /\
  (forall t, unique (final (save_trade env t) w)) /\
  (forall offer_dict given_drivers fee validate_only,
     unique (final (create_offer_for_ids env offer_dict given_drivers fee
                      validate_only) w)) /\
  (forall o fee, unique (final (respond_to_offer env o fee) w)).
Proof.
  intros H unique. unfold unique.
  pose proof unique_ids_stable as HQ.
  repeat split; intros.
  - apply (ki_farmed _ coin_state fork_height HQ w H).
  - apply (ki_cancel _ id HQ w H).
  - apply (ki_cancel_safely _ id fee HQ w H).
  - apply (ki_save_trade _ t HQ w H).
  - apply (ki_create_offer_for_ids _ offer_dict given_drivers fee
             validate_only HQ w H).
  - apply (ki_respond_to_offer _ o fee HQ w H).
Qed.

(** No operation of the manager removes a trade from the store: a trade id
    the store holds is still there after reconciling a coin event, after
    either cancellation, after saving a trade, and after creating or
    accepting an offer, whether the operation returned or raised. *)
Theorem trades_are_never_removed (w : Wd) id0 :
  In id0 (map trade_id (trades w)) ->
  let known (w' : Wd) := In id0 (map trade_id (trades w')) in
  (forall coin_state fork_height,
     known (final (coins_of_interest_farmed env coin_state fork_height) w)) /\
  (forall id, known (final (cancel_pending_offer env id) w)) /\
  (forall id fee, known (final (cancel_pending_offer_safely env id fee) w)) /\
  (forall t, known (final (save_trade env t) w)) /\
  (forall offer_dict given_drivers fee validate_only,
     known (final (create_offer_for_ids env offer_dict given_drivers fee
                     validate_only) w)) /\
  (forall o fee, known (final (respond_to_offer env o fee) w)).
Proof.
  intros H known. unfold known.
  pose proof (known_id_stable id0) as HQ.
  repeat split; intros.
  - apply (ki_farmed _ coin_state fork_height HQ w H).
  - apply (ki_cancel _ id HQ w H).
  - apply (ki_cancel_safely _ id fee HQ w H).
  - apply (ki_save_trade _ t HQ w H).
  - apply (ki_create_offer_for_ids _ offer_dict given_drivers fee
             validate_only HQ w H).
  - apply (ki_respond_to_offer _ o fee HQ w H).
Qed.
(** ** What a coin event may change *)

Lemma farmed_trades_cases coin_state fork_height (w : Wd) :
  let w' := final (coins_of_interest_farmed env coin_state fork_height) w in
  calls w' = calls w /\ derived w' = derived w /\
  (trades w' = trades w \/
   exists trade s index,
     get_trade_by_coin_loop (trades w) (cs_coin coin_state) = Some trade /\
     (s = CONFIRMED \/ s = CANCELLED \/ s = FAILED) /\
     trades w' = trades_with_status env (trade_id trade) s index (trades w)).
Proof.
  intros w'. unfold w', final.
  destruct (get_trade_by_coin_loop (trades w) (cs_coin coin_state))
    as [trade |] eqn:Eloop.
  2: { rewrite (farmed_not_in_trade _ _ _ Eloop). simpl. auto. }
  set (o := Offer_from_bytes env (offer trade)).
  destruct (intersects (our_settlement_ids env o)
              (map (fun cs => coin_name env (cs_coin cs))
                 (get_coin_state env (our_settlement_ids env o) fork_height)))
    eqn:Eint.
  - apply intersects_settlement_known in Eint.
    destruct (settlement_known_first fork_height o Eint)
      as (first & rest & Efirst).
    rewrite (farmed_confirm_run coin_state fork_height w trade first rest
               Eloop Efirst Eint).
    subst o.
    destruct (result (calculate_tx_records_for_offer env
                        (Offer_from_bytes env (offer trade)) false) w);
      simpl; (split; [reflexivity |]); (split; [reflexivity |]); right;
      exists trade, CONFIRMED, (spent_height first); auto.
  - assert (Hn : ~ settlement_known env fork_height o).
    { intros H. apply intersects_settlement_known in H. congruence. }
    rewrite (farmed_fail_run coin_state fork_height w trade Eloop Hn).
    simpl. split; [reflexivity |]. split; [reflexivity |].
    destruct (status trade); auto; right.
    + exists trade, FAILED, None. auto.
    + exists trade, CANCELLED, None. auto.
Qed.

(** What a coin event may change in the trade store.
    [coins_of_interest_farmed] changes nothing at all when no live trade
    holds the coin; otherwise it touches no trade but the one
    [get_trade_by_coin] answers, and a status it changes becomes CONFIRMED,
    CANCELLED or FAILED: it never puts a trade into a pending status. *)
Theorem coins_of_interest_farmed_frame coin_state fork_height (w : Wd) :
  let run := coins_of_interest_farmed env coin_state fork_height in
  let found := get_trade_by_coin_loop (trades w) (cs_coin coin_state) in
  (found = None -> run w = (Ret tt, w)) /\
  (forall id s,
     status_of (final run w) id = Some s ->
     status_of w id = Some s \/
     (s = CONFIRMED \/ s = CANCELLED \/ s = FAILED)) /\
  (forall trade id,
     found = Some trade -> id <> trade_id trade ->
     find (fun t => N.eqb (trade_id t) id) (trades (final run w))
     = find (fun t => N.eqb (trade_id t) id) (trades w)).
Proof.
  intros run found.
  destruct (farmed_trades_cases coin_state fork_height w) as (_ & _ & Ht).
  fold run in Ht.
  split.
  { intros H. apply farmed_not_in_trade. exact H. }
  split.
  - intros id s Hs.
    destruct Ht as [Ht | (trade & s' & index & _ & Hterm & Ht)].
    { left. unfold status_of in *. rewrite Ht in Hs. exact Hs. }
    unfold status_of in *. rewrite Ht in Hs.
    destruct (N.eq_dec id (trade_id trade)) as [-> | Hne].
    + rewrite find_trades_with_status in Hs.
      destruct (find _ (trades w)); [| discriminate].
      simpl in Hs. inversion Hs; subst. right. exact Hterm.
    + rewrite find_other_id in Hs by exact Hne. left. exact Hs.
  - intros trade id Hfound Hne.
    destruct Ht as [Ht | (trade' & s' & index & Hfound' & _ & Ht)].
    { rewrite Ht. reflexivity. }
    unfold found in Hfound. rewrite Hfound in Hfound'.
    inversion Hfound'; subst trade'. rewrite Ht.
    apply find_other_id. exact Hne.
Qed.

(** ** Safe cancellation, then the chain *)

Lemma cancel_safely_trades id fee (w : Wd) trade txs :
  find (fun t => N.eqb (trade_id t) id) (trades w) = Some trade ->
  result (cancel_pending_offer_safely env id fee) w = Ret (Some txs) ->
  trades (final (cancel_pending_offer_safely env id fee) w)
  = trades_with_status env id PENDING_CANCEL None (trades w).
Proof.
  intros Hfind Hres.
  assert (E0 : TradeStore_get_trade_record id w = (Ret (Some trade), w)).
  { unfold TradeStore_get_trade_record, gets. rewrite Hfind. reflexivity. }
  set (coins := get_primary_coins env (Offer_from_bytes env (offer trade))).
  pose proof (ks_for_fold coins (cancel_coin env fee)
                (ks_cancel_coin fee) ([], fee) w) as [Hkt _].
  unfold final in Hkt. unfold result in Hres. unfold final.
  unfold cancel_pending_offer_safely in *.
  rewrite (bind_ret_run _ _ _ _ _ E0) in *. fold coins in Hres |- *.
  destruct (for_fold coins (cancel_coin env fee) ([], fee) w)
    as [[[txs1 f1] | e] w1] eqn:Eloop; simpl in Hkt.
  - destruct (add_pending_run fee txs1 w1) as (w2 & Hrun2 & Ht2 & _).
    rewrite (bind_ret_run _ _ _ _ _ Eloop). simpl fst.
    rewrite (bind_ret_run _ _ _ _ _ Hrun2). simpl.
    rewrite Ht2, Hkt. reflexivity.
  - rewrite (bind_raise_run _ _ _ _ _ Eloop) in Hres. discriminate.
Qed.

(** The race between a safe cancellation and the taker.  After
    [cancel_pending_offer_safely] has returned for a trade, an event for one
    of its coins that no other live trade holds settles the trade: it
    becomes CANCELLED when the node knows none of this side's settlement
    payments, and CONFIRMED when one of them has been spent -- the first
    coin state the node returns for them carrying a spent height -- in which
    case no transaction record is added for the trade. *)
Theorem safe_cancel_then_event
  fee (w : Wd) trade txs coin_state fork_height :
  NoDup (map trade_id (trades w)) ->
  get_trade_by_coin_loop (trades w) (cs_coin coin_state) = Some trade ->
  (forall t, In t (trades w) -> trade_id t <> trade_id trade ->
     status t = CANCELLED \/
     ~ In (cs_coin coin_state) (coins_of_interest t)) ->
  result (cancel_pending_offer_safely env (trade_id trade) fee) w
    = Ret (Some txs) ->
  let w1 := final (cancel_pending_offer_safely env (trade_id trade) fee) w in
  let w2 := final (coins_of_interest_farmed env coin_state fork_height) w1 in
  let o := Offer_from_bytes env (offer trade) in
  status_of w1 (trade_id trade) = Some PENDING_CANCEL /\
  (~ settlement_known env fork_height o ->
   result (coins_of_interest_farmed env coin_state fork_height) w1 = Ret tt /\
   status_of w2 (trade_id trade) = Some CANCELLED) /\
  (forall first rest h,
     get_coin_state env (our_settlement_ids env o) fork_height
       = first :: rest ->
     spent_height first = Some h ->
     status_of w2 (trade_id trade) = Some CONFIRMED /\
     transactions w2 = transactions w1).
Proof.
  intros Hnd Hloop Hothers Hres w1 w2 o.
  destruct (get_trade_by_coin_loop_sound _ _ _ Hloop) as (Hin & _ & _).
  pose proof (find_unique _ _ Hnd Hin) as Hfind.
  pose proof (cancel_safely_trades _ fee w trade txs Hfind Hres) as Ht1.
  fold w1 in Ht1.
  assert (Hloop1 : get_trade_by_coin_loop (trades w1) (cs_coin coin_state)
                   = Some (with_status trade PENDING_CANCEL None)).
  { rewrite Ht1. apply loop_after_update;
      [exact Hnd | exact Hothers | discriminate | exact Hloop]. }
  destruct (get_trade_by_coin_loop_sound _ _ _ Hloop1) as (Hin1 & _ & _).
  split.
  { apply (status_of_updated w w1 trade PENDING_CANCEL None Hin Ht1). }
  split.
  - intros Hn.
    pose proof (farmed_fail_run coin_state fork_height w1 _ Hloop1 Hn) as Hrun.
    simpl in Hrun. unfold w2, result, final. rewrite Hrun. simpl.
    split; [reflexivity |].
    apply (status_of_updated w1 _ (with_status trade PENDING_CANCEL None)
             CANCELLED None Hin1). reflexivity.
  - intros first rest h Efirst Hh.
    pose proof (settlement_spent_known _ _
                  (first_state_spent _ _ _ _ _ Efirst Hh)) as Hk.
    pose proof (farmed_confirm_run coin_state fork_height w1 _ first rest
                  Hloop1 Efirst Hk) as Hrun.
    simpl in Hrun. unfold w2, final. rewrite Hrun.
    destruct (result (calculate_tx_records_for_offer env
                        (Offer_from_bytes env (offer trade)) false) w1);
      simpl.
    + split; [| apply app_nil_r].
      apply (status_of_updated w1 _ (with_status trade PENDING_CANCEL None)
               CONFIRMED (spent_height first) Hin1). reflexivity.
    + split; [| reflexivity].
      apply (status_of_updated w1 _ (with_status trade PENDING_CANCEL None)
               CONFIRMED (spent_height first) Hin1). reflexivity.
Qed.

(** [cancel_pending_offer_safely] answers [None] exactly when the store has
    no trade under the id, and then it has done nothing: no wallet was
    called, nothing was stored and no status was set. *)
Theorem cancel_unknown_trade id fee (w : Wd) :
  let run := cancel_pending_offer_safely env id fee in
  (result run w = Ret None <-> result (get_trade_by_id id) w = Ret None) /\
  (result (get_trade_by_id id) w = Ret None -> run w = (Ret None, w)).
Proof.
  intros run.
  assert (Hnone : result (get_trade_by_id id) w = Ret None ->
                  run w = (Ret None, w)).
  { unfold result, get_trade_by_id, TradeStore_get_trade_record, gets.
    simpl. intros H. inversion H as [H1].
    unfold run, cancel_pending_offer_safely, bind,
      TradeStore_get_trade_record, gets. rewrite H1. reflexivity. }
  split; [| exact Hnone]. split.
  - intros Hres.
    unfold result, get_trade_by_id, TradeStore_get_trade_record, gets.
    simpl.
    destruct (find (fun t => N.eqb (trade_id t) id) (trades w))
      as [trade |] eqn:Hfind; [| reflexivity].
    exfalso.
    assert (E0 : TradeStore_get_trade_record id w = (Ret (Some trade), w)).
    { unfold TradeStore_get_trade_record, gets. rewrite Hfind. reflexivity. }
    unfold result, run, cancel_pending_offer_safely in Hres.
    rewrite (bind_ret_run _ _ _ _ _ E0) in Hres.
    destruct (for_fold
                (get_primary_coins env (Offer_from_bytes env (offer trade)))
                (cancel_coin env fee) ([], fee) w)
      as [[[txs1 f1] | e] w1] eqn:Eloop.
    + destruct (add_pending_run fee txs1 w1) as (w2 & Hrun2 & _).
      rewrite (bind_ret_run _ _ _ _ _ Eloop) in Hres. simpl fst in Hres.
      rewrite (bind_ret_run _ _ _ _ _ Hrun2) in Hres. discriminate.
    + rewrite (bind_raise_run _ _ _ _ _ Eloop) in Hres. discriminate.
  - intros H. unfold result. rewrite (Hnone H). reflexivity.
Qed.
(** ** Storing a trade and finding it again *)

(** When the construction succeeds, [create_offer_for_ids] answers a trade
    record for the offer that is PENDING_ACCEPT and marked as this side's
    own, filed under the offer's name with the offer's involved coins as
    coins of interest.  With [validate_only] nothing is stored and nobody is
    notified; without it the record is stored, [get_trade_by_id] answers it
    under the offer's name, the other trades are as before, and the wallet
    state manager is told that an offer was added.  No transaction is stored
    either way. *)
Theorem create_offer_for_ids_stores
  offer_dict given_drivers fee validate_only (w : Wd) o :
  let build := _create_offer_for_ids env offer_dict given_drivers fee in
  let run :=
    create_offer_for_ids env offer_dict given_drivers fee validate_only in
  result build w = Ret (true, Some o, None) ->
  exists trade,
    result run w = Ret (true, Some trade, None) /\
    trade_id trade = Offer_name env o /\
    status trade = PENDING_ACCEPT /\
    is_my_offer trade = true /\
    offer trade = Offer_to_bytes env o /\
    coins_of_interest trade = get_involved_coins env o /\
    taken_offer trade = None /\
    transactions (final run w) = transactions w /\
    (validate_only = true -> final run w = final build w /\
                             trades (final run w) = trades w) /\
    (validate_only = false ->
     result (get_trade_by_id (Offer_name env o)) (final run w)
       = Ret (Some trade) /\
     calls (final run w)
       = calls (final build w) ++ [StateChanged "offer_added"] /\
     forall id, id <> Offer_name env o ->
       find (fun t => N.eqb (trade_id t) id) (trades (final run w))
       = find (fun t => N.eqb (trade_id t) id) (trades w)).
Proof.
  intros build run Hres.
  destruct (ks_create_offer offer_dict given_drivers fee w) as [Hkt Hkx].
  fold build in Hkt, Hkx. unfold final in *. unfold result in *.
  unfold run, create_offer_for_ids.
  rewrite create_offer_default_dict. fold build.
  destruct (build w) as [r w1] eqn:E. simpl in Hres, Hkt, Hkx. subst r.
  rewrite (bind_ret_run _ _ _ _ _ E).
  set (trade :=
         {| confirmed_at_index := 0;
            accepted_at_time := None;
            created_at_time := now w1;
            is_my_offer := true;
            sent := 0;
            offer := Offer_to_bytes env o;
            taken_offer := None;
            coins_of_interest := get_involved_coins env o;
            trade_id := Offer_name env o;
            status := PENDING_ACCEPT;
            sent_to := [] |}).
  exists trade. split; [destruct validate_only; reflexivity |].
  do 6 (split; [reflexivity |]).
  split; [destruct validate_only; simpl; exact Hkx |].
  split.
  - intros ->. simpl. split; [reflexivity | exact Hkt].
  - intros ->. simpl. split; [| split; [reflexivity |]].
    + exact (f_equal Ret (find_put_trade trade (trades w1))).
    + intros id Hne. rewrite <- Hkt.
      exact (find_put_other trade (trades w1) id Hne).
Qed.

(** ** A missing wallet in [respond_to_offer] *)

Lemma take_offer_entries_inl items :
  forall d e,
    take_offer_entries env items d = inl e ->
    exists pre a amt post,
      items = pre ++ (Some a, amt) :: post /\
      e = NoWalletForAsset a /\
      get_wallet_for_asset_id env a = None /\ amt < 0 /\
      forall a' amt',
        In (Some a', amt') pre ->
        get_wallet_for_asset_id env a' = None -> 0 <= amt'.
Proof.
  induction items as [| [asset amt] items IH]; intros d e H; simpl in H.
  - discriminate.
  - assert (Hrest : forall d',
              take_offer_entries env items d' = inl e ->
              (forall a', asset = Some a' ->
                 get_wallet_for_asset_id env a' = None -> 0 <= amt) ->
              exists pre a amt0 post,
                (asset, amt) :: items = pre ++ (Some a, amt0) :: post /\
                e = NoWalletForAsset a /\
                get_wallet_for_asset_id env a = None /\ amt0 < 0 /\
                forall a' amt',
                  In (Some a', amt') pre ->
                  get_wallet_for_asset_id env a' = None -> 0 <= amt').
    { intros d' Hd' Hhead.
      destruct (IH d' e Hd') as (pre & a & amt0 & post & -> & He & Hw & Hlt
                                 & Hpre).
      exists ((asset, amt) :: pre), a, amt0, post.
      split; [reflexivity |]. split; [exact He |]. split; [exact Hw |].
      split; [exact Hlt |].
      intros a' amt' [Heq | Hin] Hnone.
      - inversion Heq; subst. apply (Hhead a' eq_refl Hnone).
      - apply (Hpre a' amt' Hin Hnone). }
    destruct asset as [a |].
    + destruct (get_wallet_for_asset_id env a) as [wl |] eqn:Ew.
      * apply (Hrest _ H). intros a' Ea. inversion Ea; subst. congruence.
      * destruct (amt <? 0) eqn:Elt.
        -- inversion H; subst. apply Z.ltb_lt in Elt.
           exists [], a, amt, items. repeat split; auto.
           intros a' amt' [].
        -- apply Z.ltb_ge in Elt. apply (Hrest _ H). intros; exact Elt.
    + apply (Hrest _ H). intros a' Ea. discriminate.
Qed.

Lemma take_offer_entries_inr items :
  (forall a amt,
     In (Some a, amt) items ->
     get_wallet_for_asset_id env a = None -> 0 <= amt) ->
  forall d, exists d', take_offer_entries env items d = inr d'.
Proof.
  induction items as [| [asset amt] items IH]; intros Hok d; simpl.
  - eauto.
  - assert (Hok' : forall a amt0,
              In (Some a, amt0) items ->
              get_wallet_for_asset_id env a = None -> 0 <= amt0).
    { intros a amt0 Hin. apply Hok. right. exact Hin. }
    destruct asset as [a |]; [| apply (IH Hok')].
    destruct (get_wallet_for_asset_id env a) as [wl |] eqn:Ew;
      [apply (IH Hok') |].
    assert (Hamt : 0 <= amt) by (apply (Hok a amt); [left; reflexivity | exact Ew]).
    apply Z.ltb_ge in Hamt. rewrite Hamt. apply (IH Hok').
Qed.

(** [respond_to_offer] gives up at once, before it looks at the chain or
    builds anything, exactly when the offer asks this side to pay in an
    asset it has no wallet for: the answer names the first such asset and the
    state is unchanged.  An asset without a wallet that this side would
    receive does not stop it: the validity check is then reached. *)
Theorem respond_to_offer_missing_wallet o fee (w : Wd) :
  let unpayable a amt :=
    In (Some a, amt) (arbitrage env o) /\
    get_wallet_for_asset_id env a = None /\ amt < 0 in
  ((exists a amt, unpayable a amt) ->
   exists pre a amt post,
     arbitrage env o = pre ++ (Some a, amt) :: post /\
     unpayable a amt /\
     (forall a' amt', In (Some a', amt') pre -> ~ unpayable a' amt') /\
     respond_to_offer env o fee w
     = (Ret (false, None, Some (NoWalletForAsset a)), w)) /\
  ((forall a amt, ~ unpayable a amt) ->
   (exists d, take_offer_entries env (arbitrage env o) [] = inr d) /\
   (check_offer_validity env o = false ->
    respond_to_offer env o fee w
    = (Ret (false, None, Some OfferNoLongerValid), w))).
Proof.
  intros unpayable.
  assert (Hiff : (forall a amt, ~ unpayable a amt) ->
                 exists d, take_offer_entries env (arbitrage env o) [] = inr d).
  { intros Hnone. apply take_offer_entries_inr.
    intros a amt Hin Hw.
    destruct (Z.lt_ge_cases amt 0) as [Hlt | Hge]; [| exact Hge].
    exfalso. apply (Hnone a amt). unfold unpayable. auto. }
  split.
  - intros (a0 & amt0 & Hbad).
    destruct (take_offer_entries env (arbitrage env o) []) as [e | d] eqn:E.
    + destruct (take_offer_entries_inl _ _ _ E)
        as (pre & a & amt & post & Hitems & -> & Hw & Hlt & Hpre).
      exists pre, a, amt, post. split; [exact Hitems |]. split; [| split].
      * unfold unpayable. rewrite Hitems. split; [| auto].
        apply in_or_app. right. left. reflexivity.
      * intros a' amt' Hin (_ & Hw' & Hlt').
        pose proof (Hpre a' amt' Hin Hw'). lia.
      * unfold respond_to_offer. rewrite E. reflexivity.
    + exfalso.
      assert (Hinr : forall items d0 d1,
                take_offer_entries env items d0 = inr d1 ->
                forall a amt, In (Some a, amt) items ->
                  get_wallet_for_asset_id env a = None -> 0 <= amt).
      { induction items as [| [asset amt1] items IH];
          intros d0 d1 H a amt Hin Hw; [destruct Hin |].
        simpl in H. destruct Hin as [Heq | Hin].
        - inversion Heq; subst. rewrite Hw in H.
          destruct (amt <? 0) eqn:Elt; [discriminate |].
          apply Z.ltb_ge. exact Elt.
        - destruct asset as [a1 |]; [| apply (IH _ _ H a amt Hin Hw)].
          destruct (get_wallet_for_asset_id env a1);
            [apply (IH _ _ H a amt Hin Hw) |].
          destruct (amt1 <? 0); [discriminate |].
          apply (IH _ _ H a amt Hin Hw). }
      destruct Hbad as (Hin & Hw & Hlt).
      pose proof (Hinr _ _ _ E a0 amt0 Hin Hw). lia.
  - intros Hnone. destruct (Hiff Hnone) as [d E].
    split; [eauto |]. intros Hv.
    unfold respond_to_offer. rewrite E, Hv. reflexivity.
Qed.

(** ** Wallets for the assets of an offer *)

Lemma maybe_create_wallets_loop
  (o : Offer SpendBundle PuzzleInfo NotarizedPayment)
  (body : option bytes32 -> Tm unit) :
  (forall key w,
     body key w
     = match key with
       | None => (Ret tt, w)
       | Some a =>
           match dict_get N.eqb (driver_dict o) a with
           | None => (Raise (KeyError (AssetIdKey a)), w)
           | Some info =>
               match get_wallet_for_puzzle_info env info with
               | Some _ => (Ret tt, w)
               | None => (Ret tt, logged w (CreateWalletForPuzzleInfo info))
               end
           end
       end) ->
  forall keys (w : Wd),
    exists new,
      calls (final (for_each keys body) w) = calls w ++ new /\
      (forall c, In c new ->
         exists a info,
           In (Some a) keys /\
           dict_get N.eqb (driver_dict o) a = Some info /\
           get_wallet_for_puzzle_info env info = None /\
           c = CreateWalletForPuzzleInfo info) /\
      (forall e, result (for_each keys body) w = Raise e ->
         exists a, In (Some a) keys /\
                   dict_get N.eqb (driver_dict o) a = None /\
                   e = KeyError (AssetIdKey a)) /\
      ((forall a, In (Some a) keys ->
          dict_get N.eqb (driver_dict o) a <> None) ->
       result (for_each keys body) w = Ret tt /\
       forall a info,
         In (Some a) keys ->
         dict_get N.eqb (driver_dict o) a = Some info ->
         get_wallet_for_puzzle_info env info = None ->
         In (CreateWalletForPuzzleInfo info) new).
Proof.
  intros Hbody. induction keys as [| key keys IH]; intros w.
  - exists []. unfold result, final; simpl.
    rewrite app_nil_r. repeat split; auto; try tauto; try discriminate.
  - pose proof (Hbody key w) as Hrun.
    unfold result, final in *. simpl for_each.
    destruct key as [a |].
    2: { destruct (IH w) as (new & Hc & Hnew & Hraise & Hret).
         exists new. rewrite (bind_ret_run _ _ _ _ _ Hrun).
         split; [exact Hc |]. split; [| split].
         - intros c Hin. destruct (Hnew c Hin) as (a & info & Ha & H).
           exists a, info. split; [right; exact Ha | exact H].
         - intros e He. destruct (Hraise e He) as (a & Ha & H).
           exists a. split; [right; exact Ha | exact H].
         - intros Hall. destruct Hret as [Hr Hin].
           { intros a Ha. apply Hall. right. exact Ha. }
           split; [exact Hr |].
           intros a info [Ha | Ha]; [discriminate | apply Hin, Ha]. }
    destruct (dict_get N.eqb (driver_dict o) a) as [info |] eqn:Einfo.
    2: { exists []. rewrite (bind_raise_run _ _ _ _ _ Hrun). simpl.
         rewrite app_nil_r. split; [reflexivity |].
         split; [intros c [] |]. split.
         - intros e He. inversion He; subst. exists a.
           split; [left; reflexivity | auto].
         - intros Hall. exfalso.
           apply (Hall a); [left; reflexivity | exact Einfo]. }
    destruct (get_wallet_for_puzzle_info env info) as [wl |] eqn:Ewl.
    + destruct (IH w) as (new & Hc & Hnew & Hraise & Hret).
      exists new. rewrite (bind_ret_run _ _ _ _ _ Hrun).
      split; [exact Hc |]. split; [| split].
      * intros c Hin. destruct (Hnew c Hin) as (a' & info' & Ha & H).
        exists a', info'. split; [right; exact Ha | exact H].
      * intros e He. destruct (Hraise e He) as (a' & Ha & H).
        exists a'. split; [right; exact Ha | exact H].
      * intros Hall. destruct Hret as [Hr Hin].
        { intros a' Ha. apply Hall. right. exact Ha. }
        split; [exact Hr |].
        intros a' info' [Ha | Ha] Hinfo Hnone; [| apply (Hin a' info' Ha Hinfo Hnone)].
        inversion Ha; subst. rewrite Einfo in Hinfo.
        inversion Hinfo; subst. congruence.
    + destruct (IH (logged w (CreateWalletForPuzzleInfo info)))
        as (new & Hc & Hnew & Hraise & Hret).
      exists (CreateWalletForPuzzleInfo info :: new).
      rewrite (bind_ret_run _ _ _ _ _ Hrun).
      split; [rewrite Hc; simpl; rewrite <- app_assoc; reflexivity |].
      split; [| split].
      * intros c [<- | Hin].
        -- exists a, info. split; [left; reflexivity | auto].
        -- destruct (Hnew c Hin) as (a' & info' & Ha & H).
           exists a', info'. split; [right; exact Ha | exact H].
      * intros e He. destruct (Hraise e He) as (a' & Ha & H).
        exists a'. split; [right; exact Ha | exact H].
      * intros Hall. destruct Hret as [Hr Hin].
        { intros a' Ha. apply Hall. right. exact Ha. }
        split; [exact Hr |].
        intros a' info' [Ha | Ha] Hinfo Hnone.
        -- inversion Ha; subst. rewrite Einfo in Hinfo.
           inversion Hinfo; subst. left. reflexivity.
        -- right. apply (Hin a' info' Ha Hinfo Hnone).
Qed.

(** [maybe_create_wallets_for_offer] writes neither store.  The only calls
    it makes are [create_wallet_for_puzzle_info], and only for the driver of
    an asset of the offer that no wallet answers for; the base currency (the
    key [None]) never gets one.  It raises, with a KeyError for the asset,
    only when an asset of the offer has no driver in the offer's driver
    dictionary; when every asset has one it returns and has asked for a
    wallet for each asset that had none. *)
Theorem maybe_create_wallets_for_offer_spec o (w : Wd) :
  let keys := map fst (arbitrage env o) in
  let run := maybe_create_wallets_for_offer env o in
  trades (final run w) = trades w /\
  transactions (final run w) = transactions w /\
  exists new,
    calls (final run w) = calls w ++ new /\
    (forall c, In c new ->
       exists a info,
         In (Some a) keys /\
         dict_get N.eqb (driver_dict o) a = Some info /\
         get_wallet_for_puzzle_info env info = None /\
         c = CreateWalletForPuzzleInfo info) /\
    (forall e, result run w = Raise e ->
       exists a, In (Some a) keys /\
                 dict_get N.eqb (driver_dict o) a = None /\
                 e = KeyError (AssetIdKey a)) /\
    ((forall a, In (Some a) keys ->
        dict_get N.eqb (driver_dict o) a <> None) ->
     result run w = Ret tt /\
     forall a info,
       In (Some a) keys ->
       dict_get N.eqb (driver_dict o) a = Some info ->
       get_wallet_for_puzzle_info env info = None ->
       In (CreateWalletForPuzzleInfo info) new).
Proof.
  intros keys run.
  destruct (ks_maybe_create_wallets o w) as [Ht Hx].
  split; [exact Ht |]. split; [exact Hx |].
  unfold run, maybe_create_wallets_for_offer. fold keys.
  match goal with
  | |- context [for_each keys ?b] =>
      destruct (maybe_create_wallets_loop o b) with (keys := keys) (w := w)
        as (new & Hc & Hnew & Hraise & Hret)
  end.
  { intros [a |] w0; [| reflexivity].
    destruct (dict_get N.eqb (driver_dict o) a) as [info |]; [| reflexivity].
    destruct (get_wallet_for_puzzle_info env info); reflexivity. }
  exists new. auto.
Qed.
(** ** The records of an offer *)

(** A loop whose body keeps an invariant of the variables it threads, and
    does not change the state, keeps both. *)
Lemma for_fold_invariant {A S} (I : S -> Prop) (l : list A)
  (body : S -> A -> Tm S) :
  (forall s x w s' w',
     In x l -> I s -> body s x w = (Ret s', w') -> I s' /\ w' = w) ->
  forall s w s' w',
    I s -> for_fold l body s w = (Ret s', w') -> I s' /\ w' = w.
Proof.
  induction l as [| x l IH]; intros Hstep s w s' w' Hs H.
  - apply ret_inv in H. destruct H as [-> ->]. auto.
  - simpl in H. apply bind_inv in H. destruct H as (s1 & w1 & H1 & H).
    destruct (Hstep s x w s1 w1 (or_introl eq_refl) Hs H1) as [Hs1 ->].
    apply (IH (fun s0 x0 w0 s0' w0' Hin => Hstep s0 x0 w0 s0' w0'
                                             (or_intror Hin))
              s1 w s' w' Hs1 H).
Qed.

Lemma dict_get_In_Z {V} (d : list (Z * V)) k v :
  dict_get Z.eqb d k = Some v -> In (k, v) d.
Proof.
  induction d as [| [k0 v0] d IH]; simpl; [discriminate |].
  destruct (Z.eqb_spec k k0) as [-> | _].
  - intros H. inversion H. left. reflexivity.
  - intros H. right. apply IH, H.
Qed.

Lemma Forall_dict_set_Z {V} (P : Z * V -> Prop) (d : list (Z * V)) k v :
  Forall P d -> P (k, v) -> Forall P (dict_set Z.eqb d k v).
Proof.
  intros Hd Hv. induction d as [| [k0 v0] d IH]; simpl.
  - constructor; [exact Hv | constructor].
  - inversion Hd; subst.
    destruct (Z.eqb_spec k k0) as [-> | _]; constructor; auto.
Qed.

(** Filing a coin under a wallet id keeps a property of the groups that
    holds of a group with one more coin. *)
Lemma Forall_dict_append (P : Z * list Coin -> Prop)
  (d : list (Z * list Coin)) k x :
  Forall P d -> P (k, [x]) ->
  (forall l, P (k, l) -> P (k, l ++ [x])) ->
  Forall P (dict_append Z.eqb d k x).
Proof.
  intros Hd H1 Hmore. unfold dict_append.
  destruct (dict_get Z.eqb d k) as [l |] eqn:E.
  - apply Forall_dict_set_Z; [exact Hd |]. apply Hmore.
    apply dict_get_In_Z in E. rewrite Forall_forall in Hd. apply (Hd _ E).
  - apply Forall_dict_set_Z; assumption.
Qed.

Lemma wallets_lookup_inv id (w : Wd) wl w' :
  wallets_lookup env id w = (Ret wl, w') ->
  wallets env id = Some wl /\ w' = w.
Proof.
  unfold wallets_lookup. destruct (wallets env id) as [wl0 |]; intros H.
  - apply ret_inv in H. destruct H as [-> ->]. auto.
  - inversion H.
Qed.

(** The records [calculate_tx_records_for_offer] answers.  The state is
    left alone.  Every record carries the offer's name as trade id, is
    unconfirmed, and has no spend bundle.  It is either the record of one
    payment received (INCOMING_TRADE: a non-ephemeral addition that a wallet
    holds and whose parent is a settlement payment; no fee) or the record of
    what one wallet spends (OUTGOING_TRADE: removals held by that wallet,
    sent to the all-ones puzzle hash, with the bundle's fees; the additions
    are the wallet's change and the amount is what is removed less the
    change, which is not negative). *)
Theorem calculate_tx_records_spec o validate (w : Wd) txs :
  result (calculate_tx_records_for_offer env o validate) w = Ret txs ->
  final (calculate_tx_records_for_offer env o validate) w = w /\
  exists sb,
    (if validate then to_valid_spend env o = Ret sb else sb = bundle o) /\
    0 <= fees env sb /\
    Forall (fun tx =>
              trade_record_of env o tx /\
              (incoming_trade_record env o sb tx \/
               outgoing_trade_record env o sb tx)) txs.
Proof.
  intros Hres.
  destruct (calculate_tx_records_reads_clock_only o validate w) as [Hfin _].
  split; [exact Hfin |].
  unfold result, final in *.
  destruct (calculate_tx_records_for_offer env o validate w) as [r w0] eqn:E.
  simpl in Hres, Hfin. subst r w0.
  unfold calculate_tx_records_for_offer in E.
  apply bind_inv in E. destruct E as (sb & w1 & Hsb & E).
  assert (Hsb' : (if validate then to_valid_spend env o = Ret sb
                  else sb = bundle o) /\ w1 = w).
  { destruct validate.
    - apply lift_inv in Hsb. exact Hsb.
    - apply ret_inv in Hsb. destruct Hsb as [-> ->]. auto. }
  destruct Hsb' as [Hsb' ->]. clear Hsb.
  exists sb. split; [exact Hsb' |].
  apply bind_inv in E. destruct E as (all_fees & w1 & Hfees & E).
  apply lift_inv in Hfees. destruct Hfees as [Hfees ->].
  apply uint64_inv in Hfees. destruct Hfees as [-> Hpos].
  split; [exact Hpos |].
  apply bind_inv in E. destruct E as ([txs1 addition_dict] & w1 & Hadd & E).
  set (good tx :=
         trade_record_of env o tx /\
         (incoming_trade_record env o sb tx \/
          outgoing_trade_record env o sb tx)).
  set (change (g : Z * list Coin) :=
         forall c, In c (snd g) ->
           In c (not_ephemeral_additions env sb) /\
           ~ In (parent_coin_info c) (settlement_coin_ids env o) /\
           exists kind,
             get_wallet_id_for_puzzle_hash env (puzzle_hash c)
             = Some (fst g, kind)).
  apply (for_fold_invariant
           (fun st => Forall good (fst st) /\ Forall change (snd st)))
    in Hadd.
  2: { intros [txs0 ad0] addition w2 [txs2 ad2] w3 Hin [Hg Hc] Hstep.
       simpl in Hg, Hc. simpl.
       destruct (get_wallet_id_for_puzzle_hash env (puzzle_hash addition))
         as [[wid kind] |] eqn:Eown.
       2: { apply ret_inv in Hstep. destruct Hstep as [Hst ->].
            inversion Hst; subst. auto. }
       destruct (inb N.eqb (parent_coin_info addition)
                   (map (coin_name env)
                      (List.concat (dict_values (get_offered_coins env o)))))
         eqn:Eparent.
       - apply bind_inv in Hstep. destruct Hstep as (wl & w4 & Hwl & Hstep).
         apply wallets_lookup_inv in Hwl. destruct Hwl as [_ ->].
         apply bind_inv in Hstep. destruct Hstep as (created & w4 & Ht & Hstep).
         assert (w4 = w2) by (inversion Ht; reflexivity). subst w4.
         apply ret_inv in Hstep. destruct Hstep as [Hst ->].
         inversion Hst; subst. split; [| reflexivity]. split; [| exact Hc].
         apply Forall_app. split; [exact Hg |].
         constructor; [| constructor].
         split; [repeat split |]. left.
         repeat split. exists addition, kind.
         apply inb_N_In in Eparent. repeat split; auto.
       - apply ret_inv in Hstep. destruct Hstep as [Hst ->].
         inversion Hst; subst. split; [| reflexivity]. split; [exact Hg |].
         assert (Hthis :
                   In addition (not_ephemeral_additions env sb) /\
                   ~ In (parent_coin_info addition)
                       (settlement_coin_ids env o) /\
                   exists kind0,
                     get_wallet_id_for_puzzle_hash env (puzzle_hash addition)
                     = Some (wid, kind0)).
         { split; [exact Hin |]. split; [| eauto].
           intros Hp. apply inb_N_In in Hp.
           unfold settlement_coin_ids in Hp. congruence. }
         apply Forall_dict_append; [exact Hc | |].
         + intros c [<- | []]. exact Hthis.
         + intros l Hl c Hc'. simpl in Hc'. apply in_app_or in Hc'.
           destruct Hc' as [Hc' | [<- | []]]; [apply (Hl c Hc') | exact Hthis]. }
  2: { simpl. split; constructor. }
  destruct Hadd as [[Hg1 Hch] ->]. simpl in Hg1, Hch.
  set (owned (g : Z * list Coin) :=
         snd g <> [] /\
         forall r, In r (snd g) ->
           In r (removals env sb) /\
           exists kind,
             get_wallet_id_for_puzzle_hash env (puzzle_hash r)
             = Some (fst g, kind)).
  match type of E with
  | for_fold ?rd _ _ _ = _ =>
      assert (Hrd : Forall owned rd)
  end.
  { assert (Hgen : forall rems d,
              (forall r, In r rems -> In r (removals env sb)) ->
              Forall owned d ->
              Forall owned
                (fold_left
                   (fun (d : list (Z * list Coin)) removal =>
                      match get_wallet_id_for_puzzle_hash env
                              (puzzle_hash removal) with
                      | Some (wid, _) => dict_append Z.eqb d wid removal
                      | None => d
                      end) rems d)).
    { induction rems as [| r rems IH]; intros d Hsub Hd; simpl; [exact Hd |].
      apply IH; [intros r' Hr'; apply Hsub; right; exact Hr' |].
      destruct (get_wallet_id_for_puzzle_hash env (puzzle_hash r))
        as [[wid kind] |] eqn:Eown; [| exact Hd].
      assert (Hthis : In r (removals env sb) /\
                      exists kind0,
                        get_wallet_id_for_puzzle_hash env (puzzle_hash r)
                        = Some (wid, kind0)).
      { split; [apply Hsub; left; reflexivity | eauto]. }
      apply Forall_dict_append; [exact Hd | |].
      - split; [discriminate |]. intros r' [<- | []]. exact Hthis.
      - intros l [Hne Hl]. split.
        + simpl. destruct l; discriminate.
        + intros r' Hr'. simpl in Hr'. apply in_app_or in Hr'.
          destruct Hr' as [Hr' | [<- | []]]; [apply (Hl r' Hr') | exact Hthis]. }
    apply Hgen; [auto | constructor]. }
  apply (for_fold_invariant (fun txs0 => Forall good txs0)) in E.
  - destruct E as [E _]. exact E.
  - intros txs0 [wid grouped] w2 txs2 w3 Hin Hg Hstep.
    rewrite Forall_forall in Hrd. destruct (Hrd _ Hin) as [Hne Hown].
    simpl in Hne, Hown.
    apply bind_inv in Hstep. destruct Hstep as (wl & w4 & Hwl & Hstep).
    apply wallets_lookup_inv in Hwl. destruct Hwl as [_ ->].
    apply bind_inv in Hstep. destruct Hstep as (created & w4 & Ht & Hstep).
    assert (w4 = w2) by (inversion Ht; reflexivity). subst w4.
    apply bind_inv in Hstep. destruct Hstep as (amt & w4 & Hamt & Hstep).
    apply lift_inv in Hamt. destruct Hamt as [Hamt ->].
    apply uint64_inv in Hamt. destruct Hamt as [-> Hamt].
    apply ret_inv in Hstep. destruct Hstep as [Hst ->]. subst txs2.
    split; [| reflexivity].
    apply Forall_app. split; [exact Hg |].
    constructor; [| constructor].
    split; [repeat split |]. right.
    split; [reflexivity |]. split; [reflexivity |]. split; [reflexivity |].
    split; [exact Hne |]. split; [reflexivity |]. split; [exact Hamt |].
    exists wid. split; [exact Hown |].
    simpl. intros c Hc.
    destruct (dict_get Z.eqb addition_dict wid) as [l |] eqn:Eget;
      [| destruct Hc].
    apply dict_get_In_Z in Eget. rewrite Forall_forall in Hch.
    apply (Hch _ Eget c Hc).
  - exact Hg1.
Qed.

(** Every record of an offer is filed under the offer's name. *)
Lemma calculate_tx_records_ids o validate (w : Wd) txs :
  result (calculate_tx_records_for_offer env o validate) w = Ret txs ->
  final (calculate_tx_records_for_offer env o validate) w = w /\
  Forall (trade_record_of env o) txs.
Proof.
  intros Hres.
  destruct (calculate_tx_records_reads_clock_only o validate w) as [Hfin _].
  split; [exact Hfin |]. clear Hfin. unfold result in Hres.
  destruct (calculate_tx_records_for_offer env o validate w) as [r w0] eqn:E.
  simpl in Hres. subst r.
  unfold calculate_tx_records_for_offer in E.
  apply bind_inv in E. destruct E as (sb & w1 & _ & E).
  apply bind_inv in E. destruct E as (all_fees & w2 & _ & E).
  apply bind_inv in E. destruct E as ([txs1 addition_dict] & w3 & Hadd & E).
  apply (for_fold_invariant
           (fun st => Forall (trade_record_of env o) (fst st))) in Hadd.
  2: { intros [txs0 ad0] addition wa [txs2 ad2] wb _ Hg Hstep.
       simpl in Hg. simpl.
       destruct (get_wallet_id_for_puzzle_hash env (puzzle_hash addition))
         as [[wid kind] |].
       2: { apply ret_inv in Hstep. destruct Hstep as [Hst ->].
            inversion Hst; subst. auto. }
       destruct (inb N.eqb (parent_coin_info addition) _).
       - apply bind_inv in Hstep. destruct Hstep as (wl & wc & Hwl & Hstep).
         apply wallets_lookup_inv in Hwl. destruct Hwl as [_ ->].
         apply bind_inv in Hstep. destruct Hstep as (created & wc & Ht & Hstep).
         assert (wc = wa) by (inversion Ht; reflexivity). subst wc.
         apply ret_inv in Hstep. destruct Hstep as [Hst ->].
         inversion Hst; subst. split; [| reflexivity].
         apply Forall_app. split; [exact Hg |].
         constructor; [repeat split | constructor].
       - apply ret_inv in Hstep. destruct Hstep as [Hst ->].
         inversion Hst; subst. auto. }
  2: { simpl. constructor. }
  destruct Hadd as [Hin1 _]. simpl in Hin1.
  apply (for_fold_invariant (fun txs0 => Forall (trade_record_of env o) txs0))
    in E.
  - destruct E as [E _]. exact E.
  - intros txs0 [wid grouped] wa txs2 wb _ Hg Hstep.
    apply bind_inv in Hstep. destruct Hstep as (wl & wc & Hwl & Hstep).
    apply wallets_lookup_inv in Hwl. destruct Hwl as [_ ->].
    apply bind_inv in Hstep. destruct Hstep as (created & wc & Ht & Hstep).
    assert (wc = wa) by (inversion Ht; reflexivity). subst wc.
    apply bind_inv in Hstep. destruct Hstep as (amt & wc & Hamt & Hstep).
    apply lift_inv in Hamt. destruct Hamt as [_ ->].
    apply ret_inv in Hstep. destruct Hstep as [Hst ->]. subst txs2.
    split; [| reflexivity].
    apply Forall_app. split; [exact Hg |].
    constructor; [repeat split | constructor].
  - exact Hin1.
Qed.

(** ** Accepting an offer *)

Lemma rco_inv {A} (m : Tm A) (w : Wd) r w' :
  reads_clock_only m -> m w = (r, w') -> w' = w.
Proof.
  intros H E. destruct (H w) as [Hf _]. unfold final in Hf.
  rewrite E in Hf. exact Hf.
Qed.

Lemma add_transactions_run (txs : list (TransactionRecord SpendBundle))
  (w : Wd) :
  for_each txs (fun tx => add_transaction tx false) w
  = (Ret tt,
     {| trades := trades w; transactions := transactions w ++ txs;
        calls := calls w; derived := derived w; now := now w |}).
Proof.
  revert w. induction txs as [| tx txs IH]; intros w; simpl.
  - rewrite app_nil_r. destruct w; reflexivity.
  - unfold bind at 1. unfold add_transaction at 1, modify at 1.
    rewrite IH. simpl. rewrite <- app_assoc. reflexivity.
Qed.

Lemma respond_to_offer_success_run o fee (w : Wd) tr err :
  result (respond_to_offer env o fee) w = Ret (true, tr, err) ->
  check_offer_validity env o = true /\
  exists d take complete sb txs (w2 : Wd),
    take_offer_entries env (arbitrage env o) [] = inr d /\
    result (_create_offer_for_ids env d (Some (driver_dict o)) fee) w
      = Ret (true, Some take, None) /\
    Offer_aggregate env [with_driver_dict o (driver_dict take); take]
      = Ret complete /\
    is_valid env complete = true /\
    to_valid_spend env complete = Ret sb /\
    result (calculate_tx_records_for_offer env complete true) w = Ret txs /\
    trades w2 = trades w /\
    transactions w2 = transactions w /\
    now w2 = now w /\
    let trade :=
      {| confirmed_at_index := 0;
         accepted_at_time := Some (now w2);
         created_at_time := now w2;
         is_my_offer := false;
         sent := 0;
         offer := Offer_to_bytes env complete;
         taken_offer :=
           Some (Offer_to_bytes env
                   (with_driver_dict o (driver_dict take)));
         coins_of_interest := get_involved_coins env complete;
         trade_id := Offer_name env complete;
         status := PENDING_CONFIRM;
         sent_to := [] |} in
    let push :=
      {| tx_confirmed_at_height := Some 0;
         tx_created_at_time := now w2;
         tx_to_puzzle_hash := bytes32_ones;
         tx_amount := 0;
         tx_fee_amount := 0;
         tx_confirmed := false;
         tx_sent := 0;
         tx_spend_bundle := Some sb;
         tx_additions := [];
         tx_removals := [];
         tx_wallet_id := 0;
         tx_sent_to := [];
         tx_trade_id := Some bytes32_ones;
         tx_type := OUTGOING_TRADE;
         tx_name := SpendBundle_name env sb;
         tx_memos := [] |} in
    respond_to_offer env o fee w
    = (Ret (true, Some trade, None),
       {| trades := put_trade env trade (trades w2);
          transactions := (transactions w2 ++ [push]) ++ txs;
          calls := (calls w2 ++ [StateChanged "offer_added"]) ++
                   [PushTransaction (SpendBundle_name env sb)];
          derived := derived w2;
          now := now w2 |}).
Proof.
  intros Hres. unfold result in Hres.
  destruct (respond_to_offer env o fee w) as [r w'] eqn:E.
  simpl in Hres. subst r.
  unfold respond_to_offer in E.
  destruct (take_offer_entries env (arbitrage env o) []) as [msg | d];
    [apply ret_inv in E; destruct E; discriminate |].
  destruct (check_offer_validity env o) eqn:Hvalid;
    [| apply ret_inv in E; destruct E; discriminate].
  split; [reflexivity |]. simpl in E.
  apply bind_inv in E. destruct E as ([[success take] err0] & w1 & Hbuild & E).
  destruct (ks_create_offer d (Some (driver_dict o)) fee w) as [Hkt Hkx].
  pose proof (kc_create_offer d (Some (driver_dict o)) fee w) as Hkn.
  unfold final in Hkt, Hkx, Hkn.
  rewrite Hbuild in Hkt, Hkx, Hkn. simpl in Hkt, Hkx, Hkn.
  destruct success; [| apply ret_inv in E; destruct E; discriminate].
  destruct take as [take |]; [| apply ret_inv in E; destruct E; discriminate].
  assert (Herr0 : err0 = None).
  { unfold _create_offer_for_ids, try_except, bind in Hbuild.
    destruct (create_offer_body env d (driver_dict o) fee w)
      as [[x | e] w0]; inversion Hbuild; reflexivity. }
  subst err0.
  apply bind_inv in E. destruct E as (complete & w2 & Hagg & E).
  apply lift_inv in Hagg. destruct Hagg as [Hagg ->].
  apply bind_inv in E. destruct E as (u & w2 & Hv & E).
  destruct (is_valid env complete) eqn:Hisvalid; [| inversion Hv].
  apply ret_inv in Hv. destruct Hv as [_ ->].
  apply bind_inv in E. destruct E as (sb & w2 & Hsb & E).
  apply lift_inv in Hsb. destruct Hsb as [Hsb ->].
  apply bind_inv in E. destruct E as (u' & w2 & Hm & E).
  destruct (ks_maybe_create_wallets complete w1) as [Hmt Hmx].
  pose proof (kc_maybe_create_wallets complete w1) as Hmn.
  unfold final in Hmt, Hmx, Hmn.
  rewrite Hm in Hmt, Hmx, Hmn. simpl in Hmt, Hmx, Hmn.
  apply bind_inv in E. destruct E as (txs & w3 & Hcalc & E).
  pose proof (rco_inv _ _ _ _
                (calculate_tx_records_reads_clock_only complete true) Hcalc)
    as Hw3.
  subst w3.
  unfold bind, time_time, gets, save_trade, TradeStore_add_trade_record,
    state_changed, add_pending_transaction, log_call, modify in E.
  simpl in E. rewrite add_transactions_run in E. simpl in E.
  apply ret_inv in E. destruct E as [Hr Hw]. subst w'.
  inversion Hr; subst tr err. clear Hr.
  exists d, take, complete, sb, txs, w2.
  split; [reflexivity |].
  split; [unfold result; rewrite Hbuild; reflexivity |].
  split; [exact Hagg |].
  split; [exact Hisvalid |]. split; [exact Hsb |].
  split.
  { rewrite (proj2 (calculate_tx_records_reads_clock_only complete true
                      w2) w) by congruence.
    unfold result. rewrite Hcalc. reflexivity. }
  split; [rewrite Hmt; exact Hkt |]. split; [rewrite Hmx; exact Hkx |].
  split; [congruence |].
  reflexivity.
Qed.

(** When [respond_to_offer] reports success, the offer passed the validity
    check; the offer it built from the arbitrage of the offer and the
    offer's drivers was aggregated with the offer, which by then carries the
    drivers of the built one; the completed offer was valid and has a valid
    spend; and the trade it answers is the one it stored: PENDING_CONFIRM,
    not this side's own offer, filed under the name of the completed offer,
    and [get_trade_by_id] answers it.  The spend was handed to
    [add_pending_transaction] in a record that carries it, and after it the
    records [calculate_tx_records_for_offer] computes for the completed
    offer were stored, each unconfirmed and under the trade's id. *)
Theorem respond_to_offer_success o fee (w : Wd) tr err :
  result (respond_to_offer env o fee) w = Ret (true, tr, err) ->
  let w' := final (respond_to_offer env o fee) w in
  check_offer_validity env o = true /\
  err = None /\
  exists take_offer_dict take_offer complete sb txs trade push,
    take_offer_entries env (arbitrage env o) [] = inr take_offer_dict /\
    result (_create_offer_for_ids env take_offer_dict
              (Some (driver_dict o)) fee) w
      = Ret (true, Some take_offer, None) /\
    Offer_aggregate env
      [with_driver_dict o (driver_dict take_offer); take_offer]
      = Ret complete /\
    is_valid env complete = true /\
    to_valid_spend env complete = Ret sb /\
    result (calculate_tx_records_for_offer env complete true) w = Ret txs /\
    tr = Some trade /\
    trade_id trade = Offer_name env complete /\
    offer trade = Offer_to_bytes env complete /\
    taken_offer trade
      = Some (Offer_to_bytes env
                (with_driver_dict o (driver_dict take_offer))) /\
    coins_of_interest trade = get_involved_coins env complete /\
    status trade = PENDING_CONFIRM /\
    is_my_offer trade = false /\
    result (get_trade_by_id (trade_id trade)) w' = Ret (Some trade) /\
    transactions w' = transactions w ++ push :: txs /\
    tx_spend_bundle push = Some sb /\
    tx_name push = SpendBundle_name env sb /\
    Forall (trade_record_of env complete) txs /\
    In (PushTransaction (SpendBundle_name env sb)) (calls w') /\
    In (StateChanged "offer_added") (calls w').
Proof.
  intros Hres w'.
  destruct (respond_to_offer_success_run o fee w tr err Hres)
    as (Hvalid & d & take & complete & sb & txs & w2 & Hd & Hbuild & Hagg
        & Hisvalid & Hsb & Hcalc & Ht & Hx & Hn & Hrun).
  cbv zeta in Hrun.
  assert (Hids : Forall (trade_record_of env complete) txs)
    by exact (proj2 (calculate_tx_records_ids complete true w txs Hcalc)).
  unfold result in Hres. rewrite Hrun in Hres. simpl in Hres.
  inversion Hres as [[Htr Herr]]. clear Hres.
  unfold w', final, result. rewrite Hrun. simpl.
  split; [exact Hvalid |]. split; [reflexivity |].
  eexists d, take, complete, sb, txs, _, _.
  split; [exact Hd |]. split; [exact Hbuild |]. split; [exact Hagg |].
  split; [exact Hisvalid |]. split; [exact Hsb |]. split; [exact Hcalc |].
  do 7 (split; [reflexivity |]).
  split.
  { match goal with
    | |- context [put_trade env ?t ?l] =>
        exact (f_equal Ret (find_put_trade t l))
    end. }
  split.
  { rewrite Hx, <- app_assoc. reflexivity. }
  split; [reflexivity |]. split; [reflexivity |]. split; [exact Hids |].
  split; apply in_or_app.
  - right. left. reflexivity.
  - left. apply in_or_app. right. left. reflexivity.
Qed.
(** ** Drivers and requests in [_create_offer_for_ids] *)

Lemma dict_set_same {V} (d : list (bytes32 * V)) k v :
  dict_get N.eqb d k = Some v -> dict_set N.eqb d k v = d.
Proof.
  induction d as [| [k0 v0] d IH]; simpl; [discriminate |].
  destruct (N.eqb k k0); intros H.
  - inversion H. reflexivity.
  - rewrite (IH H). reflexivity.
Qed.

Lemma dict_set_new {V} (d : list (bytes32 * V)) k v :
  dict_get N.eqb d k = None -> dict_set N.eqb d k v = d ++ [(k, v)].
Proof.
  induction d as [| [k0 v0] d IH]; simpl; [reflexivity |].
  destruct (N.eqb k k0); intros H; [discriminate |].
  rewrite (IH H). reflexivity.
Qed.

(** What [reconcile_driver] answers when it returns: the dictionary it was
    given, or that dictionary with the wallet's own driver of the asset added
    at the end. *)
Lemma reconcile_driver_inv asset wl d (w : Wd) d' w' :
  (forall x y, PuzzleInfo_eqb env x y = true -> x = y) ->
  reconcile_driver env asset wl d w = (Ret d', w') ->
  w' = w /\
  (d' = d \/
   exists a wl0 f,
     asset = Some a /\ wl = Some wl0 /\ get_puzzle_info wl0 = Some f /\
     dict_get N.eqb d a = None /\ d' = d ++ [(a, f a)]).
Proof.
  intros Heq. unfold reconcile_driver.
  destruct asset as [a |]; [| intros H; apply ret_inv in H;
                              destruct H as [-> ->]; auto].
  destruct wl as [wl0 |]; [| intros H; apply ret_inv in H;
                             destruct H as [-> ->]; auto].
  destruct (get_puzzle_info wl0) as [f |] eqn:Ef; [| intros H; inversion H].
  destruct (dict_get N.eqb d a) as [d0 |] eqn:Eget.
  - destruct (PuzzleInfo_eqb env d0 (f a)) eqn:E; simpl;
      [| intros H; inversion H].
    intros H. apply ret_inv in H. destruct H as [-> ->].
    split; [reflexivity |]. left.
    apply Heq in E. subst d0. apply dict_set_same. exact Eget.
  - intros H. apply ret_inv in H. destruct H as [-> ->].
    split; [reflexivity |]. right.
    exists a, wl0, f. repeat split; auto. apply dict_set_new. exact Eget.
Qed.

Lemma uint32_inv z v : uint32 z = Ret v -> v = z.
Proof.
  unfold uint32. destruct ((0 <=? z) && (z <? 2 ^ 32));
    intros H; inversion H; reflexivity.
Qed.

Lemma dict_get_app_None {V} (d1 d2 : list (bytes32 * V)) k :
  dict_get N.eqb (d1 ++ d2) k = None -> dict_get N.eqb d1 k = None.
Proof.
  induction d1 as [| [k0 v0] d1 IH]; simpl; [reflexivity |].
  destruct (N.eqb k k0); [discriminate | exact IH].
Qed.

(** The asset and the wallet an entry is resolved to. *)
Lemma offer_entry_wallet id (w : Wd) wl asset w' :
  match id with
  | WalletKey i =>
      wid <- lift (uint32 i) ;;
      wl <- wallets_lookup env wid ;;
      if is_standard (wallet_type wl)
      then ret (Some wl, None)
      else
        match get_asset_id wl with
        | Some a => ret (Some wl, Some a)
        | None => raise (CannotOfferAssets (wallet_id wl))
        end
  | AssetIdKey a => ret (get_wallet_for_asset_id env a, Some a)
  end w = (Ret (wl, asset), w') ->
  forall a wl0, asset = Some a -> wl = Some wl0 -> entry_wallet env id a wl0.
Proof.
  intros H a wl0 -> ->. destruct id as [i | a']; simpl.
  - apply bind_inv in H. destruct H as (wid & w1 & Hwid & H).
    apply lift_inv in Hwid. destruct Hwid as [Hwid ->].
    apply uint32_inv in Hwid. subst wid.
    apply bind_inv in H. destruct H as (wl1 & w2 & Hwl & H).
    apply wallets_lookup_inv in Hwl. destruct Hwl as [Hwl ->].
    destruct (is_standard (wallet_type wl1)) eqn:Estd.
    + apply ret_inv in H. destruct H as [H _]. inversion H.
    + destruct (get_asset_id wl1) as [a1 |] eqn:Ea; [| inversion H].
      apply ret_inv in H. destruct H as [H _]. inversion H; subst. auto.
  - apply ret_inv in H. destruct H as [H _]. inversion H; subst. auto.
Qed.

Lemma request_entry_wallet id (w : Wd) wl asset ph memos w' :
  match id with
  | WalletKey i =>
      wid <- lift (uint32 i) ;;
      wl <- wallets_lookup env wid ;;
      p2_ph <- get_new_puzzlehash wl ;;
      if is_standard (wallet_type wl)
      then ret (Some wl, None, p2_ph, [])
      else
        match get_asset_id wl with
        | Some a => ret (Some wl, Some a, p2_ph, [p2_ph])
        | None => raise (CannotRequestAssets (wallet_id wl))
        end
  | AssetIdKey a =>
      p2_ph <- get_new_puzzlehash (main_wallet env) ;;
      ret (get_wallet_for_asset_id env a, Some a, p2_ph, [p2_ph])
  end w = (Ret (wl, asset, ph, memos), w') ->
  forall a wl0, asset = Some a -> wl = Some wl0 -> entry_wallet env id a wl0.
Proof.
  intros H a wl0 -> ->. destruct id as [i | a']; simpl.
  - apply bind_inv in H. destruct H as (wid & w1 & Hwid & H).
    apply lift_inv in Hwid. destruct Hwid as [Hwid ->].
    apply uint32_inv in Hwid. subst wid.
    apply bind_inv in H. destruct H as (wl1 & w2 & Hwl & H).
    apply wallets_lookup_inv in Hwl. destruct Hwl as [Hwl ->].
    apply bind_inv in H. destruct H as (p2 & w3 & _ & H).
    destruct (is_standard (wallet_type wl1)) eqn:Estd.
    + apply ret_inv in H. destruct H as [H _]. inversion H.
    + destruct (get_asset_id wl1) as [a1 |] eqn:Ea; [| inversion H].
      apply ret_inv in H. destruct H as [H _]. inversion H; subst. auto.
  - apply bind_inv in H. destruct H as (p2 & w3 & _ & H).
    apply ret_inv in H. destruct H as [H _]. inversion H; subst. auto.
Qed.

Lemma offer_entry_drivers v entry (w : Wd) v' w' :
  (forall x y, PuzzleInfo_eqb env x y = true -> x = y) ->
  offer_entry env v entry w = (Ret v', w') ->
  exists extra,
    drivers v' = drivers v ++ extra /\
    forall a info, In (a, info) extra ->
      dict_get N.eqb (drivers v) a = None /\
      exists wl f,
        entry_wallet env (fst entry) a wl /\
        get_puzzle_info wl = Some f /\ info = f a.
Proof.
  intros Heq H. destruct entry as [id sv]. unfold offer_entry in H.
  apply bind_inv in H. destruct H as (positive & w1 & _ & H).
  apply bind_inv in H. destruct H as ([[wl asset] v2] & w2 & Hr & H).
  apply bind_inv in H. destruct H as (d & w3 & Hd & H).
  apply ret_inv in H. destruct H as [-> _]. simpl.
  assert (Hv2 : drivers v2 = drivers v /\
                forall a wl0, asset = Some a -> wl = Some wl0 ->
                              entry_wallet env id a wl0).
  { destruct positive.
    - apply bind_inv in Hr.
      destruct Hr as ([[[wl0 a0] ph0] m0] & w4 & Hid & Hr).
      apply bind_inv in Hr. destruct Hr as (amt & w5 & _ & Hr).
      apply ret_inv in Hr. destruct Hr as [Hr _]. inversion Hr; subst.
      split; [reflexivity |].
      exact (request_entry_wallet _ _ _ _ _ _ _ Hid).
    - apply bind_inv in Hr. destruct Hr as ([wl0 a0] & w4 & Hid & Hr).
      apply bind_inv in Hr. destruct Hr as (solver' & w5 & _ & Hr).
      apply bind_inv in Hr. destruct Hr as (coins & w6 & _ & Hr).
      apply ret_inv in Hr. destruct Hr as [Hr _]. inversion Hr; subst.
      split; [reflexivity |].
      exact (offer_entry_wallet _ _ _ _ _ Hid). }
  destruct Hv2 as [Hv2 Hkey].
  apply (reconcile_driver_inv _ _ _ _ _ _ Heq) in Hd.
  destruct Hd as [_ [-> | (a & wl0 & f & Ea & Ew & Hf & Hnone & ->)]].
  - exists []. rewrite app_nil_r. split; [exact Hv2 | intros a info []].
  - exists [(a, f a)]. rewrite Hv2. split; [reflexivity |].
    intros a' info [Hin | []]. inversion Hin; subst a' info.
    rewrite <- Hv2. split; [exact Hnone |].
    exists wl0, f. split; [apply (Hkey a wl0 Ea Ew) | auto].
Qed.

(** A successful construction keeps the drivers it was given.  When the
    comparison of drivers holds only of equal drivers, the driver dictionary
    of the offer that [_create_offer_for_ids] answers starts with the
    caller's dictionary, entry for entry; every entry after it is for an
    asset the caller gave no driver for, and is the driver that the wallet
    resolved for an entry of the offer dictionary gave for that asset. *)
Theorem offer_keeps_given_drivers offer_dict given fee (w : Wd) o :
  (forall x y, PuzzleInfo_eqb env x y = true -> x = y) ->
  result (_create_offer_for_ids env offer_dict (Some given) fee) w
    = Ret (true, Some o, None) ->
  exists extra,
    driver_dict o = given ++ extra /\
    forall a info, In (a, info) extra ->
      dict_get N.eqb given a = None /\
      exists id sv wl f,
        In (id, sv) offer_dict /\
        entry_wallet env id a wl /\
        get_puzzle_info wl = Some f /\ info = f a.
Proof.
  intros Heq Hres. unfold result, _create_offer_for_ids, try_except in Hres.
  destruct (bind (create_offer_body env offer_dict given fee)
              (fun o0 => ret (true, Some o0, None)) w)
    as [[r | e] w1] eqn:E; simpl in Hres; [| discriminate].
  inversion Hres; subst r. clear Hres.
  apply bind_inv in E. destruct E as (o' & w2 & Hbody & E).
  apply ret_inv in E. destruct E as [E _]. inversion E; subst o'. clear E.
  unfold create_offer_body in Hbody.
  apply bind_inv in Hbody. destruct Hbody as (v & w3 & Hloop & Hbody).
  apply bind_inv in Hbody. destruct Hbody as (np & w4 & _ & Hbody).
  apply bind_inv in Hbody. destruct Hbody as (ann & w5 & _ & Hbody).
  apply bind_inv in Hbody. destruct Hbody as (txs & w6 & _ & Hbody).
  apply ret_inv in Hbody. destruct Hbody as [-> _]. simpl.
  assert (Hgen : forall entries v0 (w0 : Wd) v1 w1',
            for_fold entries (offer_entry env) v0 w0 = (Ret v1, w1') ->
            exists extra,
              drivers v1 = drivers v0 ++ extra /\
              forall a info, In (a, info) extra ->
                dict_get N.eqb (drivers v0) a = None /\
                exists id sv wl f,
                  In (id, sv) entries /\
                  entry_wallet env id a wl /\
                  get_puzzle_info wl = Some f /\ info = f a).
  { induction entries as [| entry entries IH]; intros v0 w0 v1 w1' H.
    - apply ret_inv in H. destruct H as [-> _]. exists [].
      rewrite app_nil_r. split; [reflexivity | intros a info []].
    - simpl in H. apply bind_inv in H. destruct H as (vm & wm & H1 & H).
      apply (offer_entry_drivers _ _ _ _ _ Heq) in H1.
      destruct H1 as (x1 & E1 & Hx1).
      apply IH in H. destruct H as (x2 & E2 & Hx2).
      exists (x1 ++ x2). rewrite E2, E1, app_assoc. split; [reflexivity |].
      intros a info Hin. apply in_app_or in Hin.
      destruct Hin as [Hin | Hin].
      + destruct (Hx1 a info Hin) as (Hnone & wl & f & Hw & Hf & Hi).
        split; [exact Hnone |].
        exists (fst entry), (snd entry), wl, f.
        split; [left; destruct entry; reflexivity | auto].
      + destruct (Hx2 a info Hin)
          as (Hnone & id & sv & wl & f & Hi & Hw & Hf & Hinfo).
        split; [rewrite E1 in Hnone; exact (dict_get_app_None _ _ _ Hnone) |].
        exists id, sv, wl, f. split; [right; exact Hi | auto]. }
  apply Hgen in Hloop. exact Hloop.
Qed.

(** An entry that asks for an asset: no coin is put up, one
    [get_new_puzzlehash] call is made and nothing else. *)
Lemma offer_entry_request v id z (w : Wd) v' w' :
  0 < z ->
  offer_entry env v (id, IntVal z) w = (Ret v', w') ->
  coins_to_offer v' = coins_to_offer v /\
  exists wid, calls w' = calls w ++ [GetNewPuzzlehash wid].
Proof.
  intros Hz H. unfold offer_entry in H.
  apply bind_inv in H. destruct H as (positive & w1 & Hp & H).
  apply ret_inv in Hp. destruct Hp as [-> ->].
  apply Z.ltb_lt in Hz. rewrite Hz in H.
  apply bind_inv in H. destruct H as ([[wl asset] v2] & w2 & Hr & H).
  apply bind_inv in H. destruct H as (d & w3 & Hd & H).
  apply ret_inv in H. destruct H as [-> ->]. simpl.
  assert (Hw3 : w3 = w2).
  { unfold reconcile_driver in Hd.
    destruct asset as [a |]; [| inversion Hd; reflexivity].
    destruct wl as [wl0 |]; [| inversion Hd; reflexivity].
    destruct (get_puzzle_info wl0); [| inversion Hd].
    destruct (dict_get N.eqb (drivers v2) a);
      [destruct (negb _) |]; inversion Hd; reflexivity. }
  subst w3.
  apply bind_inv in Hr. destruct Hr as ([[[wl0 a0] ph0] m0] & w4 & Hkey & Hr).
  apply bind_inv in Hr. destruct Hr as (amt & w5 & Hamt & Hr).
  apply lift_inv in Hamt. destruct Hamt as [_ ->].
  apply ret_inv in Hr. destruct Hr as [Hr ->].
  inversion Hr; subst. simpl. split; [reflexivity |].
  destruct id as [i | a].
  - apply bind_inv in Hkey. destruct Hkey as (wid & w6 & Hwid & Hkey).
    apply lift_inv in Hwid. destruct Hwid as [_ ->].
    apply bind_inv in Hkey. destruct Hkey as (wl1 & w6 & Hwl & Hkey).
    apply wallets_lookup_inv in Hwl. destruct Hwl as [_ ->].
    apply bind_inv in Hkey. destruct Hkey as (ph & w6 & Hph & Hkey).
    assert (Hc : calls w6 = calls w ++ [GetNewPuzzlehash (wallet_id wl1)])
      by (inversion Hph; reflexivity).
    assert (Hw4 : w4 = w6).
    { destruct (is_standard (wallet_type wl1));
        [| destruct (get_asset_id wl1)]; inversion Hkey; reflexivity. }
    subst w4. eauto.
  - apply bind_inv in Hkey. destruct Hkey as (ph & w6 & Hph & Hkey).
    assert (Hc : calls w6
                 = calls w ++ [GetNewPuzzlehash (wallet_id (main_wallet env))])
      by (inversion Hph; reflexivity).
    apply ret_inv in Hkey. destruct Hkey as [_ ->]. eauto.
Qed.

(** An offer that only asks.  When every entry of the dictionary is a
    request, a construction that succeeds has called [get_new_puzzlehash]
    once per entry and nothing else: no wallet was asked for coins or for
    offer transactions, the offer's bundle is the aggregate of no spend
    bundle, and the payments were notarized against no coin.  The fee is
    passed to nobody. *)
Theorem request_only_offer offer_dict given_drivers fee (w : Wd) o :
  (forall entry, In entry offer_dict -> is_request entry) ->
  let build := _create_offer_for_ids env offer_dict given_drivers fee in
  result build w = Ret (true, Some o, None) ->
  bundle o = SpendBundle_aggregate env [] /\
  (exists payments,
     notarize_payments env payments [] = Ret (requested_payments o)) /\
  exists wids,
    calls (final build w) = calls w ++ map GetNewPuzzlehash wids /\
    List.length wids = List.length offer_dict.
Proof.
  intros Hreq build Hres.
  unfold build, result, final, _create_offer_for_ids, try_except in *.
  set (given := match given_drivers with Some d => d | None => [] end) in *.
  destruct (bind (create_offer_body env offer_dict given fee)
              (fun o0 => ret (true, Some o0, None)) w)
    as [[r | e] w1] eqn:E; simpl in Hres; [| discriminate].
  inversion Hres; subst r. clear Hres. simpl.
  apply bind_inv in E. destruct E as (o' & w2 & Hbody & E).
  apply ret_inv in E. destruct E as [E ->]. inversion E; subst o'. clear E.
  unfold create_offer_body in Hbody.
  apply bind_inv in Hbody. destruct Hbody as (v & w3 & Hloop & Hbody).
  assert (Hgen : forall entries v0 (w0 : Wd) v1 w1',
            (forall entry, In entry entries -> is_request entry) ->
            for_fold entries (offer_entry env) v0 w0 = (Ret v1, w1') ->
            coins_to_offer v1 = coins_to_offer v0 /\
            exists wids,
              calls w1' = calls w0 ++ map GetNewPuzzlehash wids /\
              List.length wids = List.length entries).
  { induction entries as [| [id sv] entries IH]; intros v0 w0 v1 w1' Hall H.
    - apply ret_inv in H. destruct H as [-> ->]. split; [reflexivity |].
      exists []. rewrite app_nil_r. auto.
    - simpl in H. apply bind_inv in H. destruct H as (vm & wm & H1 & H).
      destruct (Hall (id, sv) (or_introl eq_refl)) as (z & Ez & Hz).
      simpl in Ez. subst sv.
      apply (offer_entry_request _ _ _ _ _ _ Hz) in H1.
      destruct H1 as (Ec & wid & Hc).
      apply IH in H; [| intros entry Hin; apply Hall; right; exact Hin].
      destruct H as (Ec' & wids & Hc' & Hlen).
      split; [congruence |].
      exists (wid :: wids). simpl. rewrite Hc', Hc, <- app_assoc.
      split; [reflexivity | congruence]. }
  apply (Hgen _ _ _ _ _ Hreq) in Hloop.
  destruct Hloop as (Hcoins & wids & Hcalls & Hlen).
  simpl in Hcoins. rewrite Hcoins in Hbody. simpl in Hbody.
  apply bind_inv in Hbody. destruct Hbody as (np & w4 & Hnp & Hbody).
  apply lift_inv in Hnp. destruct Hnp as [Hnp ->].
  apply bind_inv in Hbody. destruct Hbody as (ann & w5 & Hann & Hbody).
  apply lift_inv in Hann. destruct Hann as [_ ->].
  apply bind_inv in Hbody. destruct Hbody as (txs & w6 & Htxs & Hbody).
  apply ret_inv in Htxs. destruct Htxs as [-> ->].
  apply ret_inv in Hbody. destruct Hbody as [-> ->]. simpl.
  split; [reflexivity |]. split; [eauto |].
  exists wids. auto.
Qed.

(** A driver the caller gave that differs from the wallet's own stops the
    construction, and so does a wallet that cannot name its driver.  For a
    first entry that asks for an asset by its id, of a wallet that holds
    the asset: when the wallet has no [get_puzzle_info] the answer is the
    failure "not properly integrated"; when it has one and the caller's
    dictionary holds another driver for the asset the answer is the failure
    that names the conflict.  Nothing is stored. *)
Theorem driver_conflict_fails a z rest given fee (w : Wd) wl ph :
  0 < z < 2 ^ 64 ->
  get_wallet_for_asset_id env a = Some wl ->
  new_puzzlehash (main_wallet env) (derived w) = Ret ph ->
  let build :=
    _create_offer_for_ids env ((AssetIdKey a, IntVal z) :: rest)
      (Some given) fee in
  (get_puzzle_info wl = None ->
   result build w = Ret (false, None, Some (NotIntegrated a))) /\
  (forall f d,
     get_puzzle_info wl = Some f ->
     dict_get N.eqb given a = Some d ->
     PuzzleInfo_eqb env d (f a) = false ->
     result build w = Ret (false, None, Some (DriverConflict a))) /\
  trades (final build w) = trades w /\
  transactions (final build w) = transactions w.
Proof.
  intros Hz Hwl Hph build.
  assert (Hpos : (0 <? z) = true) by (apply Z.ltb_lt; lia).
  assert (Hamt : uint64 z = Ret z) by (apply uint64_ok; lia).
  split; [| split].
  - intros Hinfo.
    unfold build, result, _create_offer_for_ids, try_except,
      create_offer_body. simpl for_fold.
    unfold offer_entry, is_positive_int, bind, ret, lift, get_new_puzzlehash,
      reconcile_driver. simpl.
    rewrite Hpos, Hph, Hamt, Hwl. simpl. rewrite Hinfo. reflexivity.
  - intros f d Hinfo Hget Hneq.
    unfold build, result, _create_offer_for_ids, try_except,
      create_offer_body. simpl for_fold.
    unfold offer_entry, is_positive_int, bind, ret, lift, get_new_puzzlehash,
      reconcile_driver. simpl.
    rewrite Hpos, Hph, Hamt, Hwl. simpl. rewrite Hinfo, Hget, Hneq.
    reflexivity.
  - apply ks_create_offer.
Qed.

(** ** An accepted offer that fails *)

Lemma get_trade_by_coin_loop_put trade l coin :
  (forall t, In t l ->
     status t = CANCELLED \/ ~ In coin (coins_of_interest t)) ->
  status trade <> CANCELLED ->
  In coin (coins_of_interest trade) ->
  get_trade_by_coin_loop (put_trade env trade l) coin = Some trade.
Proof.
  intros Hl Hs Hc.
  destruct (put_trade_shape trade l) as (pre & post & -> & E).
  apply get_trade_by_coin_loop_first; [| exact Hs | exact Hc].
  intros p Hp. apply Hl.
  assert (Hp' : In p (pre ++ post)) by (apply in_app_iff; auto).
  rewrite E in Hp'. apply filter_In in Hp'. tauto.
Qed.

(** The taker's side of a failed trade.  After [respond_to_offer] has
    reported success the trade is PENDING_CONFIRM; when an event then arrives
    for one of its coins, no other live trade holds that coin, and the node
    knows none of this side's settlement payments, the trade becomes FAILED
    and every transaction record filed under its id is deleted. *)
Theorem accepted_offer_then_failure
  o fee (w : Wd) trade coin_state fork_height :
  result (respond_to_offer env o fee) w = Ret (true, Some trade, None) ->
  In (cs_coin coin_state) (coins_of_interest trade) ->
  (forall t, In t (trades w) ->
     status t = CANCELLED \/
     ~ In (cs_coin coin_state) (coins_of_interest t)) ->
  ~ settlement_known env fork_height (Offer_from_bytes env (offer trade)) ->
  let w1 := final (respond_to_offer env o fee) w in
  let event := coins_of_interest_farmed env coin_state fork_height in
  status_of w1 (trade_id trade) = Some PENDING_CONFIRM /\
  result event w1 = Ret tt /\
  status_of (final event w1) (trade_id trade) = Some FAILED /\
  Forall (fun tx => tx_trade_id tx <> Some (trade_id trade))
    (transactions (final event w1)).
Proof.
  intros Hres Hcoin Hothers Hunknown w1 event.
  destruct (respond_to_offer_success_run o fee w _ _ Hres)
    as (_ & d & take & complete & sb & txs & w2 & _ & _ & _ & _ & _ & _
        & Ht & _ & _ & Hrun).
  cbv zeta in Hrun.
  unfold result in Hres. rewrite Hrun in Hres. simpl in Hres.
  injection Hres as Htrade.
  assert (Hstatus : status trade = PENDING_CONFIRM)
    by (rewrite <- Htrade; reflexivity).
  assert (Htrades : trades w1 = put_trade env trade (trades w)).
  { unfold w1, final. rewrite Hrun. simpl. rewrite Htrade, Ht. reflexivity. }
  clear Hrun Htrade. clearbody w1.
  assert (Hs1 : status_of w1 (trade_id trade) = Some PENDING_CONFIRM).
  { unfold status_of. rewrite Htrades, find_put_trade. simpl.
    rewrite Hstatus. reflexivity. }
  split; [exact Hs1 |].
  assert (Hloop : get_trade_by_coin_loop (trades w1) (cs_coin coin_state)
                  = Some trade).
  { rewrite Htrades. apply get_trade_by_coin_loop_put;
      [exact Hothers | rewrite Hstatus; discriminate | exact Hcoin]. }
  destruct (get_trade_by_coin_loop_sound _ _ _ Hloop) as (Hin & _ & _).
  pose proof (farmed_fail_run coin_state fork_height w1 trade Hloop Hunknown)
    as Hrun.
  simpl in Hrun. rewrite Hstatus in Hrun.
  unfold event, result, final. rewrite Hrun. simpl.
  split; [reflexivity |]. split.
  - apply (status_of_updated w1 _ trade FAILED None Hin). reflexivity.
  - apply Forall_forall. intros tx Htx. apply filter_In in Htx.
    destruct Htx as [_ Htx]. intros Heq. rewrite Heq in Htx.
    simpl in Htx. rewrite N.eqb_refl in Htx. discriminate.
Qed.

(** ** One record per wallet that spends *)

Lemma dict_get_set_Z {V} (d : list (Z * V)) k v k' :
  dict_get Z.eqb (dict_set Z.eqb d k v) k'
  = if Z.eqb k' k then Some v else dict_get Z.eqb d k'.
Proof.
  induction d as [| [k0 v0] d IH]; simpl; [reflexivity |].
  destruct (Z.eqb k k0) eqn:E; simpl.
  - apply Z.eqb_eq in E. subst k0.
    destruct (Z.eqb k' k); reflexivity.
  - rewrite IH. destruct (Z.eqb k' k) eqn:E'; [| reflexivity].
    apply Z.eqb_eq in E'. subst k'. rewrite E. reflexivity.
Qed.

Lemma dict_set_keys_Z {V} (d : list (Z * V)) k v :
  NoDup (map fst d) -> NoDup (map fst (dict_set Z.eqb d k v)).
Proof.
  assert (Hin : forall (d0 : list (Z * V)) k',
            In k' (map fst (dict_set Z.eqb d0 k v)) ->
            k' = k \/ In k' (map fst d0)).
  { induction d0 as [| [k0 v0] d0 IH]; simpl; intros k' H.
    - intuition congruence.
    - destruct (Z.eqb_spec k k0) as [-> | _]; simpl in H.
      + intuition congruence.
      + destruct H as [H | H]; [tauto |]. destruct (IH k' H); tauto. }
  induction d as [| [k0 v0] d IH]; simpl; intros Hnd.
  - repeat constructor. simpl. tauto.
  - inversion Hnd as [| ? ? Hout Hnd']; subst.
    destruct (Z.eqb_spec k k0) as [-> | Hne]; simpl.
    + constructor; assumption.
    + constructor; [| apply IH, Hnd'].
      intros H. destruct (Hin d k0 H); [congruence | contradiction].
Qed.

Lemma dict_get_iff_In_Z {V} (d : list (Z * V)) k v :
  NoDup (map fst d) -> (In (k, v) d <-> dict_get Z.eqb d k = Some v).
Proof.
  intros Hnd. split; [| apply dict_get_In_Z].
  induction d as [| [k0 v0] d IH]; simpl; [tauto |].
  inversion Hnd as [| ? ? Hout Hnd']; subst.
  intros [H | H].
  - inversion H; subst. rewrite Z.eqb_refl. reflexivity.
  - destruct (Z.eqb_spec k k0) as [-> | _]; [| apply (IH Hnd' H)].
    exfalso. apply Hout. apply (in_map fst) in H. exact H.
Qed.

Lemma dict_get_append (d : list (Z * list Coin)) k x k' :
  dict_get Z.eqb (dict_append Z.eqb d k x) k'
  = if Z.eqb k' k
    then Some (match dict_get Z.eqb d k with
               | Some l => l ++ [x]
               | None => [x]
               end)
    else dict_get Z.eqb d k'.
Proof.
  unfold dict_append.
  destruct (dict_get Z.eqb d k); apply dict_get_set_Z.
Qed.

(** The loop that files the removals under the wallet that holds them. *)
Lemma removal_groups_spec rems :
  forall pre (d : list (Z * list Coin)),
    let filed (d0 : list (Z * list Coin)) done :=
      forall wid r,
        (exists l, dict_get Z.eqb d0 wid = Some l /\ In r l) <->
        (In r done /\ owner_of env r = Some wid) in
    let d' :=
      fold_left
        (fun (d0 : list (Z * list Coin)) removal =>
           match get_wallet_id_for_puzzle_hash env (puzzle_hash removal) with
           | Some (wid, _) => dict_append Z.eqb d0 wid removal
           | None => d0
           end) rems d in
    NoDup (map fst d) -> filed d pre ->
    NoDup (map fst d') /\ filed d' (pre ++ rems).
Proof.
  induction rems as [| r0 rems IH]; intros pre d filed d' Hnd Hf.
  - unfold d'. simpl. rewrite app_nil_r. auto.
  - unfold d'. simpl.
    replace (pre ++ r0 :: rems) with ((pre ++ [r0]) ++ rems)
      by (rewrite <- app_assoc; reflexivity).
    apply IH.
    + destruct (get_wallet_id_for_puzzle_hash env (puzzle_hash r0))
        as [[wid kind] |]; [| exact Hnd].
      unfold dict_append.
      destruct (dict_get Z.eqb d wid); apply dict_set_keys_Z, Hnd.
    + intros wid r.
      destruct (get_wallet_id_for_puzzle_hash env (puzzle_hash r0))
        as [[wid0 kind] |] eqn:Eown.
      * assert (Hown : owner_of env r0 = Some wid0).
        { unfold owner_of. rewrite Eown. reflexivity. }
        rewrite dict_get_append.
        destruct (Z.eqb_spec wid wid0) as [-> | Hne].
        -- split.
           ++ intros (l & Hl & Hin). inversion Hl; subst l. clear Hl.
              destruct (dict_get Z.eqb d wid0) as [l0 |] eqn:E0.
              ** apply in_app_or in Hin. destruct Hin as [Hin | [<- | []]].
                 --- destruct (proj1 (Hf wid0 r)) as [Hp Ho]; [eauto |].
                     split; [apply in_or_app; left; exact Hp | exact Ho].
                 --- split; [apply in_or_app; right; left; reflexivity
                            | exact Hown].
              ** destruct Hin as [<- | []].
                 split; [apply in_or_app; right; left; reflexivity
                        | exact Hown].
           ++ intros [Hin Ho]. eexists. split; [reflexivity |].
              apply in_app_or in Hin. destruct Hin as [Hin | [<- | []]].
              ** destruct (proj2 (Hf wid0 r) (conj Hin Ho)) as (l0 & E0 & H0).
                 rewrite E0. apply in_or_app. left. exact H0.
              ** destruct (dict_get Z.eqb d wid0);
                   [apply in_or_app; right |]; left; reflexivity.
        -- rewrite (Hf wid r). split; intros [Hin Ho].
           ++ split; [apply in_or_app; left; exact Hin | exact Ho].
           ++ apply in_app_or in Hin. destruct Hin as [Hin | [<- | []]];
                [auto | congruence].
      * assert (Hown : owner_of env r0 = None).
        { unfold owner_of. rewrite Eown. reflexivity. }
        rewrite (Hf wid r). split; intros [Hin Ho].
        -- split; [apply in_or_app; left; exact Hin | exact Ho].
        -- apply in_app_or in Hin. destruct Hin as [Hin | [<- | []]];
             [auto | congruence].
Qed.

(** Removals of the same wallet show as one record.  The OUTGOING_TRADE
    records [calculate_tx_records_for_offer] answers are, in order, the
    groups of a grouping of the bundle's removals by the wallet id that holds
    them: no two groups belong to the same wallet id, every removal that a
    wallet holds is in the group of that wallet, and a group holds nothing
    else.  Removals that no wallet holds are in no record. *)
Theorem removals_grouped_by_wallet o validate (w : Wd) txs :
  result (calculate_tx_records_for_offer env o validate) w = Ret txs ->
  exists sb (groups : list (Z * list Coin)),
    (if validate then to_valid_spend env o = Ret sb else sb = bundle o) /\
    NoDup (map fst groups) /\
    map tx_removals (filter is_outgoing txs) = map snd groups /\
    forall wid r,
      (exists l, In (wid, l) groups /\ In r l) <->
      (In r (removals env sb) /\ owner_of env r = Some wid).
Proof.
  intros Hres. unfold result in Hres.
  destruct (calculate_tx_records_for_offer env o validate w) as [r w0] eqn:E.
  simpl in Hres. subst r.
  unfold calculate_tx_records_for_offer in E.
  apply bind_inv in E. destruct E as (sb & w1 & Hsb & E).
  assert (Hsb' : if validate then to_valid_spend env o = Ret sb
                 else sb = bundle o).
  { destruct validate.
    - apply lift_inv in Hsb. apply Hsb.
    - apply ret_inv in Hsb. apply Hsb. }
  clear Hsb.
  apply bind_inv in E. destruct E as (all_fees & w2 & _ & E).
  apply bind_inv in E. destruct E as ([txs1 addition_dict] & w3 & Hadd & E).
  apply (for_fold_invariant
           (fun st => Forall (fun tx => is_outgoing tx = false) (fst st)))
    in Hadd.
  2: { intros [txs0 ad0] addition wa [txs2 ad2] wb _ Hg Hstep.
       simpl in Hg. simpl.
       destruct (get_wallet_id_for_puzzle_hash env (puzzle_hash addition))
         as [[wid kind] |].
       2: { apply ret_inv in Hstep. destruct Hstep as [Hst ->].
            inversion Hst; subst. auto. }
       destruct (inb N.eqb (parent_coin_info addition) _).
       - apply bind_inv in Hstep. destruct Hstep as (wl & wc & Hwl & Hstep).
         apply wallets_lookup_inv in Hwl. destruct Hwl as [_ ->].
         apply bind_inv in Hstep. destruct Hstep as (created & wc & Ht & Hstep).
         assert (wc = wa) by (inversion Ht; reflexivity). subst wc.
         apply ret_inv in Hstep. destruct Hstep as [Hst ->].
         inversion Hst; subst. split; [| reflexivity].
         apply Forall_app. split; [exact Hg |].
         constructor; [reflexivity | constructor].
       - apply ret_inv in Hstep. destruct Hstep as [Hst ->].
         inversion Hst; subst. auto. }
  2: { simpl. constructor. }
  destruct Hadd as [Hin1 _]. simpl in Hin1.
  match type of E with
  | for_fold ?rd ?body _ _ = _ =>
      set (groups := rd) in *; set (step := body) in *
  end.
  exists sb, groups. split; [exact Hsb' |].
  destruct (removal_groups_spec (removals env sb) [] []) as [Hnd Hfiled].
  { constructor. }
  { intros wid r. split.
    - intros (l & Hl & _). discriminate.
    - intros [[] _]. }
  fold groups in Hnd, Hfiled. simpl in Hfiled.
  split; [exact Hnd |]. split.
  - assert (Hgen : forall items txs0 (wa : Wd) txs' wb,
              for_fold items step txs0 wa = (Ret txs', wb) ->
              exists outs,
                txs' = txs0 ++ outs /\
                map tx_removals outs = map snd items /\
                Forall (fun tx => is_outgoing tx = true) outs).
    { induction items as [| [wid grouped] items IH];
        intros txs0 wa txs' wb H.
      - apply ret_inv in H. destruct H as [-> _]. exists [].
        rewrite app_nil_r. repeat split. constructor.
      - simpl in H. apply bind_inv in H. destruct H as (txs2 & wc & Hs & H).
        unfold step in Hs.
        apply bind_inv in Hs. destruct Hs as (wl & wd & _ & Hs).
        apply bind_inv in Hs. destruct Hs as (created & we & _ & Hs).
        apply bind_inv in Hs. destruct Hs as (amt & wf & _ & Hs).
        apply ret_inv in Hs. destruct Hs as [-> _].
        apply IH in H. destruct H as (outs & -> & Hmap & Hall).
        eexists (_ :: outs). rewrite <- app_assoc. split; [reflexivity |].
        split; [simpl; rewrite Hmap; reflexivity |].
        constructor; [reflexivity | exact Hall]. }
    apply Hgen in E. destruct E as (outs & -> & Hmap & Hall).
    rewrite filter_app.
    assert (F1 : filter is_outgoing txs1 = []).
    { clear -Hin1. induction txs1 as [| tx l IH]; [reflexivity |].
      inversion Hin1; subst. simpl.
      match goal with H : is_outgoing tx = false |- _ => rewrite H end.
      apply IH. assumption. }
    assert (F2 : filter is_outgoing outs = outs).
    { clear -Hall. induction outs as [| tx l IH]; [reflexivity |].
      inversion Hall; subst. simpl.
      match goal with H : is_outgoing tx = true |- _ => rewrite H end.
      rewrite IH by assumption. reflexivity. }
    rewrite F1, F2. exact Hmap.
  - intros wid r. rewrite <- (Hfiled wid r). split.
    + intros (l & Hl & Hin). exists l. split; [| exact Hin].
      apply dict_get_iff_In_Z; assumption.
    + intros (l & Hl & Hin). exists l. split; [| exact Hin].
      apply dict_get_iff_In_Z; assumption.
Qed.
(** ** Where the fee goes *)

Lemma AssetKey_eqb_eq (a b : AssetKey) : AssetKey_eqb a b = true <-> a = b.
Proof.
  destruct a, b; simpl; split; intros H; try discriminate.
  - apply Z.eqb_eq in H. congruence.
  - inversion H. apply Z.eqb_refl.
  - apply N.eqb_eq in H. congruence.
  - inversion H. apply N.eqb_refl.
Qed.

Lemma dict_set_fresh_key {V} (d : list (AssetKey * V)) k v :
  ~ In k (map fst d) ->
  map fst (dict_set AssetKey_eqb d k v) = map fst d ++ [k].
Proof.
  induction d as [| [k0 v0] d IH]; simpl; intros Hout; [reflexivity |].
  destruct (AssetKey_eqb k k0) eqn:E.
  - apply AssetKey_eqb_eq in E. subst. tauto.
  - simpl. rewrite IH by tauto. reflexivity.
Qed.

Lemma query_fees_app (a b : list (Call PuzzleInfo Solver Announcement)) :
  query_fees (a ++ b) = query_fees a ++ query_fees b.
Proof. unfold query_fees. apply flat_map_app. Qed.

Lemma offer_fees_app (a b : list (Call PuzzleInfo Solver Announcement)) :
  offer_fees (a ++ b) = offer_fees a ++ offer_fees b.
Proof. unfold offer_fees. apply flat_map_app. Qed.

Lemma reconcile_driver_state asset wl d (w : Wd) r w' :
  reconcile_driver env asset wl d w = (r, w') -> w' = w.
Proof.
  unfold reconcile_driver.
  destruct asset as [a |]; [| intros H; inversion H; reflexivity].
  destruct wl as [wl0 |]; [| intros H; inversion H; reflexivity].
  destruct (get_puzzle_info wl0); [| intros H; inversion H; reflexivity].
  destruct (dict_get N.eqb d a); [destruct (negb _) |];
    intros H; inversion H; reflexivity.
Qed.

(** An entry that offers: one [get_coins_to_offer] call, with the fee that
    is left to pay, and the entry is on record as the payer. *)
Lemma offer_entry_offered v id sv (w : Wd) v' w' :
  asks (id, sv) = false ->
  offer_entry env v (id, sv) w = (Ret v', w') ->
  exists wid asset solver coins,
    calls w' = calls w ++ [GetCoinsToOffer wid asset solver
                             (fee_left_to_pay v)] /\
    coins_to_offer v' = dict_set AssetKey_eqb (coins_to_offer v) id coins /\
    fee_left_to_pay v' = 0 /\
    wallet_paying_fee v' = Some id.
Proof.
  intros Hask H. unfold offer_entry in H.
  apply bind_inv in H. destruct H as (positive & w1 & Hp & H).
  assert (Hp' : positive = false /\ w1 = w).
  { unfold asks in Hask. simpl in Hask. destruct sv as [z | s]; simpl in Hp.
    - apply ret_inv in Hp. destruct Hp as [-> ->]. auto.
    - apply bind_inv in Hp. destruct Hp as (b & w2 & Hb & Hp).
      apply lift_inv in Hb. destruct Hb as [_ ->].
      apply ret_inv in Hp. destruct Hp as [-> ->]. auto. }
  destruct Hp' as [-> ->]. clear Hp.
  apply bind_inv in H. destruct H as ([[wl asset] v2] & w2 & Hr & H).
  apply bind_inv in H. destruct H as (d & w3 & Hd & H).
  apply reconcile_driver_state in Hd. subst w3.
  apply ret_inv in H. destruct H as [-> ->]. simpl.
  apply bind_inv in Hr. destruct Hr as ([wl0 a0] & w4 & Hkey & Hr).
  assert (Hw4 : w4 = w).
  { destruct id as [i | a].
    - apply bind_inv in Hkey. destruct Hkey as (wid & w5 & Hwid & Hkey).
      apply lift_inv in Hwid. destruct Hwid as [_ ->].
      apply bind_inv in Hkey. destruct Hkey as (wl1 & w5 & Hwl & Hkey).
      apply wallets_lookup_inv in Hwl. destruct Hwl as [_ ->].
      destruct (is_standard (wallet_type wl1));
        [| destruct (get_asset_id wl1)]; inversion Hkey; reflexivity.
    - inversion Hkey; reflexivity. }
  subst w4.
  apply bind_inv in Hr. destruct Hr as (solver & w5 & Hsolver & Hr).
  assert (Hw5 : w5 = w).
  { destruct sv as [z | s].
    - destruct (z =? 0); [inversion Hsolver |].
      apply bind_inv in Hsolver. destruct Hsolver as (a1 & w6 & Ha & Hsolver).
      apply lift_inv in Ha. destruct Ha as [_ ->].
      inversion Hsolver; reflexivity.
    - inversion Hsolver; reflexivity. }
  subst w5.
  apply bind_inv in Hr. destruct Hr as (coins & w6 & Hcoins & Hr).
  apply ret_inv in Hr. destruct Hr as [Hr ->].
  inversion Hr; subst wl asset v2. clear Hr. simpl.
  destruct wl0 as [wl1 |]; [| inversion Hcoins].
  destruct (get_coins_to_offer wl1) as [f |]; [| inversion Hcoins].
  unfold call_get_coins_to_offer in Hcoins.
  apply bind_inv in Hcoins. destruct Hcoins as (u & w7 & Hlog & Hcoins).
  apply lift_inv in Hcoins. destruct Hcoins as [_ ->].
  inversion Hlog; subst. simpl.
  exists (wallet_id wl1), a0, solver, coins. auto.
Qed.

Lemma fee_first_zero n : fee_first 0 n = repeat 0 n.
Proof. destruct n; reflexivity. Qed.

Lemma last_of_cons {V} (x : V) l d : last (x :: l) d = last l x.
Proof.
  revert x d. induction l as [| y l IH]; intros x d; [reflexivity |].
  change (last (x :: y :: l) d) with (last (y :: l) d).
  rewrite !IH. reflexivity.
Qed.

(** The first loop of [_create_offer_for_ids]. *)
Lemma offer_loop_fees entries :
  forall v0 (w0 : Wd) v1 w1,
    NoDup (map fst entries) ->
    (forall e, In e entries -> ~ In (fst e) (map fst (coins_to_offer v0))) ->
    for_fold entries (offer_entry env) v0 w0 = (Ret v1, w1) ->
    let offered := filter (fun e => negb (asks e)) entries in
    exists new,
      calls w1 = calls w0 ++ new /\
      offer_fees new = [] /\
      query_fees new = fee_first (fee_left_to_pay v0) (List.length offered) /\
      map fst (coins_to_offer v1)
        = map fst (coins_to_offer v0) ++ map fst offered /\
      wallet_paying_fee v1
        = last (map (fun e => Some (fst e)) offered) (wallet_paying_fee v0).
Proof.
  induction entries as [| [id sv] entries IH];
    intros v0 w0 v1 w1 Hnd Hfresh H offered.
  - apply ret_inv in H. destruct H as [-> ->]. exists [].
    simpl. rewrite !app_nil_r. auto.
  - simpl in H. apply bind_inv in H. destruct H as (vm & wm & H1 & H).
    inversion Hnd as [| ? ? Hout Hnd']; subst.
    unfold offered. simpl filter.
    destruct (asks (id, sv)) eqn:Eask; simpl negb; cbv iota.
    + assert (Hreq : is_request (id, sv)).
      { unfold asks in Eask. simpl in Eask. destruct sv as [z | s];
          [| discriminate].
        exists z. split; [reflexivity | apply Z.ltb_lt; exact Eask]. }
      destruct (offer_entry_payer _ _ _ _ _ _ H1) as [Hpay _].
      destruct (Hpay Hreq) as [Epay Efee].
      destruct Hreq as (z & Ez & Hz). simpl in Ez. subst sv.
      apply (offer_entry_request _ _ _ _ _ _ Hz) in H1.
      destruct H1 as (Ecoins & wid & Hc).
      apply IH in H; [| exact Hnd' |].
      2: { intros e He. rewrite Ecoins. apply Hfresh. right. exact He. }
      destruct H as (new & Hc' & Ho & Hq & Hk & Hp).
      exists (GetNewPuzzlehash wid :: new).
      split; [rewrite Hc', Hc, <- app_assoc; reflexivity |].
      split; [exact Ho |].
      split; [simpl; rewrite Hq, Efee; reflexivity |].
      split; [rewrite Hk, Ecoins; reflexivity |].
      rewrite Hp, Epay. reflexivity.
    + apply (offer_entry_offered _ _ _ _ _ _ Eask) in H1.
      destruct H1 as (wid & asset & solver & coins & Hc & Ecoins & Efee & Epay).
      assert (Hkeys : map fst (coins_to_offer vm)
                      = map fst (coins_to_offer v0) ++ [id]).
      { rewrite Ecoins. apply dict_set_fresh_key.
        apply (Hfresh (id, sv)). left. reflexivity. }
      apply IH in H; [| exact Hnd' |].
      2: { intros e He. rewrite Hkeys. intros Hin.
           apply in_app_or in Hin. destruct Hin as [Hin | [Hin | []]].
           - apply (Hfresh e); [right; exact He | exact Hin].
           - apply Hout. rewrite Hin. apply in_map. exact He. }
      destruct H as (new & Hc' & Ho & Hq & Hk & Hp).
      exists (GetCoinsToOffer wid asset solver (fee_left_to_pay v0) :: new).
      split; [rewrite Hc', Hc, <- app_assoc; reflexivity |].
      split; [exact Ho |].
      split.
      { simpl. rewrite Hq, Efee, fee_first_zero. reflexivity. }
      split.
      { rewrite Hk, Hkeys, <- app_assoc. reflexivity. }
      rewrite Hp, Epay. simpl map. symmetry. apply last_of_cons.
Qed.

(** The second loop of [_create_offer_for_ids]. *)
Lemma offer_transactions_fees offer_dict fee paying ann items :
  forall txs0 (w0 : Wd) txs1 w1,
    for_fold items (offer_transactions env offer_dict fee paying ann) txs0 w0
    = (Ret txs1, w1) ->
    exists new,
      calls w1 = calls w0 ++ new /\
      query_fees new = [] /\
      offer_fees new
      = map (fun item =>
               if option_eqb AssetKey_eqb (Some (fst item)) paying
               then fee else 0) items.
Proof.
  induction items as [| [id selected] items IH]; intros txs0 w0 txs1 w1 H.
  - apply ret_inv in H. destruct H as [_ ->]. exists [].
    rewrite app_nil_r. auto.
  - simpl in H. apply bind_inv in H. destruct H as (txsm & wm & H1 & H).
    unfold offer_transactions in H1.
    apply bind_inv in H1. destruct H1 as (wl & w2 & Hwl & H1).
    assert (Hw2 : w2 = w0).
    { destruct id as [i | a].
      - apply bind_inv in Hwl. destruct Hwl as (wl1 & w3 & Hl & Hwl).
        apply wallets_lookup_inv in Hl. destruct Hl as [_ ->].
        inversion Hwl; reflexivity.
      - inversion Hwl; reflexivity. }
    subst w2.
    apply bind_inv in H1. destruct H1 as (solver & w3 & Hs & H1).
    assert (Hw3 : w3 = w0).
    { destruct (dict_get AssetKey_eqb offer_dict id) as [[z | s] |];
        inversion Hs; reflexivity. }
    subst w3.
    apply bind_inv in H1. destruct H1 as (txs & w4 & Hcall & H1).
    apply ret_inv in H1. destruct H1 as [_ ->].
    destruct wl as [wl1 |]; [| inversion Hcall].
    unfold call_create_offer_transactions in Hcall.
    apply bind_inv in Hcall. destruct Hcall as (u & w5 & Hlog & Hcall).
    apply lift_inv in Hcall. destruct Hcall as [_ ->].
    inversion Hlog; subst.
    apply IH in H. destruct H as (new & Hc & Hq & Ho).
    eexists (_ :: new).
    split; [rewrite Hc; simpl; rewrite <- app_assoc; reflexivity |].
    split; [exact Hq |]. simpl. rewrite Ho. reflexivity.
Qed.

Lemma fee_of_last_key (keys : list AssetKey) (x : AssetKey) fee :
  NoDup (keys ++ [x]) ->
  map (fun k => if option_eqb AssetKey_eqb (Some k) (Some x) then fee else 0)
    (keys ++ [x])
  = repeat 0 (List.length keys) ++ [fee].
Proof.
  intros Hnd. rewrite map_app. simpl.
  assert (Hx : AssetKey_eqb x x = true) by (apply AssetKey_eqb_eq; reflexivity).
  rewrite Hx. f_equal.
  apply NoDup_remove_2 in Hnd. rewrite app_nil_r in Hnd.
  induction keys as [| k keys IH]; [reflexivity |]. simpl.
  destruct (AssetKey_eqb k x) eqn:E.
  - apply AssetKey_eqb_eq in E. subst. exfalso. apply Hnd. left. reflexivity.
  - rewrite IH; [reflexivity |]. intros H. apply Hnd. right. exact H.
Qed.

(** Where the fee goes when a construction succeeds.  With [n] entries
    that offer, [_create_offer_for_ids] makes [n] calls of
    [get_coins_to_offer] and then [n] calls of [create_offer_transactions]:
    the first [get_coins_to_offer] call is passed the fee and the later ones
    none, while it is the last [create_offer_transactions] call that is
    passed the fee and the earlier ones none.  With one entry that offers the
    two agree; with no entry that offers the fee is passed to nobody. *)
Theorem fee_is_passed_once offer_dict given_drivers fee (w : Wd) o :
  NoDup (map fst offer_dict) ->
  let build := _create_offer_for_ids env offer_dict given_drivers fee in
  result build w = Ret (true, Some o, None) ->
  let n := List.length (filter (fun e => negb (asks e)) offer_dict) in
  exists new,
    calls (final build w) = calls w ++ new /\
    query_fees new = fee_first fee n /\
    offer_fees new = fee_last fee n.
Proof.
  intros Hnd build Hres n.
  unfold build, result, final, _create_offer_for_ids, try_except in *.
  set (given := match given_drivers with Some d => d | None => [] end) in *.
  destruct (bind (create_offer_body env offer_dict given fee)
              (fun o0 => ret (true, Some o0, None)) w)
    as [[r | e] w1] eqn:E; simpl in Hres; [| discriminate].
  inversion Hres; subst r. clear Hres. simpl.
  apply bind_inv in E. destruct E as (o' & w2 & Hbody & E).
  apply ret_inv in E. destruct E as [_ ->].
  unfold create_offer_body in Hbody.
  apply bind_inv in Hbody. destruct Hbody as (v & w3 & Hloop & Hbody).
  apply offer_loop_fees in Hloop; [| exact Hnd | intros e _ []].
  destruct Hloop as (new1 & Hc1 & Ho1 & Hq1 & Hk1 & Hp1).
  simpl in Hq1, Hk1, Hp1.
  apply bind_inv in Hbody. destruct Hbody as (np & w4 & Hnp & Hbody).
  apply lift_inv in Hnp. destruct Hnp as [_ ->].
  apply bind_inv in Hbody. destruct Hbody as (ann & w5 & Hann & Hbody).
  apply lift_inv in Hann. destruct Hann as [_ ->].
  apply bind_inv in Hbody. destruct Hbody as (txs & w6 & Htxs & Hbody).
  apply ret_inv in Hbody. destruct Hbody as [_ ->].
  apply offer_transactions_fees in Htxs.
  destruct Htxs as (new2 & Hc2 & Hq2 & Ho2).
  exists (new1 ++ new2).
  split; [rewrite Hc2, Hc1, app_assoc; reflexivity |].
  split; [rewrite query_fees_app, Hq1, Hq2, app_nil_r; reflexivity |].
  rewrite offer_fees_app, Ho1, Ho2, app_nil_l.
  set (offered := filter (fun e => negb (asks e)) offer_dict) in *.
  assert (Hkeys : NoDup (map fst offered)).
  { apply NoDup_map_filter. exact Hnd. }
  rewrite <- (map_map fst Some) in Hp1.
  rewrite <- (map_map fst
                (fun k => if option_eqb AssetKey_eqb (Some k)
                               (wallet_paying_fee v)
                          then fee else 0)).
  rewrite Hk1. unfold n. rewrite <- (length_map fst offered).
  remember (map fst offered) as ids eqn:Eids. clear Eids.
  destruct ids as [| k0 rest]; [reflexivity |].
  assert (Hne : k0 :: rest <> []) by discriminate.
  destruct (exists_last Hne) as (keys & k & Ek). rewrite Ek in *.
  rewrite map_app in Hp1. change (map Some [k]) with [Some k] in Hp1.
  rewrite last_last in Hp1. rewrite Hp1.
  rewrite length_app. simpl List.length.
  rewrite Nat.add_1_r. simpl fee_last.
  apply fee_of_last_key. exact Hkeys.
Qed.

End Properties.

(** * The statements on the concrete instance *)

Section Instances.
Import Demo.

Ltac nodup :=
  vm_compute;
  repeat (constructor; [simpl; intuition discriminate |]);
  constructor.

(** A maker's trade is confirmed at height 7 and its two records are stored
    as confirmed. *)
Lemma coins_of_interest_farmed_confirms_witness :
  let e := env table_settled in
  let t := trade bytes1 5 PENDING_ACCEPT in
  let w := world [t] [] in
  let run := coins_of_interest_farmed e event None in
  let o := Offer_from_bytes e (offer t) in
  get_trade_by_coin_loop (trades w) (cs_coin event) = Some t /\
  get_coin_state e (our_settlement_ids e o) None
    = [state s1 (Some 7) (Some 7)] /\
  status_of (final run w) 5 = Some CONFIRMED /\
  option_map confirmed_at_index
    (find (fun x => N.eqb (trade_id x) 5) (trades (final run w))) = Some 7 /\
  map tx_confirmed_at_height (transactions (final run w))
  = [Some 7; Some 7] /\
  map tx_confirmed (transactions (final run w)) = [true; true].
Proof.
  intros e t w run o. subst run o.
  assert (H1 : get_trade_by_coin_loop (trades w) (cs_coin event) = Some t)
    by reflexivity.
  assert (H2 : get_coin_state e
                 (our_settlement_ids e (Offer_from_bytes e (offer t))) None
               = [state s1 (Some 7) (Some 7)]) by reflexivity.
  split; [exact H1 |]. split; [exact H2 |].
  destruct (coins_of_interest_farmed_confirms e event None w t _ _ 7 H1 H2
              eq_refl)
    as (_ & Hs & Hi & _).
  split; [exact Hs |]. split; [apply Hi; lia |].
  split; reflexivity.
Defined.

(** C1 fails as stated: a taker's trade (PENDING_CONFIRM) whose settlement
    payment has been spent becomes CONFIRMED, but its pending record stays
    as it was and no confirmed record is stored, although the offer yields
    records. *)
Lemma pending_confirm_records_stay_unconfirmed :
  let e := env table_settled in
  let t := trade bytes1 5 PENDING_CONFIRM in
  let w := world [t] [pending_record] in
  let w' := final (coins_of_interest_farmed e event None) w in
  get_trade_by_coin_loop (trades w) (cs_coin event) = Some t /\
  settlement_spent e None (Offer_from_bytes e (offer t)) /\
  status_of w' 5 = Some CONFIRMED /\
  (exists tx txs,
     result (calculate_tx_records_for_offer e
               (Offer_from_bytes e (offer t)) false) w = Ret (tx :: txs)) /\
  transactions w' = [pending_record] /\
  ~ (exists tx, In tx (transactions w') /\ tx_confirmed tx = true).
Proof.
  intros e t w w'.
  split; [reflexivity |]. split.
  { exists (state s1 (Some 7) (Some 7)).
    split; [vm_compute; auto |]. split; [vm_compute; auto | discriminate]. }
  split; [reflexivity |]. split; [eexists; eexists; vm_compute; reflexivity |].
  split; [reflexivity |].
  intros [tx [Hin Hc]]. vm_compute in Hin.
  destruct Hin as [<- | []]. discriminate.
Qed.

(** The other side spent its coin elsewhere: the taker's trade fails and
    its queued record is deleted. *)
Lemma coins_of_interest_farmed_fails_witness :
  let e := env table_their_spend in
  let t := trade bytes1 5 PENDING_CONFIRM in
  let w := world [t] [pending_record] in
  let run := coins_of_interest_farmed e event None in
  get_trade_by_coin_loop (trades w) (cs_coin event) = Some t /\
  ~ settlement_known e None (Offer_from_bytes e (offer t)) /\
  result run w = Ret tt /\
  transactions (final run w) = [] /\
  status_of (final run w) 5 = Some FAILED.
Proof.
  intros e t w run. subst run.
  assert (H1 : get_trade_by_coin_loop (trades w) (cs_coin event) = Some t)
    by reflexivity.
  assert (H2 : ~ settlement_known e None (Offer_from_bytes e (offer t))).
  { intros [cs [Hin Hid]]. vm_compute in Hin.
    destruct Hin as [<- | [<- | []]]; vm_compute in Hid;
      intuition discriminate. }
  split; [exact H1 |]. split; [exact H2 |].
  destruct (coins_of_interest_farmed_fails e event None w t H1 H2)
    as (Hr & Htx & _ & Hfail & _).
  split; [exact Hr |]. split; [rewrite Htx; reflexivity |].
  apply Hfail. reflexivity.
Defined.

(** C2 fails on the code: the other side's coin was spent and none of our
    settlement payments has been spent -- ours exists on chain, unspent --
    yet the PENDING_CONFIRM trade does not end FAILED and its queued record
    is kept. *)
Lemma unspent_settlement_is_not_a_failure_witness :
  let e := env table_unspent_settlement in
  let t := trade bytes1 5 PENDING_CONFIRM in
  let w := world [t] [pending_record] in
  let w' := final (coins_of_interest_farmed e event None) w in
  get_trade_by_coin_loop (trades w) (cs_coin event) = Some t /\
  spent_height event = Some 7 /\
  settlement_known e None (Offer_from_bytes e (offer t)) /\
  ~ settlement_spent e None (Offer_from_bytes e (offer t)) /\
  status_of w' 5 <> Some FAILED /\
  transactions w' = [pending_record].
Proof.
  intros e t w w'. subst w'.
  assert (H1 : get_trade_by_coin_loop (trades w) (cs_coin event) = Some t)
    by reflexivity.
  assert (H2 : settlement_known e None (Offer_from_bytes e (offer t))).
  { exists (state s1 None (Some 7)). split; vm_compute; auto. }
  assert (H3 : ~ settlement_spent e None (Offer_from_bytes e (offer t))).
  { intros [cs (Hin & Hid & Hs)]. vm_compute in Hin.
    destruct Hin as [<- | [<- | [<- | []]]]; vm_compute in Hid, Hs;
      intuition discriminate. }
  split; [exact H1 |]. split; [reflexivity |].
  split; [exact H2 |]. split; [exact H3 |].
  destruct (unspent_settlement_is_not_a_failure e event None w t H1 H2 H3
              eq_refl) as [Hs Htx].
  split; [exact Hs | exact Htx].
Defined.

(** C3 fails on the code.  With two offered assets and a fee of 3, the
    standard wallet (first) is asked for coins that cover the fee, while the
    fee is attached to the transactions of the token wallet (last), whose
    coins were selected with no fee. *)
Theorem fee_attached_to_last_offered_asset :
  let offer_dict :=
    [(WalletKey 1, IntVal (-10)); (WalletKey 2, IntVal (-5))] in
  let run := _create_offer_for_ids (env []) offer_dict None 3 in
  (exists o, result run (world [] []) = Ret (true, Some o, None)) /\
  calls (final run (world [] []))
  = [GetCoinsToOffer 1 None (IntVal 10) 3;
     GetCoinsToOffer 2 (Some 500%N) (IntVal 5) 0;
     CreateOfferTransactions 1 (IntVal 10) [c1] [] 0;
     CreateOfferTransactions 2 (IntVal 5) [k1] [] 3].
Proof.
  intros offer_dict run. split; [eexists |]; vm_compute; reflexivity.
Qed.

(** A fresh offer is valid. *)
Lemma check_offer_validity_spec_witness :
  let e := env table_fresh in
  NoDup (map (fun cs => coin_name e (cs_coin cs)) (coin_table e None)) /\
  check_offer_validity e offer1 = true /\
  (forall c,
     In c (removals e (bundle offer1)) /\
     ~ In (parent_coin_info c)
         (map (coin_name e) (removals e (bundle offer1))) ->
     exists cs, In cs (coin_table e None) /\
                coin_name e (cs_coin cs) = coin_name e c /\
                spent_height cs = None).
Proof.
  intros e.
  assert (H2 : NoDup (map (fun cs => coin_name e (cs_coin cs))
                        (coin_table e None))) by nodup.
  split; [exact H2 |]. split; [reflexivity |].
  destruct (check_offer_validity_spec e offer1 H2) as (_ & Hiff & _).
  apply (proj1 Hiff). reflexivity.
Defined.

(** C4 fails as stated: a bundle that lists the coin [c1] twice.  Every
    non-ephemeral coin the bundle removes is known to the node and unspent,
    and [check_offer_validity] answers false: the node returns one state for
    the two entries, so the lengths compared at line 447 differ. *)
Lemma repeated_removal_is_refused :
  let e := env table_fresh in
  let o : DOffer :=
    {| requested_payments := [];
       bundle := {| b_name := 8; b_removals := [c1; c1];
                    b_additions := []; b_fees := 0 |};
       driver_dict := [] |} in
  (forall c,
     In c (removals e (bundle o)) /\
     ~ In (parent_coin_info c) (map (coin_name e) (removals e (bundle o))) ->
     exists cs, In cs (coin_table e None) /\
                coin_name e (cs_coin cs) = coin_name e c /\
                spent_height cs = None) /\
  List.length (get_coin_state e (map (coin_name e) (removals e (bundle o)))
                 None) = 1%nat /\
  check_offer_validity e o = false.
Proof.
  intros e o. split; [| split; reflexivity].
  intros c [Hc _]. exists (state c1 None (Some 2)).
  destruct Hc as [<- | [<- | []]]; repeat split; left; reflexivity.
Qed.

(** A stale offer is refused and the state is untouched. *)
Lemma respond_to_offer_stale_witness :
  let e := env table_settled in
  let w := world [] [] in
  check_offer_validity e offer1 = false /\
  respond_to_offer e offer1 0 w
  = (Ret (false, None, Some OfferNoLongerValid), w).
Proof.
  intros e w.
  assert (H : check_offer_validity e offer1 = false) by reflexivity.
  split; [exact H |].
  apply (proj2 (respond_to_offer_stale e offer1 0 w H)
           [(WalletKey 1, IntVal (-40))]).
  reflexivity.
Defined.

(** C6 fails as stated: on a zero amount [_create_offer_for_ids] answers
    the failure triple, and [create_offer_for_ids] raises instead of
    returning it. *)
Lemma create_offer_for_ids_raises :
  let offer_dict := [(WalletKey 1, IntVal (Solver := unit) 0)] in
  let w := world [] [] in
  let run := create_offer_for_ids (env []) offer_dict None 0 false in
  result (_create_offer_for_ids (env []) offer_dict None 0) w
    = Ret (false, None, Some ZeroAmount) /\
  result run w = Raise (ErrorCreatingOffer ZeroAmount) /\
  ~ (exists r, result run w = Ret r).
Proof.
  intros offer_dict w run.
  split; [reflexivity |]. split; [reflexivity |].
  intros [r Hr]. vm_compute in Hr. discriminate.
Qed.



(** The example of the specification: primary coins of 100 and 50 of the
    standard wallet, fee 30.  The first coin pays the fee out of its own
    amount and both go to puzzle hashes that differ from the original
    ones. *)
Example cancel_two_standard_coins :
  let e := env [] in
  let w := world [trade bytes3 7 PENDING_ACCEPT] [] in
  let w' := final (cancel_pending_offer_safely e 7 30) w in
  spend_calls (calls w')
  = [(1, [70], [1000%N], 30, [c1]); (1, [50], [1001%N], 0, [c2])] /\
  status_of w' 7 = Some PENDING_CANCEL.
Proof. intros e w w'. split; reflexivity. Qed.

(** C8 fails as stated: the zero amount comes second, and the coins of the
    first entry have been queried by the time construction fails. *)
Lemma zero_amount_after_offered_entry :
  let offer_dict :=
    [(WalletKey 1, IntVal (Solver := unit) (-10)); (WalletKey 2, IntVal 0)] in
  let w := world [] [] in
  let run := create_offer_for_ids (env []) offer_dict None 0 false in
  In (WalletKey 2, IntVal 0) offer_dict /\
  result run w = Raise (ErrorCreatingOffer ZeroAmount) /\
  calls (final run w) = [GetCoinsToOffer 1 None (IntVal 10) 0] /\
  ~ (forall wid asset_id amt fee,
       ~ In (GetCoinsToOffer wid asset_id amt fee) (calls (final run w))).
Proof.
  intros offer_dict w run.
  split; [right; left; reflexivity |].
  split; [reflexivity |]. split; [reflexivity |].
  intros H. apply (H 1 None (IntVal 10) 0). left. reflexivity.
Qed.



(** A zero amount offered from the standard wallet: the construction
    reports it, [create_offer_for_ids] raises it, and nothing is stored. *)
Lemma construction_errors_witness :
  let offer_dict := [(WalletKey 1, IntVal (Solver := unit) 0)] in
  let w := world [trade bytes1 5 PENDING_ACCEPT] [pending_record] in
  let build := _create_offer_for_ids (env []) offer_dict None 0 in
  let create := create_offer_for_ids (env []) offer_dict None 0 false in
  result build w = Ret (false, None, Some ZeroAmount) /\
  result create w = Raise (ErrorCreatingOffer ZeroAmount) /\
  trades (final create w) = trades w /\
  transactions (final create w) = transactions w.
Proof.
  intros offer_dict w build create.
  assert (H : result build w = Ret (false, None, Some ZeroAmount))
    by reflexivity.
  split; [exact H |].
  destruct (construction_errors (env []) offer_dict None 0 false w)
    as (_ & _ & _ & Hcreate & _).
  exact (Hcreate ZeroAmount H).
Defined.

(** A request, then a zero amount, then an offer: construction fails and no
    wallet has been asked for coins. *)
Lemma zero_amount_fails_witness :
  let pre := [(AssetIdKey 500, IntVal (Solver := unit) 5)] in
  let post := [(WalletKey 2, IntVal (Solver := unit) (-5))] in
  let w := world [] [] in
  let build :=
    _create_offer_for_ids (env []) (pre ++ (WalletKey 1, IntVal 0) :: post)
      None 3 in
  (forall entry, In entry pre -> is_request entry) /\
  (exists e, result build w = Ret (false, None, Some e)) /\
  coin_queries (calls (final build w)) = [].
Proof.
  intros pre post w build.
  assert (H : forall entry, In entry pre -> is_request entry).
  { intros entry [<- | []]. exists 5. split; [reflexivity | lia]. }
  split; [exact H |].
  destruct (zero_amount_fails (env []) pre (WalletKey 1) post None 3 false w)
    as ((e & He & _) & _ & _ & Hnone).
  split; [exists e; exact He |].
  exact (Hnone H).
Defined.

(** ** The further statements on the instance *)

(** The coin [m1] is watched for the pending trade 5, and
    [get_trade_by_coin] finds a live trade for it. *)
Lemma coin_of_interest_has_trade_witness :
  let e := env [] in
  let w := world [trade bytes2 6 CANCELLED; trade bytes1 5 PENDING_ACCEPT] [] in
  let d := [(name_of c1, c1); (name_of m1, m1)] in
  get_coins_of_interest e w = (Ret d, w) /\
  dict_get N.eqb d (name_of m1) = Some m1 /\
  exists t,
    get_trade_by_coin m1 w = (Ret (Some t), w) /\
    In t (trades w) /\ In m1 (coins_of_interest t) /\ status t <> CANCELLED.
Proof.
  intros e w d.
  assert (H1 : get_coins_of_interest e w = (Ret d, w)) by reflexivity.
  assert (H2 : dict_get N.eqb d (name_of m1) = Some m1) by reflexivity.
  split; [exact H1 |]. split; [exact H2 |].
  exact (coin_of_interest_has_trade e w d (name_of m1) m1 H1 H2).
Defined.

Lemma trade_ids_stay_unique_witness :
  let e := env table_settled in
  let w := world [trade bytes1 5 PENDING_ACCEPT; trade bytes2 6 PENDING_CONFIRM]
             [] in
  NoDup (map trade_id (trades w)) /\
  NoDup (map trade_id
           (trades (final (coins_of_interest_farmed e event None) w))) /\
  NoDup (map trade_id
           (trades (final (save_trade e (trade bytes3 6 PENDING_ACCEPT)) w))).
Proof.
  intros e w.
  assert (H : NoDup (map trade_id (trades w))) by nodup.
  split; [exact H |].
  destruct (trade_ids_stay_unique e w H) as (H1 & _ & _ & H4 & _).
  split; [apply H1 | apply H4].
Defined.

Lemma trades_are_never_removed_witness :
  let e := env table_their_spend in
  let w := world [trade bytes1 5 PENDING_CONFIRM] [pending_record] in
  In 5%N (map trade_id (trades w)) /\
  In 5%N (map trade_id
            (trades (final (coins_of_interest_farmed e event None) w))) /\
  In 5%N (map trade_id (trades (final (cancel_pending_offer e 5) w))).
Proof.
  intros e w.
  assert (H : In 5%N (map trade_id (trades w))) by (left; reflexivity).
  split; [exact H |].
  destruct (trades_are_never_removed e w 5%N H) as (H1 & H2 & _).
  split; [apply H1 | apply H2].
Defined.

(** The trade 7 is cancelled safely with a fee of 30, with a cancelled
    trade beside it in the store; the event for its coin [c1] then finds no
    settlement payment and the trade is CANCELLED. *)
Lemma safe_cancel_then_event_witness :
  let e := env [] in
  let t := trade bytes3 7 PENDING_ACCEPT in
  let w := world [t; trade bytes2 6 CANCELLED] [] in
  let cancel := cancel_pending_offer_safely e 7 30 in
  let spent := state c1 (Some 7) (Some 2) in
  let txs := match result cancel w with Ret (Some txs) => txs | _ => [] end in
  NoDup (map trade_id (trades w)) /\
  get_trade_by_coin_loop (trades w) (cs_coin spent) = Some t /\
  (forall t', In t' (trades w) -> trade_id t' <> trade_id t ->
     status t' = CANCELLED \/
     ~ In (cs_coin spent) (coins_of_interest t')) /\
  result cancel w = Ret (Some txs) /\
  ~ settlement_known e None (Offer_from_bytes e (offer t)) /\
  status_of (final cancel w) 7 = Some PENDING_CANCEL /\
  status_of (final (coins_of_interest_farmed e spent None) (final cancel w)) 7
  = Some CANCELLED.
Proof.
  intros e t w cancel spent txs.
  assert (H0 : NoDup (map trade_id (trades w))) by nodup.
  assert (H1 : get_trade_by_coin_loop (trades w) (cs_coin spent) = Some t)
    by reflexivity.
  assert (Ho : forall t', In t' (trades w) -> trade_id t' <> trade_id t ->
                 status t' = CANCELLED \/
                 ~ In (cs_coin spent) (coins_of_interest t')).
  { intros t' [<- | [<- | []]] Hne; [congruence | left; reflexivity]. }
  assert (H2 : result cancel w = Ret (Some txs)) by reflexivity.
  assert (H3 : ~ settlement_known e None (Offer_from_bytes e (offer t))).
  { intros [cs [Hin _]]. destruct Hin. }
  split; [exact H0 |]. split; [exact H1 |]. split; [exact Ho |].
  split; [exact H2 |]. split; [exact H3 |].
  destruct (safe_cancel_then_event e 30 w t txs spent None H0 H1 Ho H2)
    as (Hs & Hfail & _).
  split; [exact Hs |]. apply Hfail. exact H3.
Defined.

(** An offer of 10 from the standard wallet against 5 of the token is
    created and stored: it can be read back under its name. *)
Lemma create_offer_for_ids_stores_witness :
  let e := env [] in
  let w := world [] [] in
  let offer_dict := [(WalletKey 1, IntVal (-10)); (WalletKey 2, IntVal 5)] in
  let build := _create_offer_for_ids e offer_dict None 3 in
  let run := create_offer_for_ids e offer_dict None 3 false in
  let o := match result build w with
           | Ret (_, Some o, _) => o
           | _ => empty_offer
           end in
  result build w = Ret (true, Some o, None) /\
  exists t,
    result run w = Ret (true, Some t, None) /\
    status t = PENDING_ACCEPT /\
    result (get_trade_by_id (Offer_name e o)) (final run w) = Ret (Some t).
Proof.
  intros e w offer_dict build run o.
  assert (H : result build w = Ret (true, Some o, None)) by reflexivity.
  split; [exact H |].
  destruct (create_offer_for_ids_stores e offer_dict None 3 false w o H)
    as (t & Hr & _ & Hs & _ & _ & _ & _ & _ & _ & Hstored).
  exists t. split; [exact Hr |]. split; [exact Hs |].
  apply (Hstored eq_refl).
Defined.

Lemma calculate_tx_records_spec_witness :
  let e := env [] in
  let w := world [] [] in
  let run := calculate_tx_records_for_offer e offer1 false in
  let txs := match result run w with Ret txs => txs | Raise _ => [] end in
  result run w = Ret txs /\
  List.length txs = 2%nat /\
  final run w = w /\
  Forall (fun tx =>
            trade_record_of e offer1 tx /\
            (incoming_trade_record e offer1 (bundle offer1) tx \/
             outgoing_trade_record e offer1 (bundle offer1) tx)) txs.
Proof.
  intros e w run txs.
  assert (H : result run w = Ret txs) by reflexivity.
  split; [exact H |]. split; [reflexivity |].
  destruct (calculate_tx_records_spec e offer1 false w txs H)
    as (Hf & sb & Hsb & _ & Hall).
  split; [exact Hf |]. simpl in Hsb. subst sb. exact Hall.
Defined.

(** The offer is accepted while nothing of it is spent: the offer built
    for this side is aggregated with it, the trade is stored as
    PENDING_CONFIRM under the name of the completed offer, and the spend is
    pushed, followed by the records of the completed offer. *)
Lemma respond_to_offer_success_witness :
  let e := env table_fresh in
  let w := world [] [] in
  let run := respond_to_offer e offer1 0 in
  let tr := match result run w with Ret (_, tr, _) => tr | Raise _ => None end in
  result run w = Ret (true, tr, None) /\
  check_offer_validity e offer1 = true /\
  exists t take complete txs push,
    tr = Some t /\ status t = PENDING_CONFIRM /\
    result (_create_offer_for_ids e [(WalletKey 1, IntVal (-40))]
              (Some (driver_dict offer1)) 0) w
      = Ret (true, Some take, None) /\
    Offer_aggregate e [with_driver_dict offer1 (driver_dict take); take]
      = Ret complete /\
    trade_id t = Offer_name e complete /\
    result (calculate_tx_records_for_offer e complete true) w = Ret txs /\
    transactions (final run w) = transactions w ++ push :: txs /\
    result (get_trade_by_id (trade_id t)) (final run w) = Ret (Some t).
Proof.
  intros e w run tr.
  assert (H : result run w = Ret (true, tr, None)) by reflexivity.
  split; [exact H |].
  destruct (respond_to_offer_success e offer1 0 w tr None H)
    as (Hv & _ & d & take & complete & sb & txs & t & push & Hd & Hb & Hagg
        & _ & _ & Hcalc & Ht & Hid & _ & _ & _ & Hs & _ & Hget & Htx & _).
  split; [exact Hv |]. exists t, take, complete, txs, push.
  vm_compute in Hd. injection Hd as <-.
  repeat (split; [assumption |]). exact Hget.
Defined.

(** The caller's driver for the asset 9 is kept and the token wallet's
    driver for the asset 500, for which the caller gave none, is added after
    it. *)
Lemma offer_keeps_given_drivers_witness :
  let e := env [] in
  let w := world [] [] in
  let given := [(9%N, 9%N)] in
  let build :=
    _create_offer_for_ids e [(AssetIdKey 500, IntVal 5)] (Some given) 0 in
  let o := match result build w with
           | Ret (_, Some o, _) => o
           | _ => empty_offer
           end in
  (forall x y, PuzzleInfo_eqb e x y = true -> x = y) /\
  result build w = Ret (true, Some o, None) /\
  driver_dict o = given ++ [(500%N, 500%N)] /\
  entry_wallet e (AssetIdKey 500) 500 cat /\
  exists extra,
    driver_dict o = given ++ extra /\
    forall a info, In (a, info) extra -> dict_get N.eqb given a = None.
Proof.
  intros e w given build o.
  assert (Heq : forall x y, PuzzleInfo_eqb e x y = true -> x = y).
  { intros x y H. apply N.eqb_eq. exact H. }
  assert (H : result build w = Ret (true, Some o, None)) by reflexivity.
  split; [exact Heq |]. split; [exact H |]. split; [reflexivity |].
  split; [split; reflexivity |].
  destruct (offer_keeps_given_drivers e [(AssetIdKey 500, IntVal 5)] given 0
              w o Heq H) as (extra & Hd & Hall).
  exists extra. split; [exact Hd |].
  intros a info Hin. exact (proj1 (Hall a info Hin)).
Defined.

(** An offer that asks for 10 of the base currency and 5 of the token, with
    a fee of 3: two puzzle hashes are derived and no wallet is asked for
    coins. *)
Lemma request_only_offer_witness :
  let e := env [] in
  let w := world [] [] in
  let offer_dict := [(WalletKey 1, IntVal 10); (AssetIdKey 500, IntVal 5)] in
  let build := _create_offer_for_ids e offer_dict None 3 in
  let o := match result build w with
           | Ret (_, Some o, _) => o
           | _ => empty_offer
           end in
  (forall entry, In entry offer_dict -> is_request entry) /\
  result build w = Ret (true, Some o, None) /\
  bundle o = SpendBundle_aggregate e [] /\
  exists wids,
    calls (final build w) = calls w ++ map GetNewPuzzlehash wids /\
    List.length wids = 2%nat.
Proof.
  intros e w offer_dict build o.
  assert (Hreq : forall entry, In entry offer_dict -> is_request entry).
  { intros entry [<- | [<- | []]]; eexists; (split; [reflexivity | lia]). }
  assert (H : result build w = Ret (true, Some o, None)) by reflexivity.
  split; [exact Hreq |]. split; [exact H |].
  destruct (request_only_offer e offer_dict None 3 w o Hreq H)
    as (Hb & _ & wids & Hc & Hlen).
  split; [exact Hb |]. exists wids. split; [exact Hc | exact Hlen].
Defined.

(** The caller says the driver of the asset 500 is 7; the token wallet says
    it is 500. *)
Lemma driver_conflict_fails_witness :
  let e := env [] in
  let w := world [] [] in
  let build :=
    _create_offer_for_ids e [(AssetIdKey 500, IntVal 5)]
      (Some [(500%N, 7%N)]) 0 in
  0 < 5 < 2 ^ 64 /\
  get_wallet_for_asset_id e 500 = Some cat /\
  new_puzzlehash (main_wallet e) (derived w) = Ret 1000%N /\
  result build w = Ret (false, None, Some (DriverConflict 500)) /\
  trades (final build w) = trades w.
Proof.
  intros e w build.
  assert (H0 : 0 < 5 < 2 ^ 64) by lia.
  assert (H1 : get_wallet_for_asset_id e 500 = Some cat) by reflexivity.
  assert (H2 : new_puzzlehash (main_wallet e) (derived w) = Ret 1000%N)
    by reflexivity.
  split; [exact H0 |]. split; [exact H1 |]. split; [exact H2 |].
  destruct (driver_conflict_fails e 500 5 [] [(500%N, 7%N)] 0 w cat 1000%N
              H0 H1 H2) as (_ & Hconflict & Ht & _).
  split; [| exact Ht].
  apply (Hconflict (fun a => a) 7%N); reflexivity.
Defined.

(** The offer is accepted, then an event for [c1] arrives while the node
    knows no settlement payment of this side: the trade is FAILED and none
    of its records is left. *)
Lemma accepted_offer_then_failure_witness :
  let e := env table_fresh in
  let w := world [] [] in
  let run := respond_to_offer e offer1 0 in
  let t := match result run w with
           | Ret (_, Some t, _) => t
           | _ => trade bytes1 5 FAILED
           end in
  let spent := state c1 (Some 8) (Some 2) in
  let after :=
    final (coins_of_interest_farmed e spent None) (final run w) in
  result run w = Ret (true, Some t, None) /\
  In (cs_coin spent) (coins_of_interest t) /\
  ~ settlement_known e None (Offer_from_bytes e (offer t)) /\
  status_of (final run w) (trade_id t) = Some PENDING_CONFIRM /\
  status_of after (trade_id t) = Some FAILED /\
  Forall (fun tx => tx_trade_id tx <> Some (trade_id t)) (transactions after).
Proof.
  intros e w run t spent after.
  assert (H0 : result run w = Ret (true, Some t, None)) by reflexivity.
  assert (H1 : In (cs_coin spent) (coins_of_interest t))
    by (left; reflexivity).
  assert (H2 : forall x, In x (trades w) ->
                 status x = CANCELLED \/
                 ~ In (cs_coin spent) (coins_of_interest x)).
  { intros x []. }
  assert (H3 : ~ settlement_known e None (Offer_from_bytes e (offer t))).
  { intros [cs [Hin Hn]]. vm_compute in Hin.
    destruct Hin as [<- | [<- | []]]; vm_compute in Hn;
      intuition discriminate. }
  split; [exact H0 |]. split; [exact H1 |]. split; [exact H3 |].
  destruct (accepted_offer_then_failure e offer1 0 w t spent None H0 H1 H2 H3)
    as (Hs1 & _ & Hs2 & Hall).
  split; [exact Hs1 |]. split; [exact Hs2 | exact Hall].
Defined.

(** The two removals of the standard wallet show as one record. *)
Lemma removals_grouped_by_wallet_witness :
  let e := env [] in
  let w := world [] [] in
  let run := calculate_tx_records_for_offer e offer3 false in
  let txs := match result run w with Ret txs => txs | Raise _ => [] end in
  result run w = Ret txs /\
  map tx_removals (filter is_outgoing txs) = [[c1; c2]] /\
  exists groups : list (Z * list Coin),
    NoDup (map fst groups) /\
    map tx_removals (filter is_outgoing txs) = map snd groups.
Proof.
  intros e w run txs.
  assert (H : result run w = Ret txs) by reflexivity.
  split; [exact H |]. split; [reflexivity |].
  destruct (removals_grouped_by_wallet e offer3 false w txs H)
    as (sb & groups & _ & Hnd & Hmap & _).
  exists groups. split; [exact Hnd | exact Hmap].
Defined.

(** Two assets are offered with a fee of 3: the first
    [get_coins_to_offer] call carries the fee, and so does the second
    [create_offer_transactions] call. *)
Lemma fee_is_passed_once_witness :
  let e := env [] in
  let w := world [] [] in
  let offer_dict :=
    [(WalletKey 1, IntVal (-10)); (WalletKey 2, IntVal (-5))] in
  let build := _create_offer_for_ids e offer_dict None 3 in
  let o := match result build w with
           | Ret (_, Some o, _) => o
           | _ => empty_offer
           end in
  NoDup (map fst offer_dict) /\
  result build w = Ret (true, Some o, None) /\
  exists new,
    calls (final build w) = calls w ++ new /\
    query_fees new = [3; 0] /\
    offer_fees new = [0; 3].
Proof.
  intros e w offer_dict build o.
  assert (H0 : NoDup (map fst offer_dict)) by nodup.
  assert (H : result build w = Ret (true, Some o, None)) by reflexivity.
  split; [exact H0 |]. split; [exact H |].
  destruct (fee_is_passed_once e offer_dict None 3 w o H0 H)
    as (new & Hc & Hq & Ho).
  exists new. split; [exact Hc |]. split; [exact Hq | exact Ho].
Defined.

End Instances.
